(** * Site analysis heuristics of [convex/siteAnalyzer.ts]

    A shallow embedding of the scoring functions [detectTechnologies],
    [analyzePerformance], [analyzeSecurityHeaders] and [analyzeSEO], of the
    action [analyzeSite] with the table it saves to ([getByDomain],
    [createAnalysis], [updateAnalysis]), and of the bulk-job mutations
    [createBulkJob] / [updateBulkJob] together with the action
    [bulkAnalyzeSites] that drives them; further [makeApiRequest] of
    [convex/apiPlayground.ts] and some helpers of the components. *)

From Stdlib Require Import ZArith NArith Lia List String Ascii DecimalString.
From Stdlib Require Import Floats.
From stdpp Require Import gmap list.

Local Open Scope Z_scope.

(** ** JavaScript strings

    A JavaScript string is a finite sequence of UTF-16 code units.  String
    literals of the source are ASCII; [js] turns such a literal into its
    code units. *)

Abbreviation jsstring := (list N).

Definition js (s : string) : jsstring :=
  map N_of_ascii (list_ascii_of_string s).

(** [p] occurs at the very start of [s]. *)
Fixpoint starts_with (p s : jsstring) : bool :=
  match p, s with
  | [], _ => true
  | c :: p', d :: s' => (c =? d)%N && starts_with p' s'
  | _ :: _, [] => false
  end.

(** [String.prototype.includes]: [p] occurs somewhere in [s]. *)
Fixpoint includes (s p : jsstring) : bool :=
  starts_with p s ||
  match s with
  | [] => false
  | _ :: s' => includes s' p
  end.

(** Number of positions of [s] at which the literal [p] occurs. *)
Fixpoint occurrences (p s : jsstring) : nat :=
  match s with
  | [] => 0%nat
  | _ :: s' => ((if starts_with p s then 1 else 0) + occurrences p s')%nat
  end.

(** Decimal rendering of an array length inside a template literal. *)
Definition Number_toString (n : nat) : jsstring :=
  js (NilEmpty.string_of_uint (Nat.to_uint n)).

(** Truthiness of [obj[key]] for a [Record<string, string>]: the property is
    present and its value is not the empty string. *)
Definition truthy (v : option jsstring) : bool :=
  match v with
  | Some (_ :: _) => true
  | Some [] | None => false
  end.

(** ** Regular expressions

    The fragment of ECMAScript regular expressions the source uses:
    literals, character classes, greedy repetition of a class, sequence and
    alternation, matched by backtracking with the priorities of the
    language (leftmost alternative first, longest repetition first). *)

Inductive regex : Type :=
| Eps
| Unit (p : N -> bool)
| Seq (r1 r2 : regex)
| Alt (r1 r2 : regex)
| Star (p : N -> bool).

(** Greedy [c*] followed by the continuation [k]. *)
Fixpoint star_exec {A} (p : N -> bool) (k : jsstring -> option A)
    (s : jsstring) : option A :=
  match s with
  | c :: s' =>
      if p c then
        match star_exec p k s' with
        | Some x => Some x
        | None => k s
        end
      else k s
  | [] => k []
  end.

(** [exec r k s] matches [r] at the start of [s] and hands the rest of the
    input to [k]; a failing continuation makes the matcher backtrack. *)
Fixpoint exec {A} (r : regex) (k : jsstring -> option A)
    (s : jsstring) : option A :=
  match r with
  | Eps => k s
  | Unit p =>
      match s with
      | c :: s' => if p c then k s' else None
      | [] => None
      end
  | Seq r1 r2 => exec r1 (exec r2 k) s
  | Alt r1 r2 =>
      match exec r1 k s with
      | Some x => Some x
      | None => exec r2 k s
      end
  | Star p => star_exec p k s
  end.

(** Length of the match of [r] anchored at the start of [s]. *)
Definition exec_at (r : regex) (s : jsstring) : option nat :=
  exec r (fun rest => Some (length s - length rest)%nat) s.

(** [s.match(r)] without the [g] flag, used for its truthiness only: is
    there a match starting at some index of [s]? *)
Fixpoint test (r : regex) (s : jsstring) : bool :=
  match exec_at r s with
  | Some _ => true
  | None =>
      match s with
      | [] => false
      | _ :: s' => test r s'
      end
  end.

(** [s.match(r) || []] with the [g] flag: the matched substrings from left
    to right, each search resuming at the end of the previous match (one
    code unit further after an empty match).  [skip] counts the code units
    still covered by the previous match. *)
Fixpoint match_all_from (r : regex) (skip : nat) (s : jsstring)
    : list jsstring :=
  match skip with
  | S skip' =>
      match s with
      | [] => []
      | _ :: s' => match_all_from r skip' s'
      end
  | O =>
      match exec_at r s with
      | Some len =>
          firstn len s ::
          match s with
          | [] => []
          | _ :: s' => match_all_from r (len - 1) s'
          end
      | None =>
          match s with
          | [] => []
          | _ :: s' => match_all_from r 0 s'
          end
      end
  end.

Definition match_all (r : regex) (s : jsstring) : list jsstring :=
  match_all_from r 0 s.

(** Case folding of the [i] flag.  Without the [u] flag a code unit of 128
    or more never folds to one below 128, and every pattern of the source
    is ASCII, so folding the letters a-z is all that can make two code
    units agree. *)
Definition canonicalize (c : N) : N :=
  if ((97 <=? c) && (c <=? 122))%N then (c - 32)%N else c.

Definition same_unit (ignore_case : bool) (c d : N) : bool :=
  if ignore_case then (canonicalize c =? canonicalize d)%N else (c =? d)%N.

(** A pattern character. *)
Definition chr (ignore_case : bool) (c : N) : regex :=
  Unit (same_unit ignore_case c).

(** A literal run of pattern characters. *)
Definition literal (ignore_case : bool) (l : jsstring) : regex :=
  fold_right (fun c r => Seq (chr ignore_case c) r) Eps l.

Definition text (ignore_case : bool) (s : string) : regex :=
  literal ignore_case (js s).

(** The classes [[...]] and [[^...]]. *)
Definition one_of (ignore_case : bool) (s : string) : N -> bool :=
  fun u => existsb (same_unit ignore_case u) (js s).

Definition none_of (ignore_case : bool) (s : string) : N -> bool :=
  fun u => negb (one_of ignore_case s u).

Definition Plus (p : N -> bool) : regex := Seq (Unit p) (Star p).

Definition cat (rs : list regex) : regex := fold_right Seq Eps rs.

Definition quote : string := String (ascii_of_nat 34) (String (ascii_of_nat 39) EmptyString).

(** [/<title[^>]*>([^<]+)<\/title>/i] *)
Definition re_title : regex :=
  cat [text true "<title"; Star (none_of true ">"); text true ">";
       Plus (none_of true "<"); text true "</title>"].

(** [/<meta[^>]*name=["']description["']/i] *)
Definition re_description : regex :=
  cat [text true "<meta"; Star (none_of true ">"); text true "name=";
       Unit (one_of true quote); text true "description";
       Unit (one_of true quote)].

(** [/<h1[^>]*>/i] *)
Definition re_h1 : regex :=
  cat [text true "<h1"; Star (none_of true ">"); text true ">"].

(** [/<meta[^>]*name=["']viewport["']/i] *)
Definition re_viewport : regex :=
  cat [text true "<meta"; Star (none_of true ">"); text true "name=";
       Unit (one_of true quote); text true "viewport";
       Unit (one_of true quote)].

(** [/<img[^>]*>/g] *)
Definition re_img : regex :=
  cat [text false "<img"; Star (none_of false ">"); text false ">"].

(** [/<(script|link|img)/g] *)
Definition re_resource : regex :=
  Seq (text false "<")
      (Alt (text false "script") (Alt (text false "link") (text false "img"))).

(** ** Score reports *)

Record report : Type := Report {
  score : Z;
  issues : list jsstring;
  recommendations : list jsstring
}.

(** ** [analyzeSEO] *)

Module SEO.

Definition start : report := Report 100 [] [].

Definition check_title (html : jsstring) (st : report) : report :=
  if negb (test re_title html) then
    {| score := score st - 20;
       issues := issues st ++ [js "Missing page title"];
       recommendations :=
         recommendations st ++ [js "Add a descriptive page title"] |}
  else st.

Definition check_description (html : jsstring) (st : report) : report :=
  if negb (test re_description html) then
    {| score := score st - 15;
       issues := issues st ++ [js "Missing meta description"];
       recommendations :=
         recommendations st ++
         [js "Add a meta description for better search results"] |}
  else st.

Definition check_h1 (html : jsstring) (st : report) : report :=
  if negb (test re_h1 html) then
    {| score := score st - 10;
       issues := issues st ++ [js "Missing H1 tag"];
       recommendations :=
         recommendations st ++
         [js "Add an H1 tag for better content structure"] |}
  else st.

Definition check_viewport (html : jsstring) (st : report) : report :=
  if negb (test re_viewport html) then
    {| score := score st - 15;
       issues := issues st ++ [js "Missing viewport meta tag"];
       recommendations :=
         recommendations st ++
         [js "Add viewport meta tag for mobile responsiveness"] |}
  else st.

(** [images.filter(img => !img.includes('alt='))] *)
Definition imagesWithoutAlt (html : jsstring) : list jsstring :=
  List.filter (fun img => negb (includes img (js "alt=")))
              (match_all re_img html).

Definition check_images (html : jsstring) (st : report) : report :=
  let n := length (imagesWithoutAlt html) in
  if (0 <? n)%nat then
    {| score := score st - Z.min 20 (Z.of_nat n * 2);
       issues :=
         issues st ++
         [Number_toString n ++ js " images missing alt attributes"];
       recommendations :=
         recommendations st ++
         [js "Add alt attributes to all images for accessibility"] |}
  else st.

(** The five checks in source order, before the final clamp. *)
Definition checks (html : jsstring) : report :=
  check_images html
    (check_viewport html
       (check_h1 html
          (check_description html
             (check_title html start)))).

Definition analyzeSEO (html : jsstring) : report :=
  let st := checks html in
  {| score := Z.max 0 (score st);
     issues := issues st;
     recommendations := recommendations st |}.

End SEO.

(** ** [analyzeSecurityHeaders]

    [headers] is a plain object used as a map from header names to values;
    [headers[name]] reads the entry stored under exactly that name.  (None
    of the names read below is a property inherited from
    [Object.prototype].) *)

Module Security.

Definition securityHeaders : list jsstring :=
  [js "strict-transport-security";
   js "content-security-policy";
   js "x-frame-options";
   js "x-content-type-options";
   js "referrer-policy";
   js "permissions-policy"].

Definition missing_issue (header : jsstring) : jsstring :=
  js "Missing " ++ header ++ js " header".

Definition missing_recommendation (header : jsstring) : jsstring :=
  js "Add " ++ header ++ js " header for better security".

Definition powered_by_issue : jsstring :=
  js "X-Powered-By header exposes server information".

Definition powered_by_recommendation : jsstring :=
  js "Remove X-Powered-By header to hide server details".

Definition start : report := Report 100 [] [].

(** The body of the [forEach] callback. *)
Definition check_header (headers : gmap jsstring jsstring) (st : report)
    (header : jsstring) : report :=
  if negb (truthy (headers !! header)) then
    {| score := score st - 15;
       issues := issues st ++ [missing_issue header];
       recommendations :=
         recommendations st ++ [missing_recommendation header] |}
  else st.

Definition check_powered_by (headers : gmap jsstring jsstring)
    (st : report) : report :=
  if truthy (headers !! js "x-powered-by") then
    {| score := score st - 10;
       issues := issues st ++ [powered_by_issue];
       recommendations := recommendations st ++ [powered_by_recommendation] |}
  else st.

(** All seven checks in source order, before the final clamp. *)
Definition checks (headers : gmap jsstring jsstring) : report :=
  check_powered_by headers
    (fold_left (check_header headers) securityHeaders start).

Definition analyzeSecurityHeaders (headers : gmap jsstring jsstring)
    : report :=
  let st := checks headers in
  {| score := Z.max 0 (score st);
     issues := issues st;
     recommendations := recommendations st |}.

End Security.

(** ** [detectTechnologies] *)

Record technology : Type := Technology {
  name : jsstring;
  category : jsstring;
  confidence : Z
}.

Module Tech.

Definition Nginx := Technology (js "Nginx") (js "Web Server") 100.
Definition Apache := Technology (js "Apache") (js "Web Server") 100.
Definition Cloudflare := Technology (js "Cloudflare") (js "CDN") 100.
Definition NextJs := Technology (js "Next.js") (js "Framework") 95.
Definition React := Technology (js "React") (js "Library") 80.
Definition VueJs := Technology (js "Vue.js") (js "Framework") 80.
Definition Angular := Technology (js "Angular") (js "Framework") 80.
Definition Bootstrap := Technology (js "Bootstrap") (js "CSS Framework") 90.
Definition TailwindCSS :=
  Technology (js "Tailwind CSS") (js "CSS Framework") 90.
Definition GoogleAnalytics :=
  Technology (js "Google Analytics") (js "Analytics") 95.
Definition GoogleTagManager :=
  Technology (js "Google Tag Manager") (js "Analytics") 95.
Definition WordPress := Technology (js "WordPress") (js "CMS") 95.
Definition Shopify := Technology (js "Shopify") (js "E-commerce") 95.

(** The thirteen detection rules in the order the source tests them. *)
Definition rule_order : list technology :=
  [Nginx; Apache; Cloudflare; NextJs; React; VueJs; Angular; Bootstrap;
   TailwindCSS; GoogleAnalytics; GoogleTagManager; WordPress; Shopify].

(** [if (cond) technologies.push(t)] *)
Definition push_if (cond : bool) (t : technology)
    (technologies : list technology) : list technology :=
  if cond then technologies ++ [t] else technologies.

Definition has (html : jsstring) (s : string) : bool := includes html (js s).

Definition detectTechnologies (html : jsstring)
    (headers : gmap jsstring jsstring) : list technology :=
  let technologies := [] in
  (* Server detection *)
  let technologies :=
    match headers !! js "server" with
    | Some (c :: rest) =>
        let server := c :: rest in
        let technologies :=
          push_if (includes server (js "nginx")) Nginx technologies in
        let technologies :=
          push_if (includes server (js "Apache")) Apache technologies in
        push_if (includes server (js "cloudflare")) Cloudflare technologies
    | Some [] | None => technologies
    end in
  (* Framework detection *)
  let technologies :=
    push_if (has html "_next/static" || has html "__NEXT_DATA__")
            NextJs technologies in
  let technologies :=
    push_if (has html "react" || has html "React") React technologies in
  let technologies :=
    push_if (has html "vue" || has html "Vue") VueJs technologies in
  let technologies :=
    push_if (has html "angular" || has html "ng-") Angular technologies in
  (* CSS frameworks *)
  let technologies :=
    push_if (has html "bootstrap" || has html "Bootstrap")
            Bootstrap technologies in
  let technologies :=
    push_if (has html "tailwind" || has html "Tailwind")
            TailwindCSS technologies in
  (* Analytics *)
  let technologies :=
    push_if (has html "google-analytics" || has html "gtag")
            GoogleAnalytics technologies in
  let technologies :=
    push_if (has html "googletagmanager") GoogleTagManager technologies in
  (* CMS *)
  let technologies :=
    push_if (has html "wp-content" || has html "wordpress")
            WordPress technologies in
  push_if (has html "shopify") Shopify technologies.

End Tech.

(** ** Numbers

    A JavaScript number is an IEEE 754 binary64 value; [spec_float] with
    precision 53 and maximal exponent 1024 is the Standard Library's
    rendering of that format, and [SF64mul] its correctly rounded product
    (round to nearest, ties to even). *)

Abbreviation number := spec_float.

Definition Number_mul (x y : number) : number := SF64mul x y.

(** The number an integer literal or an integer-valued expression denotes
    (exactly so up to [2^53] in absolute value). *)
Definition Number_of_Z (z : Z) : number := binary_normalize prec emax z 0 false.

(** [Math.floor]: NaN, the infinities, the zeros and numbers without a
    fractional part are returned as they are. *)
Definition Math_floor (x : number) : number :=
  match x with
  | S754_finite s m e =>
      if 0 <=? e then x
      else Number_of_Z (cond_Zopp s (Z.pos m) / 2 ^ (- e))
  | _ => x
  end.

#[local] Set Warnings "-inexact-float".

(** The literals [0.3] and [0.8], rounded to binary64 as the parser of
    either language does. *)
Definition lit_0_3 : number := Eval vm_compute in Prim2SF 0.3%float.
Definition lit_0_8 : number := Eval vm_compute in Prim2SF 0.8%float.

#[local] Set Warnings "inexact-float".

(** ** [analyzePerformance] *)

Module Perf.

Definition is_lead (c : N) : bool := ((55296 <=? c) && (c <=? 56319))%N.
Definition is_trail (c : N) : bool := ((56320 <=? c) && (c <=? 57343))%N.

(** The code points of a string as a [Blob] part reads it: a surrogate pair
    is one code point, a lone surrogate becomes U+FFFD. *)
Fixpoint code_points (s : jsstring) : list N :=
  match s with
  | [] => []
  | c :: s' =>
      if is_lead c then
        match s' with
        | t :: s'' =>
            if is_trail t
            then (65536 + (c - 55296) * 1024 + (t - 56320))%N :: code_points s''
            else 65533%N :: code_points s'
        | [] => [65533%N]
        end
      else if is_trail c then 65533%N :: code_points s'
      else c :: code_points s'
  end.

(** UTF-8 bytes of one code point. *)
Definition utf8 (cp : N) : list N :=
  (if cp <? 128 then [cp]
   else if cp <? 2048 then [192 + cp / 64; 128 + cp mod 64]
   else if cp <? 65536 then
     [224 + cp / 4096; 128 + (cp / 64) mod 64; 128 + cp mod 64]
   else
     [240 + cp / 262144; 128 + (cp / 4096) mod 64;
      128 + (cp / 64) mod 64; 128 + cp mod 64])%N.

Definition utf8_encode (s : jsstring) : list N :=
  flat_map utf8 (code_points s).

(** [new Blob([s]).size] *)
Definition Blob_size (s : jsstring) : nat := length (utf8_encode s).

Record metrics : Type := Metrics {
  ttfb : number;
  domContentLoaded : number;
  pageSize : nat;
  resourceCount : nat
}.

Definition analyzePerformance (html : jsstring)
    (headers : gmap jsstring jsstring) (loadTime : number) : metrics :=
  let pageSize := Blob_size html in
  let resourceCount := length (match_all re_resource html) in
  {| ttfb := Math_floor (Number_mul loadTime lit_0_3);
     domContentLoaded := Math_floor (Number_mul loadTime lit_0_8);
     pageSize := pageSize;
     resourceCount := resourceCount |}.

End Perf.

(** ** Bulk analysis jobs

    The table [bulkAnalysisJobs] and the two mutations that write it.  The
    schema declares [status] as a string, with the comment
    ["pending", "running", "completed", "failed"]. *)

Module Bulk.

Record result : Type := Result {
  url : jsstring;
  success : bool;
  analysisId : option nat;
  error : option jsstring
}.

Record job : Type := Job {
  userId : nat;
  urls : list jsstring;
  status : jsstring;
  results : option (list result);
  createdAt : Z;
  completedAt : option Z
}.

(** [ctx.db.insert("bulkAnalysisJobs", ...)] stores the document under an
    identifier the table does not use yet and returns that identifier. *)
Definition createBulkJob (db : gmap nat job) (user : nat)
    (us : list jsstring) (now : Z) : nat * gmap nat job :=
  let id := fresh (dom db) in
  (id,
   <[id := {| userId := user; urls := us; status := js "pending";
              results := None; createdAt := now; completedAt := None |}]> db).

(** [ctx.db.patch(jobId, ...)] overwrites the three fields of an existing
    document and throws when there is none. *)
Definition updateBulkJob (db : gmap nat job) (jobId : nat)
    (rs : list result) (now : Z) : option (gmap nat job) :=
  match db !! jobId with
  | Some j =>
      Some (<[jobId := {| userId := userId j; urls := urls j;
                          status := js "completed";
                          results := Some rs;
                          createdAt := createdAt j;
                          completedAt := Some now |}]> db)
  | None => None
  end.

(** Calls of the two mutations, by the action below or by any client. *)
Inductive mutation : Type :=
| CreateBulkJob (user : nat) (us : list jsstring) (now : Z)
| UpdateBulkJob (jobId : nat) (rs : list result) (now : Z).

(** A mutation that throws commits nothing. *)
Definition run_mutation (db : gmap nat job) (m : mutation) : gmap nat job :=
  match m with
  | CreateBulkJob user us now => snd (createBulkJob db user us now)
  | UpdateBulkJob jobId rs now =>
      match updateBulkJob db jobId rs now with
      | Some db' => db'
      | None => db
      end
  end.

Definition run_mutations (db : gmap nat job) (ms : list mutation)
    : gmap nat job :=
  fold_left run_mutation ms db.

(** The statuses a job shows in the successive states of the table. *)
Definition status_history (jobId : nat) (trace : list (gmap nat job))
    : list (option jsstring) :=
  map (fun db => status <$> db !! jobId) trace.

Section Action.

(** Everything the action touches besides the job table: the network, the
    table of analyses and the clock. *)
Variable world : Type.

(** The body of the [try] block for one URL, [analyzeSite] followed by
    [getByDomain]: either the identifier of the stored analysis (if any)
    or the message of the error that was caught. *)
Variable attempt : world -> jsstring -> world * (jsstring + option nat).

Variable clock : world -> Z.

Definition outcome (u : jsstring) (out : jsstring + option nat) : result :=
  match out with
  | inr id =>
      {| url := u; success := true; analysisId := id; error := None |}
  | inl message =>
      {| url := u; success := false; analysisId := None;
         error := Some message |}
  end.

(** The [for] loop over [args.urls]. *)
Fixpoint process (w : world) (us : list jsstring) : world * list result :=
  match us with
  | [] => (w, [])
  | u :: rest =>
      let (w1, out) := attempt w u in
      let (w2, rs) := process w1 rest in
      (w2, outcome u out :: rs)
  end.

Record run : Type := Run {
  jobId : nat;
  returned : list result;
  trace : list (gmap nat job)
}.

(** [bulkAnalyzeSites]: [None] is the thrown error; [trace] lists the
    states of the job table after each mutation the action ran. *)
Definition bulkAnalyzeSites (auth : option nat) (w : world)
    (db : gmap nat job) (us : list jsstring) : option run :=
  match auth with
  | None => None
  | Some user =>
      let (id, db1) := createBulkJob db user us (clock w) in
      let (w', rs) := process w us in
      match updateBulkJob db1 id rs (clock w') with
      | Some db2 =>
          Some {| jobId := id; returned := rs; trace := [db1; db2] |}
      | None => None
      end
  end.

End Action.

End Bulk.

(** ** Vocabulary of the statements below *)

(** ASCII case folding, as used when header names are compared without
    regard to case. *)
Definition ascii_lowercase (c : N) : N :=
  if ((65 <=? c) && (c <=? 90))%N then (c + 32)%N else c.

Definition eq_ignore_case (a b : jsstring) : Prop :=
  map ascii_lowercase a = map ascii_lowercase b.

(** A header map as [Headers.forEach] hands it over: every name in lower
    case. *)
Definition lower_cased (headers : gmap jsstring jsstring) : Prop :=
  forall k, is_Some (headers !! k) -> map ascii_lowercase k = k.

Definition repeat_string (n : nat) (s : jsstring) : jsstring :=
  concat (repeat s n).

(** The security headers whose lookup is falsy, in checking order. *)
Definition missing_headers (headers : gmap jsstring jsstring)
    : list jsstring :=
  List.filter (fun h => negb (truthy (headers !! h))) Security.securityHeaders.

(** The recommendation each check of [analyzeSecurityHeaders] pushes next
    to its issue. *)
Inductive security_pair : jsstring -> jsstring -> Prop :=
| pair_missing (h : jsstring) :
    In h Security.securityHeaders ->
    security_pair (Security.missing_issue h)
                  (Security.missing_recommendation h)
| pair_powered_by :
    security_pair Security.powered_by_issue
                  Security.powered_by_recommendation.

(** The recommendation each check of [analyzeSEO] pushes next to its
    issue. *)
Inductive seo_pair : jsstring -> jsstring -> Prop :=
| pair_title :
    seo_pair (js "Missing page title") (js "Add a descriptive page title")
| pair_description :
    seo_pair (js "Missing meta description")
             (js "Add a meta description for better search results")
| pair_h1 :
    seo_pair (js "Missing H1 tag")
             (js "Add an H1 tag for better content structure")
| pair_viewport :
    seo_pair (js "Missing viewport meta tag")
             (js "Add viewport meta tag for mobile responsiveness")
| pair_images (n : nat) :
    seo_pair (Number_toString n ++ js " images missing alt attributes")
             (js "Add alt attributes to all images for accessibility").

(** Points the first four checks of [analyzeSEO] take off. *)
Definition head_penalty (html : jsstring) : Z :=
  (if test re_title html then 0 else 20)
  + (if test re_description html then 0 else 15)
  + (if test re_h1 html then 0 else 10)
  + (if test re_viewport html then 0 else 15).

(** Points the image check takes off for [n] images without [alt=]. *)
Definition alt_penalty (n : nat) : Z :=
  if (0 <? n)%nat then Z.min 20 (Z.of_nat n * 2) else 0.

(** What the [headers.server] block pushes. *)
Definition server_technologies (headers : gmap jsstring jsstring)
    : list technology :=
  match headers !! js "server" with
  | Some (c :: rest) =>
      (if includes (c :: rest) (js "nginx") then [Tech.Nginx] else [])
      ++ (if includes (c :: rest) (js "Apache") then [Tech.Apache] else [])
      ++ (if includes (c :: rest) (js "cloudflare")
          then [Tech.Cloudflare] else [])
  | Some [] | None => []
  end.

(** Literal occurrences of the three resource tags. *)
Definition resource_tags (html : jsstring) : nat :=
  (occurrences (js "<script") html + occurrences (js "<link") html
   + occurrences (js "<img") html)%nat.

(** Where the resource pattern matches and how long the match is. *)
Definition resource_match (s : jsstring) : option nat :=
  if starts_with (js "<script") s then Some 7%nat
  else if starts_with (js "<link") s then Some 5%nat
  else if starts_with (js "<img") s then Some 4%nat
  else None.

(** Resource tags starting at the first code unit. *)
Definition tag_here (s : jsstring) : nat :=
  ((if starts_with (js "<script") s then 1 else 0)
   + (if starts_with (js "<link") s then 1 else 0)
   + (if starts_with (js "<img") s then 1 else 0))%nat.

(** The statuses the two mutations write. *)
Definition written_status (s : jsstring) : Prop :=
  s = js "pending" \/ s = js "completed".

Definition statuses_written (db : gmap nat Bulk.job) : Prop :=
  forall id j, db !! id = Some j -> written_status (Bulk.status j).

(** ** [String.prototype.trim]

    White space and line terminators of the language: TAB, LF, VT, FF, CR,
    SP, NBSP, U+1680, U+2000 to U+200A, U+2028, U+2029, U+202F, U+205F,
    U+3000 and U+FEFF.  All of them are single code units. *)

Definition is_white_space (c : N) : bool :=
  existsb (N.eqb c)
    [9; 10; 11; 12; 13; 32; 160; 5760; 8232; 8233; 8239; 8287; 12288; 65279]%N
  || ((8192 <=? c) && (c <=? 8202))%N.

Fixpoint trimStart (s : jsstring) : jsstring :=
  match s with
  | c :: s' => if is_white_space c then trimStart s' else s
  | [] => []
  end.

Definition trimEnd (s : jsstring) : jsstring := rev (trimStart (rev s)).

Definition trim (s : jsstring) : jsstring := trimEnd (trimStart s).

(** ** [analyzeSite]: the URL and the extracted texts *)

Module Site.

(** The first lines of the handler: trim, then prefix the scheme unless one
    of the two is there already. *)
Definition normalizeUrl (url : jsstring) : jsstring :=
  let normalizedUrl := trim url in
  if negb (starts_with (js "http://") normalizedUrl)
     && negb (starts_with (js "https://") normalizedUrl)
  then js "https://" ++ normalizedUrl
  else normalizedUrl.

End Site.

(** ** [analyzeSite]: the texts taken from the page *)

(** The text of a capture group: what lies between the input left when the
    group was entered and the input left when it was closed. *)
Definition capture (entered closed : jsstring) : jsstring :=
  firstn (length entered - length closed) entered.

(** The first index at which [f] matches, from left to right. *)
Fixpoint search {A} (f : jsstring -> option A) (s : jsstring) : option A :=
  match f s with
  | Some x => Some x
  | None =>
      match s with
      | [] => None
      | _ :: s' => search f s'
      end
  end.

(** [html.match(/<title[^>]*>([^<]+)<\/title>/i)], group 1. *)
Definition titleMatch (html : jsstring) : option jsstring :=
  search
    (exec (cat [text true "<title"; Star (none_of true ">"); text true ">"])
       (fun entered =>
          exec (Plus (none_of true "<"))
            (fun closed =>
               exec (text true "</title>")
                 (fun _ => Some (capture entered closed)) closed)
            entered))
    html.

(** [titleMatch ? titleMatch[1].trim() : undefined] *)
Definition title_of (html : jsstring) : option jsstring :=
  trim <$> titleMatch html.

(** The description pattern of the handler, group 1:
    [/<meta[^>]*name=Q description Q[^>]*content=Q([^Q]+)Q/i], where [Q]
    stands for the class of the two quote characters (written without
    spaces in the source). *)
Definition descMatch (html : jsstring) : option jsstring :=
  search
    (exec (cat [text true "<meta"; Star (none_of true ">"); text true "name=";
                Unit (one_of true quote); text true "description";
                Unit (one_of true quote); Star (none_of true ">");
                text true "content="; Unit (one_of true quote)])
       (fun entered =>
          exec (Plus (none_of true quote))
            (fun closed =>
               exec (Unit (one_of true quote))
                 (fun _ => Some (capture entered closed)) closed)
            entered))
    html.

Definition description_of (html : jsstring) : option jsstring :=
  trim <$> descMatch html.

(** [existing.searchCount + 1] is a binary64 sum. *)
Definition Number_add (x y : number) : number := SF64add x y.

(** ** The table [siteAnalyses] and the handler of [analyzeSite] *)

Module Store.

(** What [analyzeSite] computes for a page, the domain apart: the arguments
    of [updateAnalysis] without [id]. *)
Record fields : Type := Fields {
  url : jsstring;
  title : option jsstring;
  description : option jsstring;
  technologies : list technology;
  headers : gmap jsstring jsstring;
  statusCode : Z;
  loadTime : number;
  performanceMetrics : Perf.metrics;
  securityScore : report;
  seoScore : report
}.

Record document : Type := Document {
  domain : jsstring;
  content : fields;
  searchCount : number;
  lastAnalyzed : Z
}.

(** The table is the list of its documents in creation order; the
    identifier of a document is its position.  No function of the source
    deletes from this table.  The limits of the platform (the size of a
    document, the validation of the arguments) are not modelled. *)

(** [.withIndex("by_domain", q => q.eq("domain", d)).first()]: the oldest
    document of that domain, with its identifier. *)
Fixpoint first_with_domain (d : jsstring) (id : nat) (table : list document)
    : option (nat * document) :=
  match table with
  | [] => None
  | doc :: rest =>
      if decide (domain doc = d) then Some (id, doc)
      else first_with_domain d (S id) rest
  end.

Definition getByDomain (table : list document) (d : jsstring)
    : option (nat * document) :=
  first_with_domain d 0 table.

(** [createAnalysis]: insert with [searchCount: 1]. *)
Definition createAnalysis (table : list document) (d : jsstring)
    (args : fields) (now : Z) : nat * list document :=
  (length table,
   table ++ [{| domain := d; content := args;
                searchCount := Number_of_Z 1; lastAnalyzed := now |}]).

(** [{ ...updates }] over the stored fields.  [ctx.db.patch] merges
    shallowly: a field the update does not carry keeps its stored value.
    [title] and [description] are [undefined] when [analyzeSite] extracted
    nothing, and an [undefined] field is not among the arguments the
    mutation receives, so the stored title or description stays.  Every
    other field is always part of the update. *)
Definition patch_fields (existing updates : fields) : fields :=
  {| url := url updates;
     title :=
       match title updates with
       | Some t => Some t
       | None => title existing
       end;
     description :=
       match description updates with
       | Some t => Some t
       | None => description existing
       end;
     technologies := technologies updates;
     headers := headers updates;
     statusCode := statusCode updates;
     loadTime := loadTime updates;
     performanceMetrics := performanceMetrics updates;
     securityScore := securityScore updates;
     seoScore := seoScore updates |}.

(** [updateAnalysis]: throws "Analysis not found" when the document does not
    exist, else patches the document with the fields of the update, leaves
    the domain as it is and adds one to the counter. *)
Definition updateAnalysis (table : list document) (id : nat)
    (updates : fields) (now : Z) : option (list document) :=
  match table !! id with
  | None => None
  | Some existing =>
      Some (<[id := {| domain := domain existing;
                       content := patch_fields (content existing) updates;
                       searchCount :=
                         Number_add (searchCount existing) (Number_of_Z 1);
                       lastAnalyzed := now |}]> table)
  end.

(** "Save or update analysis": the last step of the handler.  The handler
    asks with [getByDomain] and then writes in a mutation of its own; [save]
    takes the two together, so it describes handlers that run one after the
    other, with no other write between the lookup and the mutation. *)
Definition save (table : list document) (d : jsstring) (result : fields)
    (now : Z) : option (list document) :=
  match getByDomain table d with
  | Some (id, _) => updateAnalysis table id result now
  | None => Some (snd (createAnalysis table d result now))
  end.

Record response : Type := Response {
  status : Z;
  text : jsstring;
  response_headers : gmap jsstring jsstring
}.

(** The synchronous part of the handler: what is derived from the fetched
    page. *)
Definition derive (normalizedUrl : jsstring) (r : response)
    (elapsed : number) : fields :=
  let html := text r in
  let hs := response_headers r in
  {| url := normalizedUrl;
     title := title_of html;
     description := description_of html;
     technologies := Tech.detectTechnologies html hs;
     headers := hs;
     statusCode := status r;
     loadTime := elapsed;
     performanceMetrics := Perf.analyzePerformance html hs elapsed;
     securityScore := Security.analyzeSecurityHeaders hs;
     seoScore := SEO.analyzeSEO html |}.

Definition failure (message : jsstring) : jsstring :=
  js "Failed to analyze site: " ++ message.

Section Handler.

(** The network and the clock. *)
Variable world : Type.

(** [new URL(u).hostname], or the message of the error it throws. *)
Variable hostname : jsstring -> jsstring + jsstring.

(** [fetch] followed by [response.text()] and the copy of the headers, or
    the message of the error thrown on the way. *)
Variable fetch : world -> jsstring -> world * (jsstring + response).

(** [Date.now()] in the action, and later inside the mutation. *)
Variable clock : world -> Z.
Variable commit_clock : world -> Z.

(** [analyzeSite]: the world and the table after the call, and either the
    message of the error thrown ([inl]) or the domain and the fields
    returned ([inr]).  An error of [updateAnalysis] is caught like any
    other; its text is taken as the mutation throws it. *)
Definition analyzeSite (w : world) (table : list document)
    (arg : jsstring)
    : world * list document * (jsstring + jsstring * fields) :=
  let startTime := clock w in
  let normalizedUrl := Site.normalizeUrl arg in
  match hostname normalizedUrl with
  | inl message => (w, table, inl (failure message))
  | inr d =>
      let (w1, fetched) := fetch w normalizedUrl in
      match fetched with
      | inl message => (w1, table, inl (failure message))
      | inr r =>
          let elapsed := Number_of_Z (clock w1 - startTime) in
          let result := derive normalizedUrl r elapsed in
          match save table d result (commit_clock w1) with
          | Some table' => (w1, table', inr (d, result))
          | None => (w1, table, inl (failure (js "Analysis not found")))
          end
      end
  end.

(** The body of the [try] block of [bulkAnalyzeSites] for one URL:
    [analyzeSite], then [getByDomain] for the identifier of the record. *)
Definition attempt (state : world * list document) (u : jsstring)
    : world * list document * (jsstring + option nat) :=
  let '(w, table) := state in
  let '(w1, table1, out) := analyzeSite w table u in
  match out with
  | inl message => (w1, table1, inl message)
  | inr (d, _) => (w1, table1, inr (fst <$> getByDomain table1 d))
  end.

End Handler.

End Store.


(** The save steps of a run of analyses, one after the other. *)
Fixpoint run_saves (table : list Store.document)
    (steps : list (jsstring * Store.fields * Z))
    : option (list Store.document) :=
  match steps with
  | [] => Some table
  | (d, r, now) :: rest =>
      match Store.save table d r now with
      | Some table' => run_saves table' rest
      | None => None
      end
  end.

(** How many of the steps are for the domain [d]. *)
Definition analyses_of (d : jsstring)
    (steps : list (jsstring * Store.fields * Z)) : nat :=
  length (List.filter (fun s => bool_decide (fst (fst s) = d)) steps).

(** What a stored record holds after a patch with the fields [new]: the
    title and the description of the update where it has one, the stored
    one where it has none; every other field is the one of the update. *)
Definition patched (old new stored : Store.fields) : Prop :=
  (forall t, Store.title new = Some t -> Store.title stored = Some t) /\
  (Store.title new = None -> Store.title stored = Store.title old) /\
  (forall t, Store.description new = Some t ->
             Store.description stored = Some t) /\
  (Store.description new = None ->
   Store.description stored = Store.description old) /\
  Store.url stored = Store.url new /\
  Store.technologies stored = Store.technologies new /\
  Store.headers stored = Store.headers new /\
  Store.statusCode stored = Store.statusCode new /\
  Store.loadTime stored = Store.loadTime new /\
  Store.performanceMetrics stored = Store.performanceMetrics new /\
  Store.securityScore stored = Store.securityScore new /\
  Store.seoScore stored = Store.seoScore new.

(** Every stored counter is the number of steps taken for its domain. *)
Definition counters_exact (table : list Store.document)
    (done : list (jsstring * Store.fields * Z)) : Prop :=
  List.NoDup (map Store.domain table) /\
  forall d,
    match Store.getByDomain table d with
    | Some (_, doc) =>
        (1 <= analyses_of d done)%nat /\
        Store.searchCount doc = Number_of_Z (Z.of_nat (analyses_of d done))
    | None => analyses_of d done = 0%nat
    end.

(** A result of the bulk loop is a success without an error text, or a
    failure with its error text and no analysis. *)
Definition result_well_formed (r : Bulk.result) : Prop :=
  (Bulk.success r = true /\ Bulk.error r = None) \/
  (Bulk.success r = false /\ Bulk.analysisId r = None /\
   is_Some (Bulk.error r)).

(** ** Helpers of the components *)

Module UI.

(** [getScoreColor] of [SiteAnalyzer.tsx]. *)
Definition getScoreColor (score : Z) : jsstring :=
  if 80 <=? score then js "text-green-600 dark:text-green-400"
  else if 60 <=? score then js "text-yellow-600 dark:text-yellow-400"
  else js "text-red-600 dark:text-red-400".

(** [s.split('\n')]: the pieces between the line feeds, the empty ones
    included. *)
Fixpoint split_lines (s : jsstring) : list jsstring :=
  match s with
  | [] => [[]]
  | c :: s' =>
      if (c =? 10)%N then [] :: split_lines s'
      else
        match split_lines s' with
        | line :: lines => (c :: line) :: lines
        | [] => [[c]]
        end
  end.

(** [filter(Boolean)] on strings keeps the non-empty ones. *)
Definition non_empty (s : jsstring) : bool :=
  match s with [] => false | _ :: _ => true end.

(** The first line of [handleBulkAnalyze]:
    [bulkUrls.split('\n').map(u => u.trim()).filter(Boolean)]. *)
Definition bulk_urls (bulkUrls : jsstring) : list jsstring :=
  List.filter non_empty (map trim (split_lines bulkUrls)).

(** The updater of [toggleSiteSelection] in [SiteComparison.tsx]. *)
Definition toggleSiteSelection (prev : list jsstring) (siteId : jsstring)
    : list jsstring :=
  if existsb (fun id => bool_decide (id = siteId)) prev
  then List.filter (fun id => negb (bool_decide (id = siteId))) prev
  else prev ++ [siteId].

End UI.

(** [lines.join('\n')]: the pieces with a line feed between two of them. *)
Fixpoint join_lines (lines : list jsstring) : jsstring :=
  match lines with
  | [] => []
  | [line] => line
  | line :: rest => line ++ 10%N :: join_lines rest
  end.

(** ** [makeApiRequest] of [apiPlayground.ts] *)

Module Api.

Record response : Type := Response {
  status : Z;
  headers : gmap jsstring jsstring;
  body : jsstring;
  time : Z
}.

(** The [RequestInit] handed to [fetch]. *)
Record request_init : Type := RequestInit {
  init_method : jsstring;
  init_headers : gmap jsstring jsstring;
  init_body : option jsstring
}.

(** A document of the table [apiRequests]. *)
Record request : Type := Request {
  userId : option nat;
  method : jsstring;
  url : jsstring;
  request_headers : option (gmap jsstring jsstring);
  request_body : option jsstring;
  saved : response;
  timestamp : Z
}.

(** [{ 'User-Agent': 'API-Playground/1.0', ...args.headers }]: the entries
    of [args.headers] win. *)
Definition merged_headers (hs : option (gmap jsstring jsstring))
    : gmap jsstring jsstring :=
  default ∅ hs ∪ {[ js "User-Agent" := js "API-Playground/1.0" ]}.

(** [args.body && ['POST', 'PUT', 'PATCH'].includes(args.method)] *)
Definition sends_body (m : jsstring) (b : option jsstring) : bool :=
  match b with
  | Some (_ :: _) =>
      existsb (fun x => bool_decide (x = m)) [js "POST"; js "PUT"; js "PATCH"]
  | Some [] | None => false
  end.

Definition requestOptions (m : jsstring)
    (hs : option (gmap jsstring jsstring)) (b : option jsstring)
    : request_init :=
  {| init_method := m;
     init_headers := merged_headers hs;
     init_body := if sends_body m b then b else None |}.

Section Action.

Variable world : Type.

(** [fetch] followed by [response.text()]: the status, the headers and the
    text, or the message of the error thrown on the way. *)
Variable fetch :
  world -> jsstring -> request_init ->
  world * (jsstring + Z * gmap jsstring jsstring * jsstring).

(** [Date.now()] in the action, and later inside [saveRequest]. *)
Variable clock : world -> Z.
Variable commit_clock : world -> Z.

(** [saveRequest]: one more document, with the time of the insertion.  The
    insertion itself is taken to succeed. *)
Definition saveRequest (table : list request) (user : option nat)
    (m u : jsstring) (hs : option (gmap jsstring jsstring))
    (b : option jsstring) (r : response) (now : Z) : list request :=
  table ++ [{| userId := user; method := m; url := u; request_headers := hs;
               request_body := b; saved := r; timestamp := now |}].

Definition makeApiRequest (user : option nat) (w : world)
    (table : list request) (m u : jsstring)
    (hs : option (gmap jsstring jsstring)) (b : option jsstring)
    : world * list request * response :=
  let startTime := clock w in
  let (w1, fetched) := fetch w u (requestOptions m hs b) in
  let result :=
    match fetched with
    | inr (st, responseHeaders, responseText) =>
        {| status := st; headers := responseHeaders; body := responseText;
           time := clock w1 - startTime |}
    | inl message =>
        {| status := 0; headers := ∅; body := js "Error: " ++ message;
           time := clock w1 - startTime |}
    end in
  (w1, saveRequest table user m u hs b result (commit_clock w1), result).

End Action.

End Api.

(** [getStatusColor] of the playground component. *)
Definition getStatusColor (status : Z) : jsstring :=
  if (200 <=? status) && (status <? 300)
  then js "text-green-600 dark:text-green-400"
  else if (300 <=? status) && (status <? 400)
  then js "text-yellow-600 dark:text-yellow-400"
  else if 400 <=? status then js "text-red-600 dark:text-red-400"
  else js "text-gray-600 dark:text-gray-400".

(** ** The image check in the words of the spec

    Spec 4.4, check 5: "Scan all <img ...> tag occurrences; count those
    lacking an alt= attribute substring", the occurrences being found by
    pattern matching and not by parsing.  The definitions below follow these
    words, not the regular expression of the source: an occurrence starts
    where the text reads <img and runs through the first > behind it, and
    the scan goes on behind the occurrence.  [ignore_case] says whether
    <IMG, <Img and the like start an occurrence too, as the spec has it for
    the tag patterns of the SEO check. *)

(** The text through the first > of [s], if there is one. *)
Fixpoint through_gt (s : jsstring) : option jsstring :=
  match s with
  | [] => None
  | c :: s' =>
      if (c =? 62)%N then Some [c]
      else
        match through_gt s' with
        | Some t => Some (c :: t)
        | None => None
        end
  end.

(** The img tag that starts at the head of [s], if one does. *)
Definition img_tag_here (ignore_case : bool) (s : jsstring)
    : option jsstring :=
  let opening := firstn 4 s in
  if bool_decide
       ((if ignore_case then map ascii_lowercase opening else opening)
        = js "<img")
  then
    match through_gt (skipn 4 s) with
    | Some t => Some (opening ++ t)
    | None => None
    end
  else None.

(** The img tags of [s] from left to right; [inside] counts the code units
    that still belong to the tag found last. *)
Fixpoint img_tags_from (ignore_case : bool) (inside : nat) (s : jsstring)
    : list jsstring :=
  match s with
  | [] => []
  | _ :: s' =>
      match inside with
      | S n => img_tags_from ignore_case n s'
      | O =>
          match img_tag_here ignore_case s with
          | Some tag => tag :: img_tags_from ignore_case (length tag - 1) s'
          | None => img_tags_from ignore_case 0 s'
          end
      end
  end.

Definition img_tags (ignore_case : bool) (s : jsstring) : list jsstring :=
  img_tags_from ignore_case 0 s.

(** [p] stands in [s] at position [i]. *)
Definition occurs_at (p s : jsstring) (i : nat) : bool :=
  bool_decide (firstn (length p) (skipn i s) = p).

(** The tag holds alt= at none of its positions. *)
Definition lacks_alt (tag : jsstring) : bool :=
  negb (existsb (occurs_at (js "alt=") tag) (seq 0 (S (length tag)))).

(** The count of the spec and the penalty it asks for. *)
Definition images_lacking_alt (ignore_case : bool) (html : jsstring) : nat :=
  length (List.filter lacks_alt (img_tags ignore_case html)).

Definition spec_alt_penalty (n : nat) : Z :=
  if (0 <? n)%nat then Z.min 20 (2 * Z.of_nat n) else 0.

(** A page to instantiate the statements on the table with. *)
Definition sample_fields : Store.fields :=
  Store.derive (js "https://a.io")
    (Store.Response 200 (js "<title>A</title>") ∅) (Number_of_Z 12).

(** The same site, later, serving a page without a title. *)
Definition untitled_fields : Store.fields :=
  Store.derive (js "https://a.io")
    (Store.Response 200 (js "<p>moved</p>") ∅) (Number_of_Z 7).

(** * Worked examples *)

(** The matcher on markup the patterns accept and reject: an empty title
    and a title with a nested tag do not match, attributes and upper case
    do; the image and resource patterns are case sensitive. *)
Example regex_behaviour :
  map (test re_title)
      [js "<title></title>"; js "<title>a<b</title>";
       js "<TiTle lang=en>x</TITLE>"; js "<title><title>x</title>"]
  = [false; false; true; true]
  /\ map (test re_description)
       [js "<meta content='x' NAME='Description'>";
        js "<meta content='x'> name='description'"]
     = [true; false]
  /\ map (test re_h1) [js "<H1>"; js "<h1"; js "<h12>"] = [true; false; true]
  /\ match_all re_img (js "<img a><IMG b><imgx><img alt=''><img")
     = [js "<img a>"; js "<imgx>"; js "<img alt=''>"]
  /\ match_all re_resource (js "<script<link<<img<scrip<LINK")
     = [js "<script"; js "<link"; js "<img"].
Proof. vm_compute. repeat split. Qed.

Example seo_empty : SEO.analyzeSEO [] =
  Report 40
    [js "Missing page title"; js "Missing meta description";
     js "Missing H1 tag"; js "Missing viewport meta tag"]
    [js "Add a descriptive page title";
     js "Add a meta description for better search results";
     js "Add an H1 tag for better content structure";
     js "Add viewport meta tag for mobile responsiveness"].
Proof. vm_compute. reflexivity. Qed.

Example seo_full_page :
  SEO.analyzeSEO
    (js "<html><head><TITLE>Hi</TITLE><meta charset='x' name='description' content='d'><meta name='viewport'></head><h1 class='a'>T</h1><img src='a' alt='x'><img src='b'></html>")
  = Report 98 [js "1 images missing alt attributes"]
      [js "Add alt attributes to all images for accessibility"].
Proof. vm_compute. reflexivity. Qed.

Example seo_fifteen_images :
  score (SEO.analyzeSEO (repeat_string 15 (js "<img src='a.png'>"))) = 20
  /\ length (SEO.imagesWithoutAlt (repeat_string 15 (js "<img src='a.png'>"))) = 15%nat.
Proof. vm_compute. split; reflexivity. Qed.

Example security_no_headers :
  Security.analyzeSecurityHeaders ∅ =
  Report 10
    (map Security.missing_issue Security.securityHeaders)
    (map Security.missing_recommendation Security.securityHeaders).
Proof. vm_compute. reflexivity. Qed.

Example security_all_flagged :
  Security.analyzeSecurityHeaders {[ js "x-powered-by" := js "Express" ]} =
  Report 0
    (map Security.missing_issue Security.securityHeaders
     ++ [Security.powered_by_issue])
    (map Security.missing_recommendation Security.securityHeaders
     ++ [Security.powered_by_recommendation]).
Proof. vm_compute. reflexivity. Qed.

Example security_mixed_case_key :
  Security.analyzeSecurityHeaders
    {[ js "Strict-Transport-Security" := js "max-age=31536000" ]}
  = Security.analyzeSecurityHeaders ∅.
Proof. vm_compute. reflexivity. Qed.

Example tech_nginx :
  Tech.detectTechnologies [] {[ js "server" := js "nginx/1.18" ]}
  = [Tech.Nginx].
Proof. vm_compute. reflexivity. Qed.

Example tech_react_tailwind :
  Tech.detectTechnologies (js "<div class='tailwind'>react</div>") ∅
  = [Tech.React; Tech.TailwindCSS].
Proof. vm_compute. reflexivity. Qed.

Example perf_one_second :
  Perf.analyzePerformance
    (js "<script src=a></script><link rel=x><img><IMG>") ∅ (Number_of_Z 1000)
  = Perf.Metrics (Number_of_Z 300) (Number_of_Z 800) 45 3.
Proof. vm_compute. reflexivity. Qed.

(** U+00E9 takes two bytes, the pair D83D DE00 (U+1F600) four, a lone
    surrogate three (it is replaced by U+FFFD). *)
Example blob_size_non_ascii :
  Perf.Blob_size [233; 55357; 56832; 56832]%N = 9%nat.
Proof. vm_compute. reflexivity. Qed.

#[local] Set Warnings "-inexact-float".

(** The model of the product agrees with the hardware operation. *)
Example mul_agrees_with_hardware :
  Prim2SF (1000 * 0.3)%float = Number_mul (Number_of_Z 1000) lit_0_3
  /\ Prim2SF (1688851274504966 * 0.8)%float
     = Number_mul (Number_of_Z 1688851274504966) lit_0_8.
Proof. vm_compute. split; reflexivity. Qed.

#[local] Set Warnings "inexact-float".

(** * Security headers *)

Section SecurityFacts.

Variable headers : gmap jsstring jsstring.

Let absent (h : jsstring) : bool := negb (truthy (headers !! h)).

(** What the [forEach] loop leaves behind, for any list of names. *)
Lemma fold_check_header (hs : list jsstring) (st : report) :
  fold_left (Security.check_header headers) hs st =
  {| score := score st - 15 * Z.of_nat (length (List.filter absent hs));
     issues := issues st ++ map Security.missing_issue (List.filter absent hs);
     recommendations :=
       recommendations st
       ++ map Security.missing_recommendation (List.filter absent hs) |}.
Proof.
  revert st. induction hs as [| h hs IH]; intros st.
  - cbn. rewrite Z.sub_0_r, !app_nil_r. destruct st; reflexivity.
  - cbn [fold_left List.filter]. rewrite IH.
    unfold Security.check_header. fold (absent h).
    destruct (absent h); cbn [score issues recommendations map length].
    + rewrite <- !app_assoc. f_equal. lia.
    + reflexivity.
Qed.

Lemma security_checks_eq :
  Security.checks headers =
  let flagged := truthy (headers !! js "x-powered-by") in
  {| score := 100 - 15 * Z.of_nat (length (missing_headers headers))
              - (if flagged then 10 else 0);
     issues := map Security.missing_issue (missing_headers headers)
               ++ (if flagged then [Security.powered_by_issue] else []);
     recommendations :=
       map Security.missing_recommendation (missing_headers headers)
       ++ (if flagged then [Security.powered_by_recommendation] else []) |}.
Proof.
  unfold Security.checks. rewrite fold_check_header.
  unfold Security.check_powered_by, Security.start. fold absent.
  change (List.filter absent Security.securityHeaders)
    with (missing_headers headers).
  cbn [score issues recommendations app].
  destruct (truthy (headers !! js "x-powered-by")); cbn zeta.
  - reflexivity.
  - rewrite Z.sub_0_r, !app_nil_r. reflexivity.
Qed.

Lemma missing_headers_bound :
  (length (missing_headers headers) <= 6)%nat.
Proof.
  unfold missing_headers.
  etransitivity; [apply List.filter_length_le | reflexivity].
Qed.

(** The clamp of the security score never binds. *)
Lemma security_score_eq :
  score (Security.analyzeSecurityHeaders headers) =
  100 - 15 * Z.of_nat (length (missing_headers headers))
  - (if truthy (headers !! js "x-powered-by") then 10 else 0).
Proof.
  unfold Security.analyzeSecurityHeaders. cbn [score].
  rewrite security_checks_eq. cbn [score].
  pose proof missing_headers_bound.
  destruct (truthy (headers !! js "x-powered-by")); lia.
Qed.

Lemma security_issues_eq :
  issues (Security.analyzeSecurityHeaders headers) =
  map Security.missing_issue (missing_headers headers)
  ++ (if truthy (headers !! js "x-powered-by")
      then [Security.powered_by_issue] else []).
Proof.
  unfold Security.analyzeSecurityHeaders. cbn [issues].
  rewrite security_checks_eq. reflexivity.
Qed.

Lemma security_recommendations_eq :
  recommendations (Security.analyzeSecurityHeaders headers) =
  map Security.missing_recommendation (missing_headers headers)
  ++ (if truthy (headers !! js "x-powered-by")
      then [Security.powered_by_recommendation] else []).
Proof.
  unfold Security.analyzeSecurityHeaders. cbn [recommendations].
  rewrite security_checks_eq. reflexivity.
Qed.

Lemma in_missing_headers (h : jsstring) :
  In h (missing_headers headers) <->
  In h Security.securityHeaders /\ truthy (headers !! h) = false.
Proof.
  unfold missing_headers. rewrite List.filter_In, negb_true_iff. tauto.
Qed.

End SecurityFacts.

Lemma truthy_false (v : option jsstring) :
  truthy v = false <-> v = None \/ v = Some [].
Proof.
  destruct v as [[| c s] |]; cbn; split; intros H; try tauto; try discriminate.
  - destruct H as [H | H]; discriminate.
Qed.

Lemma missing_issue_inj (h1 h2 : jsstring) :
  Security.missing_issue h1 = Security.missing_issue h2 -> h1 = h2.
Proof.
  unfold Security.missing_issue. intros H.
  apply app_inv_head in H. apply app_inv_tail in H. exact H.
Qed.

Lemma missing_recommendation_inj (h1 h2 : jsstring) :
  Security.missing_recommendation h1 = Security.missing_recommendation h2 ->
  h1 = h2.
Proof.
  unfold Security.missing_recommendation. intros H.
  apply app_inv_head in H. apply app_inv_tail in H. exact H.
Qed.

Lemma missing_issue_not_powered_by (h : jsstring) :
  Security.missing_issue h <> Security.powered_by_issue.
Proof. unfold Security.missing_issue. cbn. discriminate. Qed.

Lemma in_missing_issues (headers : gmap jsstring jsstring) (h : jsstring) :
  In (Security.missing_issue h)
     (issues (Security.analyzeSecurityHeaders headers))
  <-> In h (missing_headers headers).
Proof.
  rewrite security_issues_eq, in_app_iff, in_map_iff. split.
  - intros [(h' & Heq & Hin) | Hin].
    + apply missing_issue_inj in Heq. subst h'. exact Hin.
    + destruct (truthy (headers !! js "x-powered-by")); cbn in Hin;
        [destruct Hin as [Hin | []] | destruct Hin].
      symmetry in Hin. destruct (missing_issue_not_powered_by _ Hin).
  - intros Hin. left. exists h. auto.
Qed.

Lemma in_missing_recommendations (headers : gmap jsstring jsstring)
    (h : jsstring) :
  In h (missing_headers headers) ->
  In (Security.missing_recommendation h)
     (recommendations (Security.analyzeSecurityHeaders headers)).
Proof.
  intros Hin. rewrite security_recommendations_eq, in_app_iff, in_map_iff.
  left. exists h. auto.
Qed.

(** Two header maps with the same truthy entries get the same report. *)
Lemma security_ext (m1 m2 : gmap jsstring jsstring) :
  (forall k, truthy (m1 !! k) = truthy (m2 !! k)) ->
  Security.analyzeSecurityHeaders m1 = Security.analyzeSecurityHeaders m2.
Proof.
  intros H. unfold Security.analyzeSecurityHeaders.
  rewrite !security_checks_eq. cbn zeta.
  assert (Hm : missing_headers m1 = missing_headers m2).
  { unfold missing_headers. apply List.filter_ext. intros k. now rewrite H. }
  rewrite Hm, H. reflexivity.
Qed.

Lemma truthy_delete_empty (headers : gmap jsstring jsstring)
    (h k : jsstring) :
  headers !! h = Some [] ->
  truthy (headers !! k) = truthy (delete h headers !! k).
Proof.
  intros Hh. destruct (decide (h = k)) as [<- | Hne].
  - rewrite lookup_delete_eq, Hh. reflexivity.
  - rewrite lookup_delete_ne by exact Hne. reflexivity.
Qed.

Lemma filter_all {A} (f : A -> bool) (l : list A) :
  (forall x, In x l -> f x = true) -> List.filter f l = l.
Proof.
  induction l as [| x l IH]; intros H; cbn; [reflexivity |].
  rewrite (H x) by (left; reflexivity).
  f_equal. apply IH. intros y Hy. apply H. right. exact Hy.
Qed.

(** C1, as stated, fails: a map without any of the seven names scores 10,
    not 0 (the six missing headers cost 90 points and the absent
    x-powered-by header costs nothing). *)
Lemma security_none_present_not_zero :
  let headers : gmap jsstring jsstring := ∅ in
  (forall h, In h Security.securityHeaders -> headers !! h = None) /\
  headers !! js "x-powered-by" = None /\
  ~ (score (Security.analyzeSecurityHeaders headers) = 0 /\
     length (issues (Security.analyzeSecurityHeaders headers)) = 6%nat).
Proof.
  cbn zeta. split; [intros h _; apply lookup_empty |].
  split; [apply lookup_empty |].
  intros [H _]. vm_compute in H. discriminate H.
Qed.

(** C1, amended: for every header map that contains none of the six security
    header names and does not contain x-powered-by, the security scorer
    returns score 10 and an issues list of exactly 6 entries. *)
Theorem security_none_present (headers : gmap jsstring jsstring) :
  (forall h, In h Security.securityHeaders -> headers !! h = None) ->
  headers !! js "x-powered-by" = None ->
  score (Security.analyzeSecurityHeaders headers) = 10 /\
  length (issues (Security.analyzeSecurityHeaders headers)) = 6%nat.
Proof.
  intros Hsix Hpb.
  assert (Hm : missing_headers headers = Security.securityHeaders).
  { apply filter_all. intros h Hh. rewrite (Hsix h Hh). reflexivity. }
  rewrite security_score_eq, security_issues_eq, Hm, Hpb.
  split; reflexivity.
Qed.

Lemma security_none_present_witness :
  score (Security.analyzeSecurityHeaders ∅) = 10 /\
  length (issues (Security.analyzeSecurityHeaders ∅)) = 6%nat.
Proof.
  apply (security_none_present ∅).
  - intros h _. reflexivity.
  - reflexivity.
Defined.

(** C3, as stated, fails: the lookup is by the exact lower-case name, so a
    map whose only key is "Strict-Transport-Security" is penalised for
    strict-transport-security although a key equal to it up to case is
    present. *)
Lemma security_lookup_is_case_sensitive :
  let headers : gmap jsstring jsstring :=
    {[ js "Strict-Transport-Security" := js "max-age=31536000" ]} in
  let h := js "strict-transport-security" in
  In h Security.securityHeaders /\
  (exists k, is_Some (headers !! k) /\ eq_ignore_case k h) /\
  In (Security.missing_issue h)
     (issues (Security.analyzeSecurityHeaders headers)) /\
  score (Security.analyzeSecurityHeaders headers) = 10.
Proof.
  cbn zeta. split; [left; reflexivity |]. split.
  - exists (js "Strict-Transport-Security"). split.
    + rewrite lookup_singleton_eq. eexists. reflexivity.
    + vm_compute. reflexivity.
  - split; [| vm_compute; reflexivity].
    apply in_missing_issues, in_missing_headers.
    split; [left; reflexivity | vm_compute; reflexivity].
Qed.

Lemma security_names_lower_case (h : jsstring) :
  In h Security.securityHeaders -> map ascii_lowercase h = h.
Proof.
  cbn [In Security.securityHeaders].
  intros H.
  repeat (destruct H as [<- | H]; [vm_compute; reflexivity |]).
  contradiction.
Qed.

(** C3, amended: for every header map and each of the six security header
    names, the presence check reads the entry stored under exactly that
    lower-case name: the name's issue (and with it the 15-point penalty) is
    triggered if and only if the map has no entry under that very key or
    maps it to the empty string; the score is 100 minus 15 per name so
    flagged, minus 10 when x-powered-by has a non-empty value.  On a map all
    of whose keys are lower-case this reads without regard to case: the
    issue is triggered if and only if no key equal to the name up to case
    carries a non-empty value. *)
Theorem security_presence_by_exact_key (headers : gmap jsstring jsstring) :
  (forall h, In h Security.securityHeaders ->
     (In (Security.missing_issue h)
         (issues (Security.analyzeSecurityHeaders headers))
      <-> headers !! h = None \/ headers !! h = Some [])) /\
  score (Security.analyzeSecurityHeaders headers) =
    100 - 15 * Z.of_nat (length (missing_headers headers))
    - (if truthy (headers !! js "x-powered-by") then 10 else 0) /\
  (lower_cased headers ->
   forall h, In h Security.securityHeaders ->
     (In (Security.missing_issue h)
         (issues (Security.analyzeSecurityHeaders headers))
      <-> ~ exists k v, eq_ignore_case k h /\
                        headers !! k = Some v /\ v <> [])).
Proof.
  assert (Hexact : forall h, In h Security.securityHeaders ->
     (In (Security.missing_issue h)
         (issues (Security.analyzeSecurityHeaders headers))
      <-> headers !! h = None \/ headers !! h = Some [])).
  { intros h Hh. rewrite in_missing_issues, in_missing_headers, truthy_false.
    tauto. }
  split; [exact Hexact |]. split; [apply security_score_eq |].
  intros Hlow h Hh. rewrite (Hexact h Hh). split.
  - intros Hnone (k & v & Hk & Hv & Hne).
    assert (k = h) as ->.
    { unfold eq_ignore_case in Hk.
      rewrite (security_names_lower_case h Hh) in Hk.
      rewrite (Hlow k) in Hk by (eexists; exact Hv). exact Hk. }
    destruct Hnone as [Hn | Hn]; rewrite Hn in Hv; [discriminate |].
    injection Hv as <-. apply Hne. reflexivity.
  - intros Hno. destruct (headers !! h) as [[| c v] |] eqn:E; auto.
    exfalso. apply Hno. exists h, (c :: v).
    split; [reflexivity |]. split; [exact E | discriminate].
Qed.

Lemma security_presence_by_exact_key_witness :
  let headers : gmap jsstring jsstring :=
    {[ js "x-frame-options" := js "DENY" ]} in
  lower_cased headers /\
  ~ In (Security.missing_issue (js "x-frame-options"))
       (issues (Security.analyzeSecurityHeaders headers)) /\
  In (Security.missing_issue (js "referrer-policy"))
     (issues (Security.analyzeSecurityHeaders headers)).
Proof.
  cbn zeta.
  assert (Hlow : lower_cased
                   ({[ js "x-frame-options" := js "DENY" ]}
                      : gmap jsstring jsstring)).
  { intros k [v Hv]. apply lookup_singleton_Some in Hv as [<- _].
    vm_compute. reflexivity. }
  split; [exact Hlow |].
  destruct (security_presence_by_exact_key
              {[ js "x-frame-options" := js "DENY" ]}) as (_ & _ & H).
  specialize (H Hlow). split.
  - intros Hin. apply (H (js "x-frame-options")) in Hin.
    + apply Hin. exists (js "x-frame-options"), (js "DENY").
      split; [reflexivity |].
      split; [apply lookup_singleton_eq | discriminate].
    + vm_compute. tauto.
  - apply (H (js "referrer-policy")).
    + vm_compute. tauto.
    + intros (k & v & Hk & Hv & _).
      apply lookup_singleton_Some in Hv as [<- _].
      vm_compute in Hk. discriminate Hk.
Defined.

(** C10: presence is tested by the truthiness of the mapped value.  A
    security header name mapped to the empty string is penalised exactly as
    if it were missing (15 points, its issue and its recommendation), and
    x-powered-by mapped to the empty string incurs no penalty: in both cases
    the report is the one of the map without that key. *)
Theorem security_empty_value_is_absent (headers : gmap jsstring jsstring) :
  (forall h, In h Security.securityHeaders -> headers !! h = Some [] ->
     In (Security.missing_issue h)
        (issues (Security.analyzeSecurityHeaders headers)) /\
     In (Security.missing_recommendation h)
        (recommendations (Security.analyzeSecurityHeaders headers)) /\
     score (Security.analyzeSecurityHeaders headers) <= 85 /\
     Security.analyzeSecurityHeaders headers
     = Security.analyzeSecurityHeaders (delete h headers)) /\
  (headers !! js "x-powered-by" = Some [] ->
     ~ In Security.powered_by_issue
          (issues (Security.analyzeSecurityHeaders headers)) /\
     score (Security.analyzeSecurityHeaders headers)
     = 100 - 15 * Z.of_nat (length (missing_headers headers)) /\
     Security.analyzeSecurityHeaders headers
     = Security.analyzeSecurityHeaders (delete (js "x-powered-by") headers)).
Proof.
  split.
  - intros h Hh Hempty.
    assert (Hin : In h (missing_headers headers)).
    { apply in_missing_headers. split; [exact Hh |]. rewrite Hempty. reflexivity. }
    split; [apply in_missing_issues; exact Hin |].
    split; [apply in_missing_recommendations; exact Hin |].
    split.
    + rewrite security_score_eq.
      destruct (missing_headers headers); [destruct Hin |].
      cbn [length]. destruct (truthy (headers !! js "x-powered-by")); lia.
    + apply security_ext. intros k. apply truthy_delete_empty. exact Hempty.
  - intros Hempty. split; [| split].
    + rewrite security_issues_eq, Hempty. cbn [truthy]. rewrite app_nil_r.
      rewrite in_map_iff. intros (h & Heq & _).
      exact (missing_issue_not_powered_by h Heq).
    + rewrite security_score_eq, Hempty. cbn [truthy]. lia.
    + apply security_ext. intros k. apply truthy_delete_empty. exact Hempty.
Qed.

Lemma security_empty_value_is_absent_witness :
  let headers : gmap jsstring jsstring :=
    {[ js "x-frame-options" := [] ]} in
  In (Security.missing_issue (js "x-frame-options"))
     (issues (Security.analyzeSecurityHeaders headers)) /\
  score (Security.analyzeSecurityHeaders headers) <= 85.
Proof.
  cbn zeta.
  destruct (security_empty_value_is_absent {[ js "x-frame-options" := [] ]})
    as [Hsix _].
  destruct (Hsix (js "x-frame-options")) as (H1 & _ & H2 & _).
  - vm_compute. tauto.
  - vm_compute. reflexivity.
  - split; assumption.
Defined.

(** * SEO score *)

Lemma check_images_score (html : jsstring) (st : report) :
  score (SEO.check_images html st)
  = score st - alt_penalty (length (SEO.imagesWithoutAlt html)).
Proof.
  unfold SEO.check_images, alt_penalty. cbn zeta.
  destruct (0 <? length (SEO.imagesWithoutAlt html))%nat; cbn [score]; lia.
Qed.

Lemma alt_penalty_bounds (n : nat) : 0 <= alt_penalty n <= 20.
Proof. unfold alt_penalty. destruct (0 <? n)%nat; lia. Qed.

Lemma head_checks_score (html : jsstring) :
  score (SEO.check_viewport html
           (SEO.check_h1 html
              (SEO.check_description html (SEO.check_title html SEO.start))))
  = 100 - head_penalty html.
Proof.
  unfold SEO.check_viewport, SEO.check_h1, SEO.check_description,
    SEO.check_title, head_penalty, SEO.start.
  destruct (test re_title html), (test re_description html),
    (test re_h1 html), (test re_viewport html); reflexivity.
Qed.

Lemma head_penalty_bounds (html : jsstring) : 0 <= head_penalty html <= 60.
Proof.
  unfold head_penalty.
  destruct (test re_title html), (test re_description html),
    (test re_h1 html), (test re_viewport html); lia.
Qed.

Lemma seo_checks_score (html : jsstring) :
  score (SEO.checks html)
  = 100 - head_penalty html
    - alt_penalty (length (SEO.imagesWithoutAlt html)).
Proof.
  unfold SEO.checks. rewrite check_images_score, head_checks_score.
  reflexivity.
Qed.

Lemma seo_score_eq (html : jsstring) :
  score (SEO.analyzeSEO html)
  = 100 - head_penalty html
    - alt_penalty (length (SEO.imagesWithoutAlt html)).
Proof.
  unfold SEO.analyzeSEO. cbn [score]. rewrite seo_checks_score.
  pose proof (head_penalty_bounds html).
  pose proof (alt_penalty_bounds (length (SEO.imagesWithoutAlt html))).
  lia.
Qed.

(** C2, as stated, fails: the four penalties add up to 60, so the page with
    none of the four elements and no image scores 40, not 30. *)
Lemma seo_bare_page_not_30 :
  let html : jsstring := [] in
  test re_title html = false /\ test re_description html = false /\
  test re_h1 html = false /\ test re_viewport html = false /\
  match_all re_img html = [] /\
  ~ (score (SEO.analyzeSEO html) = 30 /\
     length (issues (SEO.analyzeSEO html)) = 4%nat).
Proof.
  cbn zeta. repeat (split; [vm_compute; reflexivity |]).
  intros [H _]. vm_compute in H. discriminate H.
Qed.

(** C2, amended: for every HTML string with no title match, no description
    meta tag, no h1 tag, no viewport meta tag and zero img tag occurrences,
    the SEO scorer returns score 40 (100 - 20 - 15 - 10 - 15) and an issues
    list of length 4. *)
Theorem seo_bare_page (html : jsstring) :
  test re_title html = false ->
  test re_description html = false ->
  test re_h1 html = false ->
  test re_viewport html = false ->
  match_all re_img html = [] ->
  score (SEO.analyzeSEO html) = 40 /\
  length (issues (SEO.analyzeSEO html)) = 4%nat.
Proof.
  intros Ht Hd Hh Hv Hi.
  unfold SEO.analyzeSEO, SEO.checks, SEO.check_images, SEO.imagesWithoutAlt,
    SEO.check_viewport, SEO.check_h1, SEO.check_description, SEO.check_title.
  rewrite Ht, Hd, Hh, Hv, Hi. split; reflexivity.
Qed.

Lemma seo_bare_page_witness :
  score (SEO.analyzeSEO (js "<p>hello</p>")) = 40 /\
  length (issues (SEO.analyzeSEO (js "<p>hello</p>"))) = 4%nat.
Proof.
  apply (seo_bare_page (js "<p>hello</p>")); vm_compute; reflexivity.
Defined.

(** C9: the SEO score lies in [20, 100]: the deductions add up to at most
    20 + 15 + 10 + 15 + 20 = 80, so the final clamp at 0 never binds and the
    score is never below 20. *)
Theorem seo_score_range (html : jsstring) :
  20 <= score (SEO.analyzeSEO html) <= 100 /\
  score (SEO.analyzeSEO html) = score (SEO.checks html) /\
  100 - score (SEO.checks html) <= 20 + 15 + 10 + 15 + 20.
Proof.
  rewrite seo_score_eq, seo_checks_score.
  pose proof (head_penalty_bounds html).
  pose proof (alt_penalty_bounds (length (SEO.imagesWithoutAlt html))).
  lia.
Qed.

(** The lower bound 20 is reached: ten images without [alt=] on a bare page. *)
Example seo_score_minimum :
  score (SEO.analyzeSEO (repeat_string 10 (js "<img>"))) = 20.
Proof. vm_compute. reflexivity. Qed.

(** * Issues and recommendations go in pairs *)

Lemma Forall2_map_same {A B C} (R : B -> C -> Prop) (f : A -> B) (g : A -> C)
    (l : list A) :
  (forall x, In x l -> R (f x) (g x)) -> Forall2 R (map f l) (map g l).
Proof.
  induction l as [| x l IH]; intros H; cbn; constructor.
  - apply H. left. reflexivity.
  - apply IH. intros y Hy. apply H. right. exact Hy.
Qed.

Lemma security_paired (headers : gmap jsstring jsstring) :
  Forall2 security_pair
    (issues (Security.analyzeSecurityHeaders headers))
    (recommendations (Security.analyzeSecurityHeaders headers)).
Proof.
  rewrite security_issues_eq, security_recommendations_eq.
  apply Forall2_app.
  - apply Forall2_map_same. intros h Hh. apply pair_missing.
    apply in_missing_headers in Hh. tauto.
  - destruct (truthy (headers !! js "x-powered-by")); repeat constructor.
Qed.

(** Every check of [analyzeSEO] keeps the two lists paired. *)
Section SeoPairs.

Variable html : jsstring.

Let paired (st : report) : Prop :=
  Forall2 seo_pair (issues st) (recommendations st).

Lemma paired_snoc (st : report) (i r : jsstring) :
  paired st -> seo_pair i r ->
  Forall2 seo_pair (issues st ++ [i]) (recommendations st ++ [r]).
Proof.
  intros Hst Hp. apply Forall2_app; [exact Hst |]. repeat constructor.
  exact Hp.
Qed.

Lemma check_title_paired st : paired st -> paired (SEO.check_title html st).
Proof.
  intros H. unfold SEO.check_title.
  destruct (negb (test re_title html)); [| exact H].
  apply paired_snoc; [exact H | constructor].
Qed.

Lemma check_description_paired st :
  paired st -> paired (SEO.check_description html st).
Proof.
  intros H. unfold SEO.check_description.
  destruct (negb (test re_description html)); [| exact H].
  apply paired_snoc; [exact H | constructor].
Qed.

Lemma check_h1_paired st : paired st -> paired (SEO.check_h1 html st).
Proof.
  intros H. unfold SEO.check_h1.
  destruct (negb (test re_h1 html)); [| exact H].
  apply paired_snoc; [exact H | constructor].
Qed.

Lemma check_viewport_paired st :
  paired st -> paired (SEO.check_viewport html st).
Proof.
  intros H. unfold SEO.check_viewport.
  destruct (negb (test re_viewport html)); [| exact H].
  apply paired_snoc; [exact H | constructor].
Qed.

Lemma check_images_paired st :
  paired st -> paired (SEO.check_images html st).
Proof.
  intros H. unfold SEO.check_images. cbn zeta.
  destruct (0 <? length (SEO.imagesWithoutAlt html))%nat; [| exact H].
  apply paired_snoc; [exact H | constructor].
Qed.

Lemma seo_paired :
  Forall2 seo_pair (issues (SEO.analyzeSEO html))
                   (recommendations (SEO.analyzeSEO html)).
Proof.
  unfold SEO.analyzeSEO, SEO.checks. cbn [issues recommendations].
  apply check_images_paired, check_viewport_paired, check_h1_paired,
    check_description_paired, check_title_paired.
  constructor.
Qed.

End SeoPairs.

(** C7: for every input, the issues and the recommendations returned by the
    security scorer and by the SEO scorer have equal length and are paired
    in the same order: the i-th recommendation is the one pushed together
    with the i-th issue. *)
Theorem issues_and_recommendations_paired
    (headers : gmap jsstring jsstring) (html : jsstring) :
  (length (issues (Security.analyzeSecurityHeaders headers))
   = length (recommendations (Security.analyzeSecurityHeaders headers)) /\
   forall i issue,
     issues (Security.analyzeSecurityHeaders headers) !! i = Some issue ->
     exists r,
       recommendations (Security.analyzeSecurityHeaders headers) !! i = Some r
       /\ security_pair issue r) /\
  (length (issues (SEO.analyzeSEO html))
   = length (recommendations (SEO.analyzeSEO html)) /\
   forall i issue,
     issues (SEO.analyzeSEO html) !! i = Some issue ->
     exists r,
       recommendations (SEO.analyzeSEO html) !! i = Some r
       /\ seo_pair issue r).
Proof.
  split.
  - pose proof (security_paired headers) as H. split.
    + exact (Forall2_length _ _ _ H).
    + intros i issue Hi.
      destruct (Forall2_lookup_l _ _ _ _ _ H Hi) as (r & Hr & Hp). eauto.
  - pose proof (seo_paired html) as H. split.
    + exact (Forall2_length _ _ _ H).
    + intros i issue Hi.
      destruct (Forall2_lookup_l _ _ _ _ _ H Hi) as (r & Hr & Hp). eauto.
Qed.

(** * Technology detection *)

Lemma push_if_app (cond : bool) (t : technology) (l : list technology) :
  Tech.push_if cond t l = l ++ (if cond then [t] else []).
Proof. destruct cond; cbn; [reflexivity | now rewrite app_nil_r]. Qed.

(** The pushes of [detectTechnologies] laid out as one concatenation, one
    segment per rule. *)
Lemma detectTechnologies_segments (html : jsstring)
    (headers : gmap jsstring jsstring) :
  Tech.detectTechnologies html headers =
  server_technologies headers
  ++ (if Tech.has html "_next/static" || Tech.has html "__NEXT_DATA__"
      then [Tech.NextJs] else [])
  ++ (if Tech.has html "react" || Tech.has html "React"
      then [Tech.React] else [])
  ++ (if Tech.has html "vue" || Tech.has html "Vue"
      then [Tech.VueJs] else [])
  ++ (if Tech.has html "angular" || Tech.has html "ng-"
      then [Tech.Angular] else [])
  ++ (if Tech.has html "bootstrap" || Tech.has html "Bootstrap"
      then [Tech.Bootstrap] else [])
  ++ (if Tech.has html "tailwind" || Tech.has html "Tailwind"
      then [Tech.TailwindCSS] else [])
  ++ (if Tech.has html "google-analytics" || Tech.has html "gtag"
      then [Tech.GoogleAnalytics] else [])
  ++ (if Tech.has html "googletagmanager"
      then [Tech.GoogleTagManager] else [])
  ++ (if Tech.has html "wp-content" || Tech.has html "wordpress"
      then [Tech.WordPress] else [])
  ++ (if Tech.has html "shopify" then [Tech.Shopify] else []).
Proof.
  unfold Tech.detectTechnologies, server_technologies. cbn zeta.
  destruct (headers !! js "server") as [[| c rest] |];
    rewrite !push_if_app, <- !app_assoc; reflexivity.
Qed.

Lemma optional_sublist {A} (cond : bool) (x : A) :
  (if cond then [x] else []) `sublist_of` [x].
Proof. destruct cond; [reflexivity | apply sublist_nil_l]. Qed.

Lemma server_technologies_sublist (headers : gmap jsstring jsstring) :
  server_technologies headers
  `sublist_of` [Tech.Nginx; Tech.Apache; Tech.Cloudflare].
Proof.
  unfold server_technologies.
  destruct (headers !! js "server") as [[| c rest] |];
    try apply sublist_nil_l.
  change [Tech.Nginx; Tech.Apache; Tech.Cloudflare]
    with ([Tech.Nginx] ++ [Tech.Apache] ++ [Tech.Cloudflare]).
  repeat apply sublist_app; apply optional_sublist.
Qed.

(** C5: the output follows the fixed order of the detection rules, not the
    order of confidence: it is always a subsequence of the rule list, and
    for every HTML string containing both "react" and "tailwind" it contains
    {React, Library, 80} and {Tailwind CSS, CSS Framework, 90}, the React
    entry before the Tailwind CSS entry. *)
Theorem detect_react_before_tailwind (html : jsstring)
    (headers : gmap jsstring jsstring) :
  includes html (js "react") = true ->
  includes html (js "tailwind") = true ->
  Tech.detectTechnologies html headers `sublist_of` Tech.rule_order /\
  exists before between after,
    Tech.detectTechnologies html headers
    = before ++ [Technology (js "React") (js "Library") 80]
      ++ between
      ++ [Technology (js "Tailwind CSS") (js "CSS Framework") 90]
      ++ after.
Proof.
  intros Hr Ht. rewrite detectTechnologies_segments. split.
  - change Tech.rule_order
      with ([Tech.Nginx; Tech.Apache; Tech.Cloudflare] ++ [Tech.NextJs]
            ++ [Tech.React] ++ [Tech.VueJs] ++ [Tech.Angular]
            ++ [Tech.Bootstrap] ++ [Tech.TailwindCSS]
            ++ [Tech.GoogleAnalytics] ++ [Tech.GoogleTagManager]
            ++ [Tech.WordPress] ++ [Tech.Shopify]).
    apply sublist_app; [apply server_technologies_sublist |].
    repeat (apply sublist_app; [apply optional_sublist |]).
    apply optional_sublist.
  - unfold Tech.has at 3 4 11 12. rewrite Hr, Ht. cbn [orb].
    match goal with
    | |- exists _ _ _, ?a ++ ?b ++ [Tech.React] ++ ?c ++ ?d ++ ?e
                       ++ [Tech.TailwindCSS] ++ ?rest = _ =>
        exists (a ++ b), (c ++ d ++ e), rest
    end.
    rewrite <- !app_assoc. reflexivity.
Qed.

Lemma detect_react_before_tailwind_witness :
  exists before between after,
    Tech.detectTechnologies (js "<div class='tailwind'>react</div>") ∅
    = before ++ [Technology (js "React") (js "Library") 80]
      ++ between
      ++ [Technology (js "Tailwind CSS") (js "CSS Framework") 90]
      ++ after.
Proof.
  apply (detect_react_before_tailwind
           (js "<div class='tailwind'>react</div>") ∅);
    vm_compute; reflexivity.
Defined.

(** The rule order is not an order of confidence, in either direction. *)
Example rule_order_confidences :
  map confidence Tech.rule_order
  = [100; 100; 100; 95; 80; 80; 80; 90; 90; 95; 95; 95; 95].
Proof. reflexivity. Qed.

(** * Numbers: the floor of a product with a constant

    [Math.floor(n * c)] for an integer [n] and a binary64 constant [c] next
    to a fraction [a / b].  The product is rounded to 53 bits; as long as
    [n] stays below [2^50] the rounding error is too small to move the
    product across an integer, and the result is the integer quotient
    [a * n / b]. *)

(** The mantissa lies between the powers of two its digit count names. *)

Lemma digits2_bounds (p : positive) :
  2 ^ (Z.pos (digits2_pos p) - 1) <= Z.pos p < 2 ^ Z.pos (digits2_pos p).
Proof.
  induction p as [p IH | p IH |]; cbn [digits2_pos].
  - rewrite Pos2Z.inj_succ, Z.pow_succ_r by lia.
    replace (Z.succ (Z.pos (digits2_pos p)) - 1) with (Z.succ (Z.pos (digits2_pos p) - 1)) by lia.
    rewrite Z.pow_succ_r by lia. lia.
  - rewrite Pos2Z.inj_succ, Z.pow_succ_r by lia.
    replace (Z.succ (Z.pos (digits2_pos p)) - 1) with (Z.succ (Z.pos (digits2_pos p) - 1)) by lia.
    rewrite Z.pow_succ_r by lia. lia.
  - cbn. lia.
Qed.

(** The number of binary digits is determined by the bounds. *)
Lemma digits2_unique (p : positive) (d : Z) :
  2 ^ (d - 1) <= Z.pos p < 2 ^ d -> Z.pos (digits2_pos p) = d.
Proof.
  intros [Hlo Hhi]. pose proof (digits2_bounds p) as [Hl Hh].
  assert (0 < d).
  { destruct (Z.ltb_spec 0 d); [lia|]. 
    assert (2 ^ d <= 2 ^ 0) by (apply Z.pow_le_mono_r; lia). change (2^0) with 1 in *. lia. }
  destruct (Z.lt_trichotomy (Z.pos (digits2_pos p)) d) as [Hc | [Hc | Hc]]; [|lia|].
  - assert (2 ^ Z.pos (digits2_pos p) <= 2 ^ (d - 1)) by (apply Z.pow_le_mono_r; lia). lia.
  - assert (2 ^ d <= 2 ^ (Z.pos (digits2_pos p) - 1)) by (apply Z.pow_le_mono_r; lia). lia.
Qed.

(** The iterator of the rounding functions, counted in unary. *)
Lemma iter_pos_nat {A} (f : A -> A) (p : positive) (x : A) :
  SpecFloat.iter_pos f p x = Nat.iter (Pos.to_nat p) f x.
Proof.
  revert x. induction p as [p IH | p IH |]; intros x; cbn [SpecFloat.iter_pos].
  - rewrite !IH. rewrite Pos2Nat.inj_xI.
    replace (S (2 * Pos.to_nat p))%nat with (Pos.to_nat p + (Pos.to_nat p + 1))%nat by lia.
    rewrite !Nat.iter_add. reflexivity.
  - rewrite !IH. rewrite Pos2Nat.inj_xO.
    replace (2 * Pos.to_nat p)%nat with (Pos.to_nat p + Pos.to_nat p)%nat by lia.
    rewrite !Nat.iter_add. reflexivity.
  - reflexivity.
Qed.

(** One right shift: halve, remember the bit shifted out, accumulate the
    sticky bit. *)
Lemma shr_1_m (mrs : shr_record) :
  0 <= shr_m mrs ->
  shr_m (shr_1 mrs) = shr_m mrs / 2 /\
  shr_r (shr_1 mrs) = Z.odd (shr_m mrs) /\
  shr_s (shr_1 mrs) = shr_r mrs || shr_s mrs.
Proof.
  destruct mrs as [m r s]. cbn [shr_m shr_r shr_s]. intros Hm.
  destruct m as [| [p | p |] |]; cbn [shr_1 shr_m shr_r shr_s]; try lia;
    (split; [| split; reflexivity]).
  - reflexivity.
  - apply Z.div_unique with 1; lia.
  - apply Z.div_unique with 0; lia.
  - reflexivity.
Qed.

Lemma mod_pow2_succ (m k : Z) :
  0 <= k ->
  m mod 2 ^ (k + 1) = 2 ^ k * ((m / 2 ^ k) mod 2) + m mod 2 ^ k.
Proof.
  intros Hk. assert (Hp : 0 < 2 ^ k) by (apply Z.pow_pos_nonneg; lia).
  pose proof (Z.div_mod m (2 ^ k) ltac:(lia)) as E1.
  pose proof (Z.mod_pos_bound m (2 ^ k) Hp) as B1.
  pose proof (Z.div_mod (m / 2 ^ k) 2 ltac:(lia)) as E2.
  pose proof (Z.mod_pos_bound (m / 2 ^ k) 2 ltac:(lia)) as B2.
  rewrite Z.pow_add_r by lia. change (2 ^ 1) with 2.
  symmetry. apply Z.mod_unique with ((m / 2 ^ k) / 2); nia.
Qed.

(** [S k] right shifts of a mantissa: the quotient, the last bit shifted
    out (round bit) and the sticky bit over the bits below it. *)
Lemma shr_iter (k : nat) (m : Z) :
  0 <= m ->
  let out := Nat.iter (S k) shr_1 (Build_shr_record m false false) in
  shr_m out = m / 2 ^ Z.of_nat (S k) /\
  shr_r out = Z.odd (m / 2 ^ Z.of_nat k) /\
  (shr_s out = false -> m mod 2 ^ Z.of_nat k = 0).
Proof.
  intros Hm. induction k as [| k IH].
  - cbn [Nat.iter].
    destruct (shr_1_m (Build_shr_record m false false) Hm) as (H1 & H2 & H3).
    cbn [shr_m shr_r shr_s] in *.
    change (2 ^ Z.of_nat 1) with 2. change (2 ^ Z.of_nat 0) with 1.
    rewrite Z.div_1_r, Z.mod_1_r. auto.
  - cbn zeta in *. destruct IH as (IH1 & IH2 & IH3).
    change (Nat.iter (S (S k)) shr_1 ?x) with (shr_1 (Nat.iter (S k) shr_1 x)).
    set (prev := Nat.iter (S k) shr_1 _) in *.
    assert (Hpos : 0 <= shr_m prev).
    { rewrite IH1. apply Z.div_pos; [lia | apply Z.pow_pos_nonneg; lia]. }
    destruct (shr_1_m _ Hpos) as (H1 & H2 & H3). rewrite H1, H2, H3, IH1.
    split; [| split; [reflexivity |]].
    + rewrite Z.div_div by (try apply Z.pow_pos_nonneg; lia).
      f_equal. rewrite (Nat2Z.inj_succ (S k)), Z.pow_succ_r by lia. lia.
    + intros Hs. apply orb_false_iff in Hs as [Hr Hs].
      rewrite Nat2Z.inj_succ. unfold Z.succ.
      rewrite mod_pow2_succ by lia. rewrite (IH3 Hs).
      rewrite IH2 in Hr. rewrite Zmod_odd, Hr. lia.
Qed.

(** A 53-bit mantissa in the normal range is not shifted. *)
Lemma shr_fexp_keep (m : positive) (e : Z) :
  Z.pos (digits2_pos m) = 53 -> -1074 <= e ->
  shr_fexp prec emax (Z.pos m) e loc_Exact =
  (Build_shr_record (Z.pos m) false false, e).
Proof.
  intros Hd He. unfold shr_fexp, fexp, Zdigits2, shr_record_of_loc.
  rewrite Hd.
  replace (Z.max (53 + e - prec) (SpecFloat.emin prec emax) - e) with 0
    by (change prec with 53; change (SpecFloat.emin 53 emax) with (-1074); lia).
  reflexivity.
Qed.

(** A longer mantissa is shifted down to 53 bits. *)
Lemma shr_fexp_shift (m : positive) (e : Z) (sh : positive) :
  Z.pos (digits2_pos m) - 53 = Z.pos sh -> -1074 <= e + Z.pos sh ->
  shr_fexp prec emax (Z.pos m) e loc_Exact =
  (Nat.iter (Pos.to_nat sh) shr_1 (Build_shr_record (Z.pos m) false false),
   e + Z.pos sh).
Proof.
  intros Hd He. unfold shr_fexp, fexp, Zdigits2, shr_record_of_loc.
  replace (Z.max (Z.pos (digits2_pos m) + e - prec) (SpecFloat.emin prec emax) - e)
    with (Z.pos sh)
    by (change prec with 53; change (SpecFloat.emin 53 emax) with (-1074); lia).
  unfold shr. rewrite iter_pos_nat. reflexivity.
Qed.

(** Rounding a 53-bit mantissa changes nothing. *)
Lemma bra_exact (s : bool) (m : positive) (e : Z) :
  Z.pos (digits2_pos m) = 53 -> -1074 <= e <= 971 ->
  binary_round_aux prec emax s (Z.pos m) e loc_Exact = S754_finite s m e.
Proof.
  intros Hd He. unfold binary_round_aux.
  rewrite shr_fexp_keep by lia. cbn [shr_m loc_of_shr_record round_nearest_even].
  rewrite shr_fexp_keep by lia. cbn [shr_m].
  change (emax - prec) with 971.
  destruct (Z.leb_spec e 971); [reflexivity | lia].
Qed.

Lemma pos_iter_xO (p k : positive) :
  Z.pos (Pos.iter xO p k) = Z.pos p * 2 ^ Z.pos k.
Proof.
  induction k as [| k IH] using Pos.peano_ind.
  - cbn [Pos.iter]. lia.
  - rewrite Pos.iter_succ, Pos2Z.inj_succ, Z.pow_succ_r by lia.
    rewrite Pos2Z.inj_xO, IH. ring.
Qed.

(** The binary64 value of an integer below [2^53] is the integer itself,
    with its mantissa shifted to 53 bits. *)
Lemma Number_of_Z_pos (p : positive) :
  let d := Z.pos (digits2_pos p) in
  d <= 53 ->
  exists m, Number_of_Z (Z.pos p) = S754_finite false m (d - 53)
            /\ Z.pos m = Z.pos p * 2 ^ (53 - d)
            /\ Z.pos (digits2_pos m) = 53.
Proof.
  intros d Hd. unfold Number_of_Z, binary_normalize, binary_round.
  unfold shl_align, fexp. fold d.
  replace (Z.max (d + 0 - prec) (SpecFloat.emin prec emax) - 0) with (d - 53)
    by (change prec with 53; change (SpecFloat.emin 53 emax) with (-1074); lia).
  replace (Z.max (d + 0 - prec) (SpecFloat.emin prec emax)) with (d - 53)
    by (change prec with 53; change (SpecFloat.emin 53 emax) with (-1074); lia).
  pose proof (digits2_bounds p) as Hb. fold d in Hb.
  destruct (d - 53) as [| k | k] eqn:Hk; try lia.
  - assert (d = 53) by lia. exists p. rewrite bra_exact by (fold d; lia).
    replace (53 - d) with 0 by lia. split; [reflexivity |]. split; [lia | fold d; lia].
  - assert (Hm : Z.pos (Pos.iter xO p k) = Z.pos p * 2 ^ (53 - d)).
    { rewrite pos_iter_xO. f_equal. f_equal. lia. }
    assert (Hdm : Z.pos (digits2_pos (Pos.iter xO p k)) = 53).
    { apply digits2_unique. rewrite Hm.
      replace (2 ^ (53 - 1)) with (2 ^ (d - 1) * 2 ^ (53 - d))
        by (rewrite <- Z.pow_add_r by lia; f_equal; lia).
      replace (2 ^ 53) with (2 ^ d * 2 ^ (53 - d))
        by (rewrite <- Z.pow_add_r by lia; f_equal; lia).
      assert (0 < 2 ^ (53 - d)) by (apply Z.pow_pos_nonneg; lia). nia. }
    exists (Pos.iter xO p k). rewrite bra_exact by lia. 
    split; [f_equal; lia |]. auto.
Qed.

(** The round bit tells on which side of the midpoint the remainder is. *)
Lemma half_bit (P h : Z) :
  0 <= P -> 0 < h ->
  (Z.odd (P / h) = false -> 2 * (P mod (2 * h)) < 2 * h) /\
  (Z.odd (P / h) = true -> 2 * h <= 2 * (P mod (2 * h))) /\
  (P mod h = 0 -> 2 * (P mod (2 * h)) <= 2 * h).
Proof.
  intros HP Hh.
  pose proof (Z.mod_pos_bound P h Hh) as B1.
  pose proof (Z.mod_pos_bound (P / h) 2 ltac:(lia)) as B2.
  assert (Hm : P mod (2 * h) = h * ((P / h) mod 2) + P mod h).
  { pose proof (Z.div_mod P h ltac:(lia)) as E1.
    pose proof (Z.div_mod (P / h) 2 ltac:(lia)) as E2.
    symmetry. apply Z.mod_unique with ((P / h) / 2); nia. }
  rewrite Hm. rewrite (Zmod_odd (P / h)) in *.
  destruct (Z.odd (P / h)); repeat split; intros; try discriminate; nia.
Qed.

(** Rounding a product mantissa of more than 53 bits: the result is a finite
    number whose mantissa, brought back to the scale of the input, is within
    half a unit in the last place of it. *)
Lemma bra_round (P : positive) (E : Z) (sh : positive) :
  Z.pos (digits2_pos P) - 53 = Z.pos sh ->
  -1074 <= E + Z.pos sh -> E + Z.pos sh + 1 <= 971 ->
  exists m' e',
    binary_round_aux prec emax false (Z.pos P) E loc_Exact
      = S754_finite false m' e'
    /\ E + Z.pos sh <= e' <= E + Z.pos sh + 1
    /\ 2 * Z.pos P - 2 ^ Z.pos sh
         <= 2 * (Z.pos m' * 2 ^ (e' - (E + Z.pos sh))) * 2 ^ Z.pos sh
         <= 2 * Z.pos P + 2 ^ Z.pos sh.
Proof.
  intros Hd Hlo Hhi. unfold binary_round_aux.
  rewrite (shr_fexp_shift P E sh) by lia.
  destruct (Pos2Nat.is_succ sh) as [k Hk]. rewrite Hk.
  destruct (shr_iter k (Z.pos P) ltac:(lia)) as (Hm & Hr & Hs).
  set (mrs := Nat.iter (S k) shr_1 _) in *.
  assert (Hsh : Z.of_nat (S k) = Z.pos sh) by lia.
  assert (Hk' : Z.of_nat k = Z.pos sh - 1) by lia.
  rewrite Hsh in Hm. rewrite Hk' in Hr, Hs.
  set (S := 2 ^ Z.pos sh) in *.
  set (h := 2 ^ (Z.pos sh - 1)) in *.
  assert (HS : S = 2 * h).
  { unfold S, h. rewrite <- Z.pow_succ_r by lia. f_equal. lia. }
  assert (Hh : 0 < h) by (apply Z.pow_pos_nonneg; lia).
  pose proof (digits2_bounds P) as [Pl Ph].
  replace (Z.pos (digits2_pos P) - 1) with (52 + Z.pos sh) in Pl by lia.
  replace (Z.pos (digits2_pos P)) with (53 + Z.pos sh) in Ph by lia.
  rewrite Z.pow_add_r in Pl, Ph by lia. fold S in Pl, Ph.
  assert (Hq : 2 ^ 52 <= shr_m mrs < 2 ^ 53).
  { rewrite Hm. split.
    - apply Z.div_le_lower_bound; lia.
    - apply Z.div_lt_upper_bound; lia. }
  pose proof (Z.div_mod (Z.pos P) S ltac:(lia)) as Hdm.
  pose proof (Z.mod_pos_bound (Z.pos P) S ltac:(lia)) as Hmb.
  destruct (half_bit (Z.pos P) h ltac:(lia) Hh) as (Hrf & Hrt & Hst).
  fold h in Hs. rewrite <- HS in Hrf, Hrt, Hst. rewrite <- Hm in Hdm.
  set (q' := round_nearest_even (shr_m mrs) (loc_of_shr_record mrs)).
  assert (Hq' : (q' = shr_m mrs /\ 2 * (Z.pos P mod S) <= S) \/
                (q' = shr_m mrs + 1 /\ S <= 2 * (Z.pos P mod S))).
  { unfold q'. destruct mrs as [m1 r1 s1]. cbn [shr_m shr_r] in *.
    rewrite <- Hr in Hrf, Hrt.
    destruct r1, s1; cbn [loc_of_shr_record round_nearest_even].
    - right. split; [reflexivity | apply Hrt; reflexivity].
    - destruct (Z.even m1).
      + left. split; [reflexivity |]. specialize (Hst (Hs eq_refl)). lia.
      + right. split; [reflexivity | apply Hrt; reflexivity].
    - left. split; [reflexivity |]. specialize (Hrf eq_refl). lia.
    - left. split; [reflexivity |]. specialize (Hrf eq_refl). lia. }
  assert (Hfin : 2 * Z.pos P - S <= 2 * (q' * S) <= 2 * Z.pos P + S).
  { destruct Hq' as [[-> Hc] | [-> Hc]]; nia. }
  assert (Hrange : 2 ^ 52 <= q' <= 2 ^ 53) by lia.
  clearbody q'. clear Hq' Hrf Hrt Hst Hs Hr Hm Hdm Hmb.
  destruct (Z.eq_dec q' (2 ^ 53)) as [Hc | Hc].
  - subst q'. change (2 ^ 53) with (Z.pos 9007199254740992).
    rewrite (shr_fexp_shift 9007199254740992 _ 1) by (cbn; lia).
    cbn [Pos.to_nat Pos.iter_op Nat.iter Init.Nat.add shr_1 shr_m].
    change (emax - prec) with 971.
    destruct (Z.leb_spec (E + Z.pos sh + 1) 971); [| lia].
    exists 4503599627370496%positive, (E + Z.pos sh + 1).
    split; [reflexivity |]. split; [lia |].
    replace (E + Z.pos sh + 1 - (E + Z.pos sh)) with 1 by lia.
    change (Z.pos 4503599627370496 * 2 ^ 1) with (2 ^ 53). lia.
  - destruct q' as [| m' |]; try lia.
    rewrite shr_fexp_keep; [| apply digits2_unique; change (53 - 1) with 52; lia | lia].
    cbn [shr_m]. change (emax - prec) with 971.
    destruct (Z.leb_spec (E + Z.pos sh) 971); [| lia].
    exists m', (E + Z.pos sh).
    split; [reflexivity |]. split; [lia |].
    rewrite Z.sub_diag. change (2 ^ 0) with 1. rewrite Z.mul_1_r. lia.
Qed.

Lemma pow2_digits_range (P : positive) (lo hi : Z) :
  0 <= lo -> 2 ^ lo <= Z.pos P < 2 ^ hi ->
  lo < Z.pos (digits2_pos P) <= hi.
Proof.
  intros Hlo [H1 H2]. pose proof (digits2_bounds P) as [B1 B2].
  split.
  - apply (Z.pow_lt_mono_r_iff 2); lia.
  - assert (Z.pos (digits2_pos P) - 1 < hi); [| lia].
    apply (Z.pow_lt_mono_r_iff 2); try lia.
    destruct (Z.ltb_spec hi 0); [| lia].
    rewrite Z.pow_neg_r in H2 by lia. lia.
Qed.

(** The arithmetic heart of the matter: a mantissa [q'] within half a unit
    of the exact product, read at the scale of the integers, has the same
    integer part as the fraction. *)
Lemma scaled_quotient (b delta Y X S T k r P q' : Z) :
  0 < b <= 10 -> -2 <= delta <= 2 -> - 4 * delta <= b ->
  2 ^ 52 <= Y < 2 ^ 53 ->
  2 ^ 52 <= S <= 2 ^ 53 ->
  8 * 2 ^ 53 <= X ->
  0 < T -> S * T = X ->
  0 <= r < b ->
  b * P = (b * k + r) * X + delta * Y ->
  2 * P - S <= 2 * q' * S <= 2 * P + S ->
  q' / T = k.
Proof.
  intros Hb Hdelta Hneg HY HS HX HT HST Hr HP Hq.
  symmetry. apply Z.div_unique with (q' - T * k); [| ring].
  left.
  assert (HrX : 0 <= r * X <= (b - 1) * X) by nia.
  assert (HdY : -2 * 2 ^ 53 <= delta * Y <= 2 * 2 ^ 53) by nia.
  assert (HbS : 0 <= b * S <= 10 * 2 ^ 53) by nia.
  assert (HbP : b * P = b * (k * X) + r * X + delta * Y) by lia.
  assert (HnS : 0 < 2 * (delta * Y) + b * S) by nia.
  split.
  - destruct (Z.le_gt_cases (T * k) q') as [Hc | Hc]; [lia | exfalso].
    assert (q' * S <= k * X - S) by nia.
    nia.
  - destruct (Z.lt_ge_cases q' (T * k + T)) as [Hc | Hc]; [lia | exfalso].
    assert (k * X + X <= q' * S) by nia.
    nia.
Qed.

Section FloorOfScaled.

(** The multiplier [M * 2^-w] is a binary64 constant next to the fraction
    [a / b]. *)
Variables (M : positive) (w a b delta : Z).
Hypothesis HM : Z.pos (digits2_pos M) = 53.
Hypothesis Hw : 53 <= w <= 54.
Hypothesis Hab : 0 < a < b.
Hypothesis Hb : b <= 10.
Hypothesis Hclose : b * Z.pos M = a * 2 ^ w + delta.
Hypothesis Hdelta : -2 <= delta <= 2.
Hypothesis Hneg : - 4 * delta <= b.

Lemma floor_mul_const (n : Z) :
  0 <= n < 2 ^ 50 ->
  Math_floor (Number_mul (Number_of_Z n) (S754_finite false M (- w)))
  = Number_of_Z (a * n / b).
Proof using All.
  intros Hn. destruct n as [| p |]; [| | lia].
  { rewrite Z.mul_0_r, Z.div_0_l by lia. reflexivity. }
  set (d := Z.pos (digits2_pos p)).
  assert (Hd : 0 < d <= 50).
  { pose proof (digits2_bounds p) as [B1 _]. fold d in B1. split; [lia |].
    assert (d - 1 < 50); [| lia]. apply (Z.pow_lt_mono_r_iff 2); lia. }
  destruct (Number_of_Z_pos p ltac:(fold d; lia)) as (mz & -> & Hmz & Hdz).
  fold d in Hmz |- *.
  set (A := 2 ^ (53 - d)) in *.
  assert (HA : 8 <= A).
  { unfold A. change 8 with (2 ^ 3). apply Z.pow_le_mono_r; lia. }
  unfold Number_mul, SF64mul, SFmul. cbn [xorb].
  pose proof (digits2_bounds mz) as Bz. rewrite Hdz in Bz.
  pose proof (digits2_bounds M) as BM. rewrite HM in BM.
  change (53 - 1) with 52 in Bz, BM.
  set (P := (mz * M)%positive).
  assert (HP : Z.pos P = Z.pos mz * Z.pos M) by reflexivity.
  assert (HPr : 2 ^ 104 <= Z.pos P < 2 ^ 106).
  { change (2 ^ 104) with (2 ^ 52 * 2 ^ 52).
    change (2 ^ 106) with (2 ^ 53 * 2 ^ 53). nia. }
  pose proof (pow2_digits_range P 104 106 ltac:(lia) HPr) as HD.
  destruct (Z.pos (digits2_pos P) - 53) as [| sh |] eqn:Hsh; try lia.
  destruct (bra_round P (d - 53 + - w) sh Hsh ltac:(lia) ltac:(lia))
    as (m' & e' & -> & He' & Hq).
  unfold Math_floor. destruct (Z.leb_spec 0 e') as [Hc | _]; [lia |].
  f_equal. cbn [cond_Zopp].
  set (E := d - 53 + - w) in *.
  set (j := e' - (E + Z.pos sh)) in *.
  set (S := 2 ^ Z.pos sh) in *.
  set (T := 2 ^ (- (E + Z.pos sh))).
  assert (HT : 0 < T) by (apply Z.pow_pos_nonneg; lia).
  assert (Hj : 0 < 2 ^ j) by (apply Z.pow_pos_nonneg; lia).
  assert (HTj : T = 2 ^ (- e') * 2 ^ j).
  { unfold T, j. rewrite <- Z.pow_add_r by lia. f_equal. lia. }
  rewrite <- (Z.div_mul_cancel_r (Z.pos m') (2 ^ (- e')) (2 ^ j)) by lia.
  rewrite <- HTj.
  assert (HS : 2 ^ 52 <= S <= 2 ^ 53).
  { unfold S. split; apply Z.pow_le_mono_r; lia. }
  assert (HX : S * T = A * 2 ^ w).
  { unfold S, T, A. rewrite <- !Z.pow_add_r by lia. f_equal. lia. }
  pose proof (Z.div_mod (a * Z.pos p) b ltac:(lia)) as Hk.
  pose proof (Z.mod_pos_bound (a * Z.pos p) b ltac:(lia)) as Hr.
  assert (HXlo : 8 * 2 ^ 53 <= A * 2 ^ w).
  { assert (2 ^ 53 <= 2 ^ w) by (apply Z.pow_le_mono_r; lia). nia. }
  assert (HbP : b * Z.pos P
                = (b * (a * Z.pos p / b) + (a * Z.pos p) mod b) * (A * 2 ^ w)
                  + delta * Z.pos mz).
  { rewrite <- Hk, HP, Hmz.
    transitivity (Z.pos p * A * (b * Z.pos M)); [ring |].
    rewrite Hclose. ring. }
  apply (scaled_quotient b delta (Z.pos mz) (A * 2 ^ w) S T
           (a * Z.pos p / b) ((a * Z.pos p) mod b) (Z.pos P));
    first [assumption | split; assumption | idtac].
  all: lia.
Qed.

End FloorOfScaled.

(** [Math.floor(n * 0.3)] is the integer quotient [3 n / 10]. *)
Lemma floor_0_3 (n : Z) :
  0 <= n < 2 ^ 50 ->
  Math_floor (Number_mul (Number_of_Z n) lit_0_3) = Number_of_Z (3 * n / 10).
Proof.
  apply (floor_mul_const 5404319552844595 54 3 10 (-2)); try reflexivity; lia.
Qed.

(** [Math.floor(n * 0.8)] is the integer quotient [4 n / 5]. *)
Lemma floor_0_8 (n : Z) :
  0 <= n < 2 ^ 50 ->
  Math_floor (Number_mul (Number_of_Z n) lit_0_8) = Number_of_Z (4 * n / 5).
Proof.
  apply (floor_mul_const 7205759403792794 53 4 5 2); try reflexivity; lia.
Qed.

(** * Resource count

    The global match of [/<(script|link|img)/g] finds exactly the literal
    occurrences of the three tags: matches cannot overlap, because a match
    holds no [<] after its first code unit. *)

(** Matching a case-sensitive literal is a prefix test. *)
Lemma exec_literal {A} (l : jsstring) (k : jsstring -> option A)
    (s : jsstring) :
  exec (literal false l) k s
  = if starts_with l s then k (skipn (length l) s) else None.
Proof.
  revert s. induction l as [| c l IH]; intros s; [reflexivity |].
  cbn [literal fold_right exec chr]. fold (literal false l).
  destruct s as [| d s]; [reflexivity |].
  cbn [starts_with length skipn]. unfold same_unit.
  destruct (c =? d)%N; cbn [andb]; [apply IH | reflexivity].
Qed.

Lemma starts_with_firstn (l s : jsstring) :
  starts_with l s = true -> firstn (length l) s = l.
Proof.
  revert s. induction l as [| c l IH]; intros [| d s] H; cbn in *;
    try reflexivity; try discriminate.
  apply andb_true_iff in H as [Hc Hl]. apply N.eqb_eq in Hc. subst d.
  f_equal. apply IH. exact Hl.
Qed.

Lemma starts_with_skipn_length (l s : jsstring) :
  starts_with l s = true ->
  (length (skipn (length l) s) + length l = length s)%nat.
Proof.
  intros H. apply starts_with_firstn in H.
  rewrite length_skipn.
  assert (length (firstn (length l) s) = length l) by (rewrite H; reflexivity).
  rewrite length_firstn in *. lia.
Qed.

Lemma exec_at_resource (s : jsstring) :
  exec_at re_resource s = resource_match s.
Proof.
  unfold exec_at, re_resource, resource_match, text.
  cbn [exec]. rewrite exec_literal.
  destruct s as [| c s]; [reflexivity |].
  change (js "<script") with (60%N :: js "script").
  change (js "<link") with (60%N :: js "link").
  change (js "<img") with (60%N :: js "img").
  change (js "<") with [60%N].
  cbn [starts_with length skipn]. rewrite andb_true_r.
  destruct (60 =? c)%N; cbn [andb]; [| reflexivity].
  change (skipn 0 s) with s. rewrite !exec_literal.
  destruct (starts_with (js "script") s) eqn:H1.
  { apply starts_with_skipn_length in H1. cbn [length] in *.
    f_equal. change (length (js "script")) with 6%nat in *. lia. }
  destruct (starts_with (js "link") s) eqn:H2.
  { apply starts_with_skipn_length in H2. cbn [length] in *.
    f_equal. change (length (js "link")) with 4%nat in *. lia. }
  destruct (starts_with (js "img") s) eqn:H3.
  { apply starts_with_skipn_length in H3. cbn [length] in *.
    f_equal. change (length (js "img")) with 3%nat in *. lia. }
  reflexivity.
Qed.

Lemma resource_tags_cons (c : N) (s : jsstring) :
  resource_tags (c :: s) = (tag_here (c :: s) + resource_tags s)%nat.
Proof. unfold resource_tags, tag_here. cbn [occurrences]. lia. Qed.

Lemma tag_here_not_lt (c : N) (s : jsstring) :
  c <> 60%N -> tag_here (c :: s) = 0%nat.
Proof.
  intros Hc. unfold tag_here.
  change (js "<script") with (60%N :: js "script").
  change (js "<link") with (60%N :: js "link").
  change (js "<img") with (60%N :: js "img").
  cbn [starts_with].
  destruct (N.eqb_spec 60 c) as [E | _]; [congruence | reflexivity].
Qed.

(** A match is one tag at its position, and the rest of the match holds no
    [<] at which another tag could start. *)
Lemma resource_match_sound (c : N) (s : jsstring) (len : nat) :
  resource_match (c :: s) = Some len ->
  tag_here (c :: s) = 1%nat /\
  List.Forall (fun d => d <> 60%N) (firstn (len - 1) s).
Proof.
  unfold resource_match, tag_here.
  change (js "<script") with (60%N :: js "script").
  change (js "<link") with (60%N :: js "link").
  change (js "<img") with (60%N :: js "img").
  cbn [starts_with].
  destruct (60 =? c)%N; cbn [andb]; [| discriminate].
  destruct (starts_with (js "script") s) eqn:H1.
  { intros [= <-]. apply starts_with_firstn in H1.
    change (length (js "script")) with 6%nat in H1.
    change (7 - 1)%nat with 6%nat. rewrite H1. split.
    - destruct s as [| d s]; [discriminate |].
      injection H1 as -> _. reflexivity.
    - vm_compute. repeat constructor; discriminate. }
  destruct (starts_with (js "link") s) eqn:H2.
  { intros [= <-]. apply starts_with_firstn in H2.
    change (length (js "link")) with 4%nat in H2.
    change (5 - 1)%nat with 4%nat. rewrite H2. split.
    - destruct s as [| d s]; [discriminate |].
      injection H2 as -> _. reflexivity.
    - vm_compute. repeat constructor; discriminate. }
  destruct (starts_with (js "img") s) eqn:H3; [| discriminate].
  intros [= <-]. apply starts_with_firstn in H3.
  change (length (js "img")) with 3%nat in H3.
  change (4 - 1)%nat with 3%nat. rewrite H3. split.
  - reflexivity.
  - vm_compute. repeat constructor; discriminate.
Qed.

Lemma resource_match_none (s : jsstring) :
  resource_match s = None -> tag_here s = 0%nat.
Proof.
  unfold resource_match, tag_here.
  destruct (starts_with (js "<script") s); [discriminate |].
  destruct (starts_with (js "<link") s); [discriminate |].
  destruct (starts_with (js "<img") s); [discriminate | reflexivity].
Qed.

Lemma resource_count_from (s : jsstring) : forall skip : nat,
  List.Forall (fun d => d <> 60%N) (firstn skip s) ->
  length (match_all_from re_resource skip s) = resource_tags s.
Proof.
  induction s as [| c s IH]; intros skip Hskip.
  - destruct skip; cbn [match_all_from]; [| reflexivity].
    rewrite exec_at_resource. reflexivity.
  - rewrite resource_tags_cons. destruct skip as [| skip].
    + cbn [match_all_from]. rewrite exec_at_resource.
      destruct (resource_match (c :: s)) as [len |] eqn:Hm.
      * destruct (resource_match_sound c s len Hm) as [Ht Hf].
        cbn [length]. rewrite (IH _ Hf), Ht. reflexivity.
      * rewrite (resource_match_none _ Hm).
        apply IH. constructor.
    + cbn [match_all_from]. cbn [firstn] in Hskip.
      inversion Hskip as [| ? ? Hc Hrest]; subst.
      rewrite (tag_here_not_lt c s Hc). apply IH. exact Hrest.
Qed.

Lemma resource_count_eq (html : jsstring) :
  length (match_all re_resource html) = resource_tags html.
Proof. apply resource_count_from. constructor. Qed.

(** * Performance estimates *)

(** C4, as stated, fails: the products are binary64 products, and for a
    large enough integer the rounded product reaches the next integer.  At
    1688851274504966 ms the exact value of 0.8 x is 1351081019603972.8, the
    rounded product is 1351081019603973. *)
Lemma performance_floor_large_input :
  let n := 1688851274504966 in
  0 <= n /\
  Perf.domContentLoaded (Perf.analyzePerformance [] ∅ (Number_of_Z n))
    = Number_of_Z 1351081019603973 /\
  Number_of_Z (4 * n / 5) = Number_of_Z 1351081019603972 /\
  Perf.domContentLoaded (Perf.analyzePerformance [] ∅ (Number_of_Z n))
    <> Number_of_Z (4 * n / 5).
Proof.
  cbn zeta. split; [lia |].
  split; [vm_compute; reflexivity |].
  split; [vm_compute; reflexivity |].
  vm_compute. discriminate.
Qed.

(** C4, amended: for every HTML string and every non-negative integer
    totalElapsedMs below 2^50, the estimator returns
    ttfb = floor(0.3 x totalElapsedMs) and
    domContentLoaded = floor(0.8 x totalElapsedMs), pageSize = the UTF-8 byte
    length of the HTML string, and resourceCount = the number of
    case-sensitive literal occurrences of "<script", "<link" and "<img". *)
Theorem performance_estimates (html : jsstring)
    (headers : gmap jsstring jsstring) (totalElapsedMs : Z) :
  0 <= totalElapsedMs < 2 ^ 50 ->
  let m := Perf.analyzePerformance html headers (Number_of_Z totalElapsedMs) in
  Perf.ttfb m = Number_of_Z (3 * totalElapsedMs / 10) /\
  Perf.domContentLoaded m = Number_of_Z (4 * totalElapsedMs / 5) /\
  Perf.pageSize m = length (Perf.utf8_encode html) /\
  Perf.resourceCount m = resource_tags html.
Proof.
  intros Hn. cbn zeta. unfold Perf.analyzePerformance.
  cbn [Perf.ttfb Perf.domContentLoaded Perf.pageSize Perf.resourceCount].
  split; [apply floor_0_3; exact Hn |].
  split; [apply floor_0_8; exact Hn |].
  split; [reflexivity | apply resource_count_eq].
Qed.

Lemma performance_estimates_witness :
  let m := Perf.analyzePerformance (js "<img><link><p>") ∅ (Number_of_Z 1000) in
  Perf.ttfb m = Number_of_Z 300 /\
  Perf.domContentLoaded m = Number_of_Z 800 /\
  Perf.pageSize m = 14%nat /\
  Perf.resourceCount m = 2%nat.
Proof.
  apply (performance_estimates (js "<img><link><p>") ∅ 1000). lia.
Defined.

(** On ASCII text the UTF-8 byte length is the length of the string. *)
Lemma utf8_encode_ascii (s : jsstring) :
  List.Forall (fun c => (c < 128)%N) s -> Perf.utf8_encode s = s.
Proof.
  induction 1 as [| c s Hc _ IH]; [reflexivity |].
  unfold Perf.utf8_encode in *. cbn [Perf.code_points].
  assert (Perf.is_lead c = false) as ->.
  { unfold Perf.is_lead. destruct (N.leb_spec 55296 c); [lia | reflexivity]. }
  assert (Perf.is_trail c = false) as ->.
  { unfold Perf.is_trail. destruct (N.leb_spec 56320 c); [lia | reflexivity]. }
  cbn [flat_map]. rewrite IH. unfold Perf.utf8.
  destruct (N.ltb_spec c 128); [reflexivity | lia].
Qed.

(** * Bulk-job status *)

Lemma create_is_new (db : gmap nat Bulk.job) (user : nat)
    (us : list jsstring) (now : Z) :
  db !! fst (Bulk.createBulkJob db user us now) = None.
Proof.
  unfold Bulk.createBulkJob. cbn [fst].
  apply not_elem_of_dom. apply is_fresh.
Qed.

Lemma create_status (db : gmap nat Bulk.job) (user : nat)
    (us : list jsstring) (now : Z) :
  let (id, db') := Bulk.createBulkJob db user us now in
  Bulk.status <$> db' !! id = Some (js "pending").
Proof.
  unfold Bulk.createBulkJob. rewrite lookup_insert_eq. reflexivity.
Qed.

Lemma create_keeps_statuses (db : gmap nat Bulk.job) (user : nat)
    (us : list jsstring) (now : Z) :
  statuses_written db ->
  statuses_written (snd (Bulk.createBulkJob db user us now)).
Proof.
  intros Hdb id j. unfold Bulk.createBulkJob. cbn [snd].
  destruct (decide (fresh (dom db) = id)) as [<- | Hne].
  - rewrite lookup_insert_eq. intros [= <-]. left. reflexivity.
  - rewrite lookup_insert_ne by exact Hne. apply Hdb.
Qed.

Lemma update_keeps_statuses (db db' : gmap nat Bulk.job) (jobId : nat)
    (rs : list Bulk.result) (now : Z) :
  statuses_written db ->
  Bulk.updateBulkJob db jobId rs now = Some db' ->
  statuses_written db'.
Proof.
  intros Hdb. unfold Bulk.updateBulkJob.
  destruct (db !! jobId) as [j0 |]; [| discriminate].
  intros [= <-] id j.
  destruct (decide (jobId = id)) as [<- | Hne].
  - rewrite lookup_insert_eq. intros [= <-]. right. reflexivity.
  - rewrite lookup_insert_ne by exact Hne. apply Hdb.
Qed.

Lemma run_mutation_keeps_statuses (db : gmap nat Bulk.job)
    (m : Bulk.mutation) :
  statuses_written db -> statuses_written (Bulk.run_mutation db m).
Proof.
  intros Hdb. destruct m as [user us now | jobId rs now]; cbn [Bulk.run_mutation].
  - apply create_keeps_statuses. exact Hdb.
  - destruct (Bulk.updateBulkJob db jobId rs now) as [db' |] eqn:Hu.
    + exact (update_keeps_statuses _ _ _ _ _ Hdb Hu).
    + exact Hdb.
Qed.

Lemma run_mutations_keep_statuses (ms : list Bulk.mutation) :
  forall db, statuses_written db ->
  statuses_written (Bulk.run_mutations db ms).
Proof.
  unfold Bulk.run_mutations.
  induction ms as [| m ms IH]; intros db Hdb; cbn [fold_left].
  - exact Hdb.
  - apply IH, run_mutation_keeps_statuses, Hdb.
Qed.

(** No mutation takes a job out of "completed". *)
Lemma completed_is_final (db : gmap nat Bulk.job) (m : Bulk.mutation)
    (id : nat) :
  Bulk.status <$> db !! id = Some (js "completed") ->
  Bulk.status <$> Bulk.run_mutation db m !! id = Some (js "completed").
Proof.
  intros Hc. destruct m as [user us now | jobId rs now]; cbn [Bulk.run_mutation].
  - unfold Bulk.createBulkJob. cbn [snd].
    destruct (decide (fresh (dom db) = id)) as [<- | Hne].
    + assert (Hnew : db !! fresh (dom db) = None)
        by (apply not_elem_of_dom, is_fresh).
      rewrite Hnew in Hc. discriminate Hc.
    + rewrite lookup_insert_ne by exact Hne. exact Hc.
  - unfold Bulk.updateBulkJob.
    destruct (db !! jobId) as [j0 |] eqn:Hj; [| exact Hc].
    destruct (decide (jobId = id)) as [<- | Hne].
    + rewrite lookup_insert_eq. reflexivity.
    + rewrite lookup_insert_ne by exact Hne. exact Hc.
Qed.

Lemma process_length {world : Type}
    (attempt : world -> jsstring -> world * (jsstring + option nat))
    (us : list jsstring) : forall w,
  length (snd (Bulk.process world attempt w us)) = length us.
Proof.
  induction us as [| u us IH]; intros w; cbn [Bulk.process]; [reflexivity |].
  destruct (attempt w u) as [w1 out]. specialize (IH w1).
  destruct (Bulk.process world attempt w1 us) as [w2 rs].
  cbn [snd length] in *. now rewrite IH.
Qed.

(** An authenticated run of the action always completes: it creates the job
    as "pending" and patches it to "completed", whatever the outcome of each
    URL. *)
Lemma bulk_run_statuses {world : Type}
    (attempt : world -> jsstring -> world * (jsstring + option nat))
    (clock : world -> Z) (user : nat) (w : world)
    (db : gmap nat Bulk.job) (us : list jsstring) :
  exists r,
    Bulk.bulkAnalyzeSites world attempt clock (Some user) w db us = Some r /\
    length (Bulk.returned r) = length us /\
    Bulk.status_history (Bulk.jobId r) (db :: Bulk.trace r)
    = [None; Some (js "pending"); Some (js "completed")].
Proof.
  unfold Bulk.bulkAnalyzeSites.
  pose proof (create_is_new db user us (clock w)) as Hnew.
  pose proof (create_status db user us (clock w)) as Hst.
  destruct (Bulk.createBulkJob db user us (clock w)) as [id db1].
  cbn [fst] in Hnew.
  pose proof (process_length attempt us w) as Hlen.
  destruct (Bulk.process world attempt w us) as [w' rs]. cbn [snd] in Hlen.
  unfold Bulk.updateBulkJob.
  destruct (db1 !! id) as [j |] eqn:Hj; [| discriminate Hst].
  eexists. split; [reflexivity |]. split; [exact Hlen |].
  cbn [Bulk.jobId Bulk.trace Bulk.status_history map].
  rewrite Hnew, Hj, lookup_insert_eq. cbn in Hst |- *. rewrite Hst.
  reflexivity.
Qed.

(** C8: a bulk-analysis job's status only ever takes the value "pending"
    (written at creation) and then "completed" (written once, after all
    URLs were processed); "failed" and "running" are never assigned by any
    operation, even when every URL of the batch fails. *)
Theorem bulk_status_pending_then_completed :
  (forall ms : list Bulk.mutation,
     statuses_written (Bulk.run_mutations ∅ ms)) /\
  (forall (db : gmap nat Bulk.job) (m : Bulk.mutation) (id : nat),
     Bulk.status <$> db !! id = Some (js "completed") ->
     Bulk.status <$> Bulk.run_mutation db m !! id = Some (js "completed")) /\
  (forall (world : Type)
          (attempt : world -> jsstring -> world * (jsstring + option nat))
          (clock : world -> Z) (user : nat) (w : world)
          (db : gmap nat Bulk.job) (us : list jsstring),
     exists r,
       Bulk.bulkAnalyzeSites world attempt clock (Some user) w db us = Some r
       /\ length (Bulk.returned r) = length us
       /\ Bulk.status_history (Bulk.jobId r) (db :: Bulk.trace r)
          = [None; Some (js "pending"); Some (js "completed")]) /\
  ~ written_status (js "failed") /\
  ~ written_status (js "running").
Proof.
  split; [| split; [| split; [| split]]].
  - intros ms. apply run_mutations_keep_statuses.
    intros id j H. rewrite lookup_empty in H. discriminate H.
  - apply completed_is_final.
  - intros. apply bulk_run_statuses.
  - intros [H | H]; vm_compute in H; discriminate H.
  - intros [H | H]; vm_compute in H; discriminate H.
Qed.

(** A batch in which every URL fails still ends as "completed". *)
Example bulk_all_urls_fail :
  let attempt (w : unit) (u : jsstring) := (w, inl (js "fetch failed")) in
  match Bulk.bulkAnalyzeSites unit attempt (fun _ => 0) (Some 7%nat) tt ∅
          [js "a.example"; js "not a url"] with
  | Some r =>
      map Bulk.success (Bulk.returned r) = [false; false] /\
      Bulk.status_history (Bulk.jobId r) (Bulk.trace r)
      = [Some (js "pending"); Some (js "completed")]
  | None => False
  end.
Proof. vm_compute. split; reflexivity. Qed.

(** * URL normalization *)

Lemma trimStart_app_last (a : jsstring) (c : N) :
  is_white_space c = false -> trimStart (a ++ [c]) = trimStart a ++ [c].
Proof.
  intros Hc. induction a as [| d a IH]; cbn [app trimStart].
  - rewrite Hc. reflexivity.
  - destruct (is_white_space d); [exact IH | reflexivity].
Qed.

Lemma trimEnd_cons (c : N) (s : jsstring) :
  is_white_space c = false -> trimEnd (c :: s) = c :: trimEnd s.
Proof.
  intros Hc. unfold trimEnd. cbn [rev].
  rewrite trimStart_app_last by exact Hc.
  rewrite rev_app_distr. reflexivity.
Qed.

Lemma trimStart_idem (s : jsstring) : trimStart (trimStart s) = trimStart s.
Proof.
  induction s as [| c s IH]; [reflexivity |].
  cbn [trimStart]. destruct (is_white_space c) eqn:Hc; [exact IH |].
  cbn [trimStart]. rewrite Hc. reflexivity.
Qed.

Lemma trimEnd_idem (s : jsstring) : trimEnd (trimEnd s) = trimEnd s.
Proof.
  unfold trimEnd. rewrite rev_involutive, trimStart_idem. reflexivity.
Qed.

(** A string without leading white space keeps none when its end is
    trimmed. *)
Lemma trimStart_trimEnd (s : jsstring) :
  trimStart s = s -> trimStart (trimEnd s) = trimEnd s.
Proof.
  destruct s as [| c s]; [reflexivity |].
  cbn [trimStart]. destruct (is_white_space c) eqn:Hc.
  - intros H. exfalso.
    assert (Hlen : (length (trimStart s) <= length s)%nat).
    { clear. induction s as [| d s IH]; cbn [trimStart]; [lia |].
      destruct (is_white_space d); cbn [length]; lia. }
    rewrite H in Hlen. cbn [length] in Hlen. lia.
  - intros _. rewrite trimEnd_cons by exact Hc.
    cbn [trimStart]. rewrite Hc. reflexivity.
Qed.

Lemma trim_start_fixed (s : jsstring) : trimStart (trim s) = trim s.
Proof. apply trimStart_trimEnd, trimStart_idem. Qed.

Lemma trim_end_fixed (s : jsstring) : trimEnd (trim s) = trim s.
Proof. apply trimEnd_idem. Qed.

Lemma trim_idem (s : jsstring) : trim (trim s) = trim s.
Proof.
  unfold trim at 1. rewrite trim_start_fixed. apply trim_end_fixed.
Qed.

Lemma trimEnd_app_keep (a b : jsstring) :
  a <> [] -> trimStart (rev a) = rev a -> trimEnd (b ++ a) = b ++ a.
Proof.
  intros Ha Hfix. unfold trimEnd. rewrite rev_app_distr.
  destruct (rev a) as [| c r] eqn:Hr.
  - apply (f_equal (@rev N)) in Hr. rewrite rev_involutive in Hr.
    cbn in Hr. contradiction.
  - cbn [app trimStart] in *.
    destruct (is_white_space c) eqn:Hc.
    + exfalso.
      assert (Hlen : (length (trimStart r) <= length r)%nat).
      { clear. induction r as [| d s IH]; cbn [trimStart]; [lia |].
        destruct (is_white_space d); cbn [length]; lia. }
      rewrite Hfix in Hlen. cbn [length] in Hlen. lia.
    + change (c :: r ++ rev b) with ((c :: r) ++ rev b).
      rewrite <- Hr, <- rev_app_distr, rev_involutive. reflexivity.
Qed.

Lemma trimEnd_fixed_rev (s : jsstring) :
  trimEnd s = s -> trimStart (rev s) = rev s.
Proof.
  unfold trimEnd. intros H. apply (f_equal (@rev N)) in H.
  rewrite rev_involutive in H. exact H.
Qed.

Lemma starts_with_app (p s : jsstring) : starts_with p (p ++ s) = true.
Proof.
  induction p as [| c p IH]; [reflexivity |].
  cbn [app starts_with]. rewrite N.eqb_refl. exact IH.
Qed.

Lemma normalizeUrl_has_scheme (url : jsstring) :
  starts_with (js "http://") (Site.normalizeUrl url) = true \/
  starts_with (js "https://") (Site.normalizeUrl url) = true.
Proof.
  unfold Site.normalizeUrl. cbn zeta.
  destruct (starts_with (js "http://") (trim url)) eqn:H1; cbn [negb andb].
  { rewrite H1. auto. }
  destruct (starts_with (js "https://") (trim url)) eqn:H2; cbn [negb andb].
  { rewrite H2. auto. }
  rewrite starts_with_app. auto.
Qed.

(** X1: the normalized URL always starts with http:// or https://.  When
    the trimmed input already starts with one of the two lower-case
    schemes, http:// as well as https://, the normalized URL is the trimmed
    input as it is (an https:// URL gets no second prefix, an http:// URL
    is not upgraded); in every other case it is https:// followed by the
    trimmed input. *)
Theorem normalizeUrl_scheme (url : jsstring) :
  (starts_with (js "http://") (Site.normalizeUrl url) = true \/
   starts_with (js "https://") (Site.normalizeUrl url) = true) /\
  (starts_with (js "http://") (trim url) = true ->
   Site.normalizeUrl url = trim url) /\
  (starts_with (js "https://") (trim url) = true ->
   Site.normalizeUrl url = trim url) /\
  (starts_with (js "http://") (trim url) = false ->
   starts_with (js "https://") (trim url) = false ->
   Site.normalizeUrl url = js "https://" ++ trim url).
Proof.
  split; [apply normalizeUrl_has_scheme |].
  unfold Site.normalizeUrl. cbn zeta.
  destruct (starts_with (js "http://") (trim url)),
           (starts_with (js "https://") (trim url)); cbn [negb andb];
    repeat split; intros; try reflexivity; discriminate.
Qed.

Example normalizeUrl_keeps_https :
  Site.normalizeUrl (js " https://x.y ") = js "https://x.y".
Proof. vm_compute. reflexivity. Qed.

(** X2: normalizing a URL twice gives what normalizing it once gives. *)
Theorem normalizeUrl_idempotent (url : jsstring) :
  Site.normalizeUrl (Site.normalizeUrl url) = Site.normalizeUrl url.
Proof.
  assert (Hfix : trim (Site.normalizeUrl url) = Site.normalizeUrl url).
  { unfold Site.normalizeUrl. cbn zeta.
    destruct (negb (starts_with (js "http://") (trim url))
              && negb (starts_with (js "https://") (trim url))).
    - unfold trim at 1.
      change (trimStart (js "https://" ++ trim url))
        with (js "https://" ++ trim url).
      destruct (trim url) as [| c t] eqn:Ht.
      + reflexivity.
      + rewrite <- Ht. apply trimEnd_app_keep.
        * rewrite Ht. discriminate.
        * apply trimEnd_fixed_rev, trim_end_fixed.
    - apply trim_idem. }
  pose proof (normalizeUrl_has_scheme url) as Hs.
  unfold Site.normalizeUrl at 1. cbn zeta. rewrite Hfix.
  destruct Hs as [-> | ->]; cbn [negb andb]; [reflexivity |].
  rewrite andb_false_r. reflexivity.
Qed.

Example normalize_examples :
  map Site.normalizeUrl
    [js "  example.com "; js "http://a.b"; js "HTTP://a.b"; []]
  = [js "https://example.com"; js "http://a.b"; js "https://HTTP://a.b";
     js "https://"].
Proof. vm_compute. reflexivity. Qed.

(** * The matcher *)

Lemma star_exec_reaches {A} (p : N -> bool) (k : jsstring -> option A)
    (s : jsstring) (x : A) :
  star_exec p k s = Some x ->
  exists n, (n <= length s)%nat /\
            List.Forall (fun c => p c = true) (firstn n s) /\
            k (skipn n s) = Some x.
Proof.
  induction s as [| c s IH]; cbn [star_exec].
  - intros H. exists 0%nat. cbn. auto.
  - destruct (p c) eqn:Hc.
    + destruct (star_exec p k s) as [y |] eqn:Hs.
      * intros [= ->]. destruct (IH eq_refl) as (n & Hn & Hf & Hk).
        exists (S n). cbn [length firstn skipn]. repeat split; [lia | | exact Hk].
        constructor; assumption.
      * intros H. exists 0%nat. cbn [length firstn skipn].
        repeat split; [lia | constructor | exact H].
    + intros H. exists 0%nat. cbn [length firstn skipn].
      repeat split; [lia | constructor | exact H].
Qed.

(** A successful match ends in a successful continuation. *)
Lemma exec_reaches {A} (r : regex) : forall (k : jsstring -> option A)
    (s : jsstring) (x : A),
  exec r k s = Some x -> exists y, k y = Some x.
Proof.
  induction r as [| p | r1 IH1 r2 IH2 | r1 IH1 r2 IH2 | p];
    intros k s x; cbn [exec].
  - eauto.
  - destruct s as [| c s]; [discriminate |].
    destruct (p c); [eauto | discriminate].
  - intros H. destruct (IH1 _ _ _ H) as (y & Hy). exact (IH2 _ _ _ Hy).
  - destruct (exec r1 k s) eqn:H1.
    + intros [= ->]. exact (IH1 _ _ _ H1).
    + apply IH2.
  - intros H. destruct (star_exec_reaches _ _ _ _ H) as (n & _ & _ & Hk). eauto.
Qed.

Lemma is_Some_None {A B} (o : option B) : is_Some (@None A) -> is_Some o.
Proof. intros [x H]. discriminate H. Qed.

(** A match that succeeds still succeeds under a continuation that succeeds
    wherever the first one did. *)
Lemma exec_succeeds_mono {A B} (r : regex) :
  forall (k1 : jsstring -> option A) (k2 : jsstring -> option B),
  (forall y, is_Some (k1 y) -> is_Some (k2 y)) ->
  forall s, is_Some (exec r k1 s) -> is_Some (exec r k2 s).
Proof.
  induction r as [| p | r1 IH1 r2 IH2 | r1 IH1 r2 IH2 | p];
    intros k1 k2 Hk s; cbn [exec].
  - apply Hk.
  - destruct s as [| c s]; [apply is_Some_None |].
    destruct (p c); [apply Hk | apply is_Some_None].
  - apply IH1. intros y. apply IH2. exact Hk.
  - specialize (IH1 k1 k2 Hk s). specialize (IH2 k1 k2 Hk s).
    destruct (exec r1 k1 s) as [x |].
    + intros _. destruct (IH1 ltac:(eauto)) as [y ->]. eauto.
    + intros H. destruct (exec r1 k2 s); [eauto | exact (IH2 H)].
  - induction s as [| c s IHs]; cbn [star_exec]; [apply Hk |].
    pose proof (Hk (c :: s)) as Hc.
    destruct (p c); [| exact Hc].
    destruct (star_exec p k1 s) as [x |].
    + intros _. destruct (IHs ltac:(eauto)) as [y ->]. eauto.
    + intros H. destruct (star_exec p k2 s); [eauto | exact (Hc H)].
Qed.

(** Whether a match succeeds depends only on where the continuation
    succeeds. *)
Lemma exec_succeeds_iff {A B} (r : regex)
    (k1 : jsstring -> option A) (k2 : jsstring -> option B) :
  (forall y, is_Some (k1 y) <-> is_Some (k2 y)) ->
  forall s, is_Some (exec r k1 s) <-> is_Some (exec r k2 s).
Proof.
  intros Hk s. split; apply exec_succeeds_mono; intros y; apply Hk.
Qed.

Lemma search_reaches {A} (f : jsstring -> option A) (s : jsstring) (x : A) :
  search f s = Some x -> exists s', f s' = Some x.
Proof.
  induction s as [| c s IH]; cbn [search].
  - destruct (f []) eqn:H; [intros [= ->]; eauto | discriminate].
  - destruct (f (c :: s)) eqn:H; [intros [= ->]; eauto | exact IH].
Qed.

(** Searching with a capture finds a match only where the plain test
    does. *)
Lemma search_test_mono {A} (f : jsstring -> option A) (r : regex) :
  (forall s', is_Some (f s') -> is_Some (exec_at r s')) ->
  forall s, is_Some (search f s) -> test r s = true.
Proof.
  intros Hf. induction s as [| c s IH]; cbn [search test].
  - specialize (Hf []). destruct (f []) as [x |].
    + intros _. destruct (Hf ltac:(eauto)) as [y ->]. reflexivity.
    + intros H. destruct (is_Some_None (@None A) H) as [y Hy]. discriminate Hy.
  - specialize (Hf (c :: s)). destruct (f (c :: s)) as [x |].
    + intros _. destruct (Hf ltac:(eauto)) as [y ->]. reflexivity.
    + intros H. destruct (exec_at r (c :: s)); [reflexivity | exact (IH H)].
Qed.

Lemma test_search_mono {A} (f : jsstring -> option A) (r : regex) :
  (forall s', is_Some (exec_at r s') -> is_Some (f s')) ->
  forall s, test r s = true -> is_Some (search f s).
Proof.
  intros Hf. induction s as [| c s IH]; cbn [search test].
  - specialize (Hf []). destruct (exec_at r []) as [n |]; [| discriminate].
    intros _. destruct (Hf ltac:(eauto)) as [y ->]. eauto.
  - specialize (Hf (c :: s)). destruct (exec_at r (c :: s)) as [n |].
    + intros _. destruct (Hf ltac:(eauto)) as [y ->]. eauto.
    + intros H. destruct (f (c :: s)); [eauto | exact (IH H)].
Qed.

Lemma search_test {A} (f : jsstring -> option A) (r : regex) :
  (forall s', is_Some (f s') <-> is_Some (exec_at r s')) ->
  forall s, is_Some (search f s) <-> test r s = true.
Proof.
  intros Hf s. split.
  - apply search_test_mono. intros s'. apply Hf.
  - apply test_search_mono. intros s'. apply Hf.
Qed.

(** One step of a sequence, and the end of one. *)
Ltac exec_seq :=
  repeat match goal with
         | |- context [exec (Seq ?a ?b) ?k ?s] =>
             change (exec (Seq a b) k s) with (exec a (exec b k) s)
         | |- context [exec Eps ?k ?s] =>
             change (exec Eps k s) with (k s); cbv beta
         end.

Ltac exec_same_head := exec_seq; apply exec_succeeds_iff; intros ?.

Lemma titleMatch_test (html : jsstring) :
  is_Some (titleMatch html) <-> test re_title html = true.
Proof.
  apply search_test. intros s. unfold exec_at, re_title, Plus.
  cbn [cat fold_right].
  do 6 exec_same_head. exec_seq.
  split; intros _; eexists; reflexivity.
Qed.

Ltac exec_mono_head := exec_seq; apply exec_succeeds_mono; intros ?.

(** A match of the longer description pattern starts with a match of the
    shorter one the SEO check uses. *)
Lemma descMatch_test (html : jsstring) :
  is_Some (descMatch html) -> test re_description html = true.
Proof.
  apply search_test_mono. intros s. unfold exec_at, re_description.
  cbn [cat fold_right].
  do 6 exec_mono_head. exec_seq. intros _. eexists. reflexivity.
Qed.

(** What a group made of one or more units of a class captures. *)
Lemma plus_capture (p : N -> bool) (after : regex) (entered x : jsstring) :
  exec (Plus p)
    (fun closed => exec after (fun _ => Some (capture entered closed)) closed)
    entered = Some x ->
  x <> [] /\ List.Forall (fun c => p c = true) x.
Proof.
  unfold Plus. cbn [exec].
  destruct entered as [| d e]; [discriminate |].
  destruct (p d) eqn:Hd; [| discriminate].
  intros H. apply star_exec_reaches in H as (n & Hn & Hf & Hk).
  apply exec_reaches in Hk as (y & Hy). injection Hy as <-.
  unfold capture. rewrite length_skipn. cbn [length].
  replace (S (length e) - (length e - n))%nat with (S n) by lia.
  cbn [firstn]. split; [discriminate |]. constructor; assumption.
Qed.

Lemma titleMatch_capture (html x : jsstring) :
  titleMatch html = Some x ->
  x <> [] /\ List.Forall (fun c => c <> 60%N) x.
Proof.
  intros H. apply search_reaches in H as (s & H).
  apply exec_reaches in H as (entered & H).
  apply plus_capture in H as [Hne Hf]. split; [exact Hne |].
  eapply List.Forall_impl; [| exact Hf].
  intros c Hc E. subst c. vm_compute in Hc. discriminate Hc.
Qed.

Lemma descMatch_capture (html x : jsstring) :
  descMatch html = Some x ->
  x <> [] /\ List.Forall (fun c => c <> 34%N /\ c <> 39%N) x.
Proof.
  intros H. apply search_reaches in H as (s & H).
  apply exec_reaches in H as (entered & H).
  apply plus_capture in H as [Hne Hf]. split; [exact Hne |].
  eapply List.Forall_impl; [| exact Hf].
  intros c Hc. split; intros E; subst c; vm_compute in Hc; discriminate Hc.
Qed.

Lemma Forall_trimStart (P : N -> Prop) (s : jsstring) :
  List.Forall P s -> List.Forall P (trimStart s).
Proof.
  induction 1 as [| c s Hc Hs IH]; cbn [trimStart]; [constructor |].
  destruct (is_white_space c); [exact IH | constructor; assumption].
Qed.

Lemma Forall_trim (P : N -> Prop) (s : jsstring) :
  List.Forall P s -> List.Forall P (trim s).
Proof.
  intros H. unfold trim, trimEnd.
  apply List.Forall_rev, Forall_trimStart, List.Forall_rev, Forall_trimStart, H.
Qed.

(** * SEO issues, one by one *)

Lemma seo_issues_eq (html : jsstring) :
  issues (SEO.analyzeSEO html) =
  (if test re_title html then [] else [js "Missing page title"])
  ++ (if test re_description html then [] else [js "Missing meta description"])
  ++ (if test re_h1 html then [] else [js "Missing H1 tag"])
  ++ (if test re_viewport html then [] else [js "Missing viewport meta tag"])
  ++ (if (0 <? length (SEO.imagesWithoutAlt html))%nat
      then [Number_toString (length (SEO.imagesWithoutAlt html))
            ++ js " images missing alt attributes"]
      else []).
Proof.
  unfold SEO.analyzeSEO, SEO.checks, SEO.check_images, SEO.check_viewport,
    SEO.check_h1, SEO.check_description, SEO.check_title, SEO.start.
  cbn zeta.
  destruct (test re_title html), (test re_description html),
    (test re_h1 html), (test re_viewport html),
    (0 <? length (SEO.imagesWithoutAlt html))%nat; reflexivity.
Qed.

Lemma images_issue_long (n : nat) :
  (30 <= length (Number_toString n ++ js " images missing alt attributes"))%nat.
Proof.
  rewrite length_app.
  change (length (js " images missing alt attributes")) with 30%nat. lia.
Qed.

Lemma in_seo_issues_title (html : jsstring) :
  In (js "Missing page title") (issues (SEO.analyzeSEO html))
  <-> test re_title html = false.
Proof.
  rewrite seo_issues_eq.
  pose proof (images_issue_long (length (SEO.imagesWithoutAlt html))) as Hlen.
  destruct (test re_title html), (test re_description html),
    (test re_h1 html), (test re_viewport html),
    (0 <? length (SEO.imagesWithoutAlt html))%nat;
    cbn [app In]; split; intros H; try discriminate H; auto;
    repeat (destruct H as [H | H]; [try discriminate H |]); try contradiction;
    rewrite H in Hlen; vm_compute in Hlen; lia.
Qed.

Lemma in_seo_issues_description (html : jsstring) :
  In (js "Missing meta description") (issues (SEO.analyzeSEO html))
  <-> test re_description html = false.
Proof.
  rewrite seo_issues_eq.
  pose proof (images_issue_long (length (SEO.imagesWithoutAlt html))) as Hlen.
  destruct (test re_title html), (test re_description html),
    (test re_h1 html), (test re_viewport html),
    (0 <? length (SEO.imagesWithoutAlt html))%nat;
    cbn [app In]; split; intros H; try discriminate H; auto;
    repeat (destruct H as [H | H]; [try discriminate H |]); try contradiction;
    rewrite H in Hlen; vm_compute in Hlen; lia.
Qed.

(** X3: the handler extracts no title exactly when the SEO check reports
    the missing page title. *)
Theorem title_agrees_with_seo (html : jsstring) :
  title_of html = None
  <-> In (js "Missing page title") (issues (SEO.analyzeSEO html)).
Proof.
  rewrite in_seo_issues_title. unfold title_of.
  pose proof (titleMatch_test html) as H.
  destruct (titleMatch html) as [x |]; cbn [fmap option_fmap option_map].
  - assert (test re_title html = true) as -> by (apply H; eauto).
    split; discriminate.
  - destruct (test re_title html); [| tauto].
    destruct (proj2 H eq_refl) as [y Hy]. discriminate Hy.
Qed.

(** X4: an extracted title holds no less-than sign and an extracted
    description no quote character, and both come without leading or
    trailing white space. *)
Theorem extracted_texts_clean (html : jsstring) :
  (forall t, title_of html = Some t ->
     List.Forall (fun c => c <> 60%N) t /\ trim t = t) /\
  (forall d, description_of html = Some d ->
     List.Forall (fun c => c <> 34%N /\ c <> 39%N) d /\ trim d = d).
Proof.
  unfold title_of, description_of. split.
  - intros t. destruct (titleMatch html) as [x |] eqn:H; [| discriminate].
    intros [= <-]. apply titleMatch_capture in H as [_ Hf].
    split; [apply Forall_trim, Hf | apply trim_idem].
  - intros d. destruct (descMatch html) as [x |] eqn:H; [| discriminate].
    intros [= <-]. apply descMatch_capture in H as [_ Hf].
    split; [apply Forall_trim, Hf | apply trim_idem].
Qed.

(** X5: whenever the handler extracts a description, the SEO check does not
    report a missing meta description. *)
Theorem description_implies_seo_ok (html : jsstring) :
  is_Some (description_of html) ->
  ~ In (js "Missing meta description") (issues (SEO.analyzeSEO html)).
Proof.
  unfold description_of. intros H.
  rewrite in_seo_issues_description.
  rewrite (descMatch_test html); [discriminate |].
  destruct (descMatch html); [eauto |].
  destruct H as [x H]. discriminate H.
Qed.

Example extraction_examples :
  title_of (js "<html><TITLE lang='en'>  Hello World </TITLE></html>")
    = Some (js "Hello World")
  /\ title_of (js "<title> </title>") = Some []
  /\ title_of (js "<title></title>") = None
  /\ description_of
       (js "<meta name='description' data-x content='  Fast pages '>")
     = Some (js "Fast pages")
  /\ description_of (js "<meta content='Fast' name='description'>") = None
  /\ test re_description (js "<meta content='Fast' name='description'>")
     = true.
Proof. vm_compute. repeat split. Qed.

(** * The table of analyses *)

Lemma first_with_domain_none (d : jsstring) (table : list Store.document) :
  forall id,
  Store.first_with_domain d id table = None <->
  ~ In d (map Store.domain table).
Proof.
  induction table as [| doc rest IH]; intros id; cbn [Store.first_with_domain map In].
  - tauto.
  - destruct (decide (Store.domain doc = d)) as [E | E].
    + split; [discriminate | intros H; exfalso; apply H; left; exact E].
    + rewrite IH. tauto.
Qed.

Lemma first_with_domain_some (d : jsstring) (table : list Store.document) :
  forall id i doc,
  Store.first_with_domain d id table = Some (i, doc) ->
  exists j, i = (id + j)%nat /\ table !! j = Some doc /\ Store.domain doc = d /\
            ~ In d (map Store.domain (firstn j table)).
Proof.
  induction table as [| doc0 rest IH]; intros id i doc;
    cbn [Store.first_with_domain]; [discriminate |].
  destruct (decide (Store.domain doc0 = d)) as [E | E].
  - intros [= <- <-]. exists 0%nat. cbn. repeat split; [lia | exact E | tauto].
  - intros H. destruct (IH _ _ _ H) as (j & -> & Hj & Hd & Hn).
    exists (S j). cbn [lookup list_lookup firstn map In].
    repeat split; [lia | exact Hj | exact Hd | tauto].
Qed.

Lemma getByDomain_some (table : list Store.document) (d : jsstring)
    (id : nat) (doc : Store.document) :
  Store.getByDomain table d = Some (id, doc) ->
  table !! id = Some doc /\ Store.domain doc = d /\
  ~ In d (map Store.domain (firstn id table)).
Proof.
  intros H. apply first_with_domain_some in H as (j & -> & H).
  exact H.
Qed.

Lemma map_domain_insert (table : list Store.document) (id : nat)
    (old new : Store.document) :
  table !! id = Some old -> Store.domain new = Store.domain old ->
  map Store.domain (<[id := new]> table) = map Store.domain table.
Proof.
  revert id. induction table as [| doc rest IH]; intros [| id] H E;
    cbn in *; try discriminate.
  - injection H as ->. now rewrite E.
  - f_equal. apply IH; assumption.
Qed.

(** The step never fails; it keeps the stored domains in place and adds the
    domain at the end exactly when it is new. *)
Lemma save_domains (table : list Store.document) (d : jsstring)
    (r : Store.fields) (now : Z) :
  exists table',
    Store.save table d r now = Some table' /\
    (In d (map Store.domain table) ->
       map Store.domain table' = map Store.domain table) /\
    (~ In d (map Store.domain table) ->
       table' = table ++ [Store.Document d r (Number_of_Z 1) now]).
Proof.
  unfold Store.save.
  destruct (Store.getByDomain table d) as [[id doc] |] eqn:Hg.
  - apply getByDomain_some in Hg as (Hl & Hd & _).
    unfold Store.updateAnalysis. rewrite Hl. eexists. split; [reflexivity |].
    split.
    + intros _. apply (map_domain_insert _ _ doc); [exact Hl | reflexivity].
    + intros Hn. exfalso. apply Hn. rewrite <- Hd.
      apply in_map. apply list_elem_of_In. eapply list_elem_of_lookup_2, Hl.
  - apply first_with_domain_none in Hg.
    eexists. split; [reflexivity |]. split; [contradiction | reflexivity].
Qed.

Lemma NoDup_snoc {A} (l : list A) (x : A) :
  List.NoDup l -> ~ In x l -> List.NoDup (l ++ [x]).
Proof.
  induction 1 as [| y l Hy Hl IH]; intros Hx; cbn [app].
  - constructor; [intros [] | constructor].
  - constructor.
    + rewrite in_app_iff. cbn [In]. intros [H | [H | []]]; [tauto |].
      subst. apply Hx. left. reflexivity.
    + apply IH. intros H. apply Hx. right. exact H.
Qed.

Lemma save_NoDup (table table' : list Store.document) (d : jsstring)
    (r : Store.fields) (now : Z) :
  List.NoDup (map Store.domain table) ->
  Store.save table d r now = Some table' ->
  List.NoDup (map Store.domain table').
Proof.
  intros Hnd Hs.
  destruct (save_domains table d r now) as (t & Hs' & Hin & Hnew).
  assert (t = table') by congruence. subst t.
  destruct (in_dec (fun a b => decide (a = b)) d (map Store.domain table))
    as [Hd | Hd].
  - rewrite (Hin Hd). exact Hnd.
  - rewrite (Hnew Hd), map_app. apply NoDup_snoc; assumption.
Qed.

(** X6: on every table, with or without duplicates, the save step never
    fails (the error of [updateAnalysis] is never thrown), the saved domain
    is stored afterwards and no stored domain disappears; and if every
    domain is stored at most once before the step, so it is afterwards. *)
Theorem save_keeps_domains_unique (table : list Store.document)
    (d : jsstring) (r : Store.fields) (now : Z) :
  exists table',
    Store.save table d r now = Some table' /\
    In d (map Store.domain table') /\
    (forall d', In d' (map Store.domain table) ->
                In d' (map Store.domain table')) /\
    (List.NoDup (map Store.domain table) ->
     List.NoDup (map Store.domain table')).
Proof.
  destruct (save_domains table d r now) as (table' & Hs & Hin & Hnew).
  exists table'. split; [exact Hs |].
  destruct (in_dec (fun a b => decide (a = b)) d (map Store.domain table))
    as [Hd | Hd].
  - rewrite (Hin Hd). auto.
  - rewrite (Hnew Hd), map_app. cbn [map Store.domain].
    split; [apply in_or_app; right; left; reflexivity |]. split.
    + intros d' H. apply in_or_app. left. exact H.
    + intros Hnd. apply NoDup_snoc; assumption.
Qed.

(** * Numbers: adding one to a counter *)

Lemma shr_record_eq (x : shr_record) (m : Z) (r s : bool) :
  shr_m x = m -> shr_r x = r -> shr_s x = s -> x = Build_shr_record m r s.
Proof. destruct x. cbn. intros -> -> ->. reflexivity. Qed.

(** Shifting out zero bits loses nothing. *)
Lemma shr_iter_exact (k : nat) (m : Z) :
  0 <= m -> m mod 2 ^ Z.of_nat (S k) = 0 ->
  Nat.iter (S k) shr_1 (Build_shr_record m false false)
  = Build_shr_record (m / 2 ^ Z.of_nat (S k)) false false.
Proof.
  intros Hm. induction k as [| k IH]; intros Hz.
  - change (Nat.iter 1 shr_1 ?x) with (shr_1 x).
    destruct (shr_1_m (Build_shr_record m false false) Hm) as (H1 & H2 & H3).
    cbn [shr_m shr_r shr_s] in *. change (2 ^ Z.of_nat 1) with 2 in *.
    apply shr_record_eq; [exact H1 | | exact H3].
    rewrite H2. rewrite Zmod_odd in Hz. destruct (Z.odd m); [discriminate | reflexivity].
  - change (Nat.iter (S (S k)) shr_1 ?x) with (shr_1 (Nat.iter (S k) shr_1 x)).
    assert (Hp : 0 < 2 ^ Z.of_nat (S k)) by (apply Z.pow_pos_nonneg; lia).
    assert (Hsucc : 2 ^ Z.of_nat (S (S k)) = 2 ^ Z.of_nat (S k) * 2).
    { rewrite (Nat2Z.inj_succ (S k)), Z.pow_succ_r by lia. lia. }
    pose proof (mod_pow2_succ m (Z.of_nat (S k)) ltac:(lia)) as Hsplit.
    replace (Z.of_nat (S k) + 1) with (Z.of_nat (S (S k))) in Hsplit by lia.
    pose proof (Z.mod_pos_bound m (2 ^ Z.of_nat (S k)) Hp) as B1.
    pose proof (Z.mod_pos_bound (m / 2 ^ Z.of_nat (S k)) 2 ltac:(lia)) as B2.
    assert (Hlow : m mod 2 ^ Z.of_nat (S k) = 0) by nia.
    assert (Hbit : (m / 2 ^ Z.of_nat (S k)) mod 2 = 0) by nia.
    rewrite (IH Hlow).
    assert (Hq : 0 <= m / 2 ^ Z.of_nat (S k)) by (apply Z.div_pos; lia).
    destruct (shr_1_m (Build_shr_record (m / 2 ^ Z.of_nat (S k)) false false) Hq)
      as (H1 & H2 & H3).
    cbn [shr_m shr_r shr_s] in *.
    apply shr_record_eq; [| | exact H3].
    + rewrite H1, Z.div_div by lia. rewrite Hsucc. reflexivity.
    + rewrite H2. rewrite Zmod_odd in Hbit.
      destruct (Z.odd (m / 2 ^ Z.of_nat (S k))); [discriminate | reflexivity].
Qed.

Lemma digits2_scaled (k M : positive) (j : Z) :
  0 <= j -> Z.pos M = Z.pos k * 2 ^ j ->
  Z.pos (digits2_pos M) = Z.pos (digits2_pos k) + j.
Proof.
  intros Hj HM. apply digits2_unique. rewrite HM.
  pose proof (digits2_bounds k) as [B1 B2].
  replace (Z.pos (digits2_pos k) + j - 1) with (Z.pos (digits2_pos k) - 1 + j) by lia.
  rewrite !Z.pow_add_r by lia.
  assert (0 < 2 ^ j) by (apply Z.pow_pos_nonneg; lia). nia.
Qed.

(** An integer below [2^53] written with trailing zero bits rounds to the
    number of that integer. *)
Lemma binary_round_scaled (k M : positive) (j : Z) :
  Z.pos k < 2 ^ 53 -> 0 <= j <= 60 ->
  53 <= Z.pos (digits2_pos k) + j ->
  Z.pos M = Z.pos k * 2 ^ j ->
  binary_round prec emax false M (- j) = Number_of_Z (Z.pos k).
Proof.
  intros Hk Hj Hlong HM.
  set (D := Z.pos (digits2_pos k)) in *.
  assert (HD : 0 < D <= 53).
  { split; [unfold D; lia |].
    pose proof (pow2_digits_range k 0 53 ltac:(lia) ltac:(change (2^0) with 1; lia)).
    fold D in H. lia. }
  pose proof (digits2_scaled k M j ltac:(lia) HM) as HdM. fold D in HdM.
  destruct (Number_of_Z_pos k ltac:(fold D; lia)) as (mz & -> & Hmz & Hdz).
  fold D in Hmz |- *.
  unfold binary_round, shl_align, fexp. rewrite HdM.
  replace (Z.max (D + j + - j - prec) (SpecFloat.emin prec emax) - - j)
    with (D - 53 + j)
    by (change prec with 53; change (SpecFloat.emin 53 emax) with (-1074); lia).
  destruct (D - 53 + j) as [| sh | sh] eqn:Hsh; try lia.
  - (* already 53 bits *)
    rewrite bra_exact by lia.
    f_equal; [| lia]. apply Pos2Z.inj. rewrite HM, Hmz. f_equal. f_equal. lia.
  - (* longer: shift the zero bits out *)
    unfold binary_round_aux.
    rewrite (shr_fexp_shift M (- j) sh) by lia.
    destruct (Pos2Nat.is_succ sh) as [n Hn]. rewrite Hn.
    assert (Hshn : Z.of_nat (S n) = Z.pos sh) by lia.
    assert (Hsplit : 2 ^ j = 2 ^ (j - Z.pos sh) * 2 ^ Z.pos sh).
    { rewrite <- Z.pow_add_r by lia. f_equal. lia. }
    assert (Hp : 0 < 2 ^ Z.pos sh) by (apply Z.pow_pos_nonneg; lia).
    assert (Hdiv : Z.pos M / 2 ^ Z.pos sh = Z.pos k * 2 ^ (j - Z.pos sh)).
    { rewrite HM, Hsplit, Z.mul_assoc. apply Z.div_mul. lia. }
    assert (Hmod : Z.pos M mod 2 ^ Z.pos sh = 0).
    { rewrite HM, Hsplit, Z.mul_assoc. apply Z.mod_mul. lia. }
    rewrite shr_iter_exact by (rewrite ?Hshn; lia || exact Hmod).
    rewrite Hshn, Hdiv. cbn [shr_m loc_of_shr_record round_nearest_even].
    assert (Hval : Z.pos k * 2 ^ (j - Z.pos sh) = Z.pos mz).
    { rewrite Hmz. f_equal. f_equal. lia. }
    rewrite Hval, shr_fexp_keep by lia. cbn [shr_m].
    change (emax - prec) with 971.
    destruct (Z.leb_spec (- j + Z.pos sh) 971); [| lia].
    f_equal. lia.
Qed.

Lemma shl_align_down (m : positive) (e e' : Z) :
  e' <= e ->
  exists m', shl_align m e e' = (m', e') /\ Z.pos m' = Z.pos m * 2 ^ (e - e').
Proof.
  intros He. unfold shl_align.
  destruct (e' - e) as [| k | k] eqn:Hk; try lia.
  - assert (e' = e) by lia. subst e'. exists m. split; [reflexivity |].
    rewrite Z.sub_diag. lia.
  - exists (Pos.iter xO m k). split; [reflexivity |].
    rewrite pos_iter_xO. f_equal. f_equal. lia.
Qed.

(** Adding one to a counter below [2^53 - 1] is exact. *)
Lemma Number_add_one (n : Z) :
  0 <= n -> n + 1 < 2 ^ 53 ->
  Number_add (Number_of_Z n) (Number_of_Z 1) = Number_of_Z (n + 1).
Proof.
  intros Hn Hlt. destruct n as [| p |]; [reflexivity | | lia].
  set (d := Z.pos (digits2_pos p)).
  assert (Hd : 0 < d <= 53).
  { split; [unfold d; lia |].
    pose proof (pow2_digits_range p 0 53 ltac:(lia) ltac:(change (2^0) with 1; lia)).
    fold d in H. lia. }
  destruct (Number_of_Z_pos p ltac:(fold d; lia)) as (mz & -> & Hmz & Hdz).
  fold d in Hmz |- *.
  change (Number_of_Z 1) with (S754_finite false 4503599627370496 (-52)).
  unfold Number_add, SF64add, SFadd.
  replace (Z.min (d - 53) (-52)) with (-52) by lia.
  destruct (shl_align_down mz (d - 53) (-52) ltac:(lia)) as (a & -> & Ha).
  destruct (shl_align_down 4503599627370496 (-52) (-52) ltac:(lia))
    as (b & -> & Hb).
  cbn [fst cond_Zopp]. rewrite Z.sub_diag in Hb.
  unfold binary_normalize.
  assert (Hsum : Z.pos a + Z.pos b = Z.pos (p + 1) * 2 ^ 52).
  { rewrite Ha, Hb, Hmz, <- Z.mul_assoc, <- Z.pow_add_r by lia.
    replace (53 - d + (d - 53 - -52)) with 52 by lia.
    change (Z.pos 4503599627370496 * 2 ^ 0) with (2 ^ 52). lia. }
  change (Z.pos a + Z.pos b) with (Z.pos (a + b)) in *.
  replace (Z.pos p + 1) with (Z.pos (p + 1)) by lia.
  apply (binary_round_scaled (p + 1) (a + b) 52); lia.
Qed.

(** * Saving an analysis *)

Lemma first_with_domain_app (d : jsstring) (t1 t2 : list Store.document) :
  forall k,
  Store.first_with_domain d k (t1 ++ t2) =
  match Store.first_with_domain d k t1 with
  | Some x => Some x
  | None => Store.first_with_domain d (k + length t1) t2
  end.
Proof.
  induction t1 as [| doc t1 IH]; intros k; cbn [app Store.first_with_domain length].
  - rewrite Nat.add_0_r. reflexivity.
  - destruct (decide (Store.domain doc = d)); [reflexivity |].
    rewrite IH. replace (S k + length t1)%nat with (k + S (length t1))%nat by lia.
    reflexivity.
Qed.

Lemma first_with_domain_insert_other (d : jsstring) (doc' : Store.document)
    (table : list Store.document) :
  forall k id,
  Store.domain doc' <> d ->
  (forall old, table !! id = Some old -> Store.domain old <> d) ->
  Store.first_with_domain d k (<[id := doc']> table)
  = Store.first_with_domain d k table.
Proof.
  induction table as [| doc0 rest IH]; intros k id Hn Hold; [reflexivity |].
  destruct id as [| id]; cbn [insert list_insert Store.first_with_domain].
  - specialize (Hold doc0 eq_refl).
    destruct (decide (Store.domain doc' = d)); [contradiction |].
    destruct (decide (Store.domain doc0 = d)); [contradiction | reflexivity].
  - destruct (decide (Store.domain doc0 = d)); [reflexivity |].
    apply IH; [exact Hn |]. intros old H. apply Hold. exact H.
Qed.

Lemma first_with_domain_insert_same (d : jsstring) (doc' : Store.document)
    (table : list Store.document) :
  Store.domain doc' = d ->
  forall k i doc,
  Store.first_with_domain d k table = Some (i, doc) ->
  Store.first_with_domain d k (<[(i - k)%nat := doc']> table) = Some (i, doc').
Proof.
  intros Hd. induction table as [| doc0 rest IH]; intros k i doc;
    cbn [Store.first_with_domain]; [discriminate |].
  destruct (decide (Store.domain doc0 = d)) as [E | E].
  - intros [= <- <-]. rewrite Nat.sub_diag. cbn [insert list_insert Store.first_with_domain].
    destruct (decide (Store.domain doc' = d)); [reflexivity | contradiction].
  - intros H. pose proof (first_with_domain_some _ _ _ _ _ H) as (j & -> & _).
    replace (S k + j - k)%nat with (S j) by lia.
    cbn [insert list_insert Store.first_with_domain].
    destruct (decide (Store.domain doc0 = d)); [contradiction |].
    specialize (IH _ _ _ H). replace (S k + j - S k)%nat with j in IH by lia.
    exact IH.
Qed.

(** The patch of a stored domain, as the lookups see it. *)
Lemma update_existing (table : list Store.document) (d : jsstring)
    (r : Store.fields) (now : Z) (id : nat) (doc : Store.document) :
  Store.getByDomain table d = Some (id, doc) ->
  let doc' :=
    Store.Document d (Store.patch_fields (Store.content doc) r)
      (Number_add (Store.searchCount doc) (Number_of_Z 1)) now in
  Store.save table d r now = Some (<[id := doc']> table) /\
  Store.getByDomain (<[id := doc']> table) d = Some (id, doc') /\
  (forall d', d' <> d ->
     Store.getByDomain (<[id := doc']> table) d' = Store.getByDomain table d').
Proof.
  intros Hg. cbn zeta.
  pose proof (getByDomain_some _ _ _ _ Hg) as (Hl & Hd & _).
  unfold Store.save. rewrite Hg. unfold Store.updateAnalysis. rewrite Hl, Hd.
  split; [reflexivity |]. split.
  - unfold Store.getByDomain in *.
    pose proof (first_with_domain_insert_same d
                  (Store.Document d (Store.patch_fields (Store.content doc) r)
                     (Number_add (Store.searchCount doc) (Number_of_Z 1)) now)
                  table eq_refl _ _ _ Hg) as H.
    rewrite Nat.sub_0_r in H. exact H.
  - intros d' Hd'. unfold Store.getByDomain.
    apply first_with_domain_insert_other; cbn [Store.domain]; [congruence |].
    intros old Hold. rewrite Hl in Hold. injection Hold as <-. congruence.
Qed.

(** The insertion of a new domain, as the lookups see it. *)
Lemma append_new (table : list Store.document) (doc : Store.document) :
  Store.getByDomain table (Store.domain doc) = None ->
  Store.getByDomain (table ++ [doc]) (Store.domain doc)
    = Some (length table, doc) /\
  (forall d', d' <> Store.domain doc ->
     Store.getByDomain (table ++ [doc]) d' = Store.getByDomain table d').
Proof.
  intros Hg. unfold Store.getByDomain in *. split.
  - rewrite first_with_domain_app, Hg. cbn [Store.first_with_domain].
    destruct (decide (Store.domain doc = Store.domain doc));
      [reflexivity | contradiction].
  - intros d' Hd'. rewrite first_with_domain_app.
    destruct (Store.first_with_domain d' 0 table); [reflexivity |].
    cbn [Store.first_with_domain].
    destruct (decide (Store.domain doc = d')); [congruence | reflexivity].
Qed.

Lemma patch_fields_patched (old new : Store.fields) :
  patched old new (Store.patch_fields old new).
Proof.
  unfold patched, Store.patch_fields. cbn.
  repeat split; try reflexivity.
  - intros t ->. reflexivity.
  - intros ->. reflexivity.
  - intros t ->. reflexivity.
  - intros ->. reflexivity.
Qed.

(** X7: saving a stored domain whose counter is a number n below 2^53 - 1
    patches the same record: the table keeps its length; the record keeps
    its identifier and its domain, gets counter n + 1 and the new time; it
    holds the title and the description of the new analysis where that has
    one and keeps the stored one where it has none, and every other field
    is the one of the new analysis; every other record and the lookup of
    every other domain is unchanged. *)
Theorem save_existing_domain (table : list Store.document) (d : jsstring)
    (r : Store.fields) (now : Z) (id : nat) (doc : Store.document) (n : Z) :
  Store.getByDomain table d = Some (id, doc) ->
  Store.searchCount doc = Number_of_Z n ->
  0 <= n -> n + 1 < 2 ^ 53 ->
  exists table' doc',
    Store.save table d r now = Some table' /\
    length table' = length table /\
    Store.getByDomain table' d = Some (id, doc') /\
    Store.domain doc' = d /\
    Store.searchCount doc' = Number_of_Z (n + 1) /\
    Store.lastAnalyzed doc' = now /\
    patched (Store.content doc) r (Store.content doc') /\
    (forall j, j <> id -> table' !! j = table !! j) /\
    (forall d', d' <> d ->
       Store.getByDomain table' d' = Store.getByDomain table d').
Proof.
  intros Hg Hc Hn Hlt.
  destruct (update_existing table d r now id doc Hg) as (Hs & Hsame & Hother).
  rewrite Hc, Number_add_one in Hs, Hsame, Hother by assumption.
  eexists _, _. split; [exact Hs |]. split; [apply length_insert |].
  split; [exact Hsame |]. cbn [Store.domain Store.searchCount
                               Store.lastAnalyzed Store.content].
  split; [reflexivity |]. split; [reflexivity |]. split; [reflexivity |].
  split; [apply patch_fields_patched |]. split; [| exact Hother].
  intros j Hj. apply list_lookup_insert_ne. congruence.
Qed.

(** X8: saving a domain that is not stored appends one record with counter 1
    and leaves every other record and lookup unchanged. *)
Theorem save_new_domain (table : list Store.document) (d : jsstring)
    (r : Store.fields) (now : Z) :
  Store.getByDomain table d = None ->
  let doc := Store.Document d r (Number_of_Z 1) now in
  Store.save table d r now = Some (table ++ [doc]) /\
  Store.getByDomain (table ++ [doc]) d = Some (length table, doc) /\
  (forall id, id <> length table -> (table ++ [doc]) !! id = table !! id) /\
  (forall d', d' <> d ->
     Store.getByDomain (table ++ [doc]) d' = Store.getByDomain table d').
Proof.
  intros Hg. cbn zeta. unfold Store.save. rewrite Hg.
  split; [reflexivity |].
  destruct (append_new table (Store.Document d r (Number_of_Z 1) now) Hg)
    as [Hsame Hother].
  split; [exact Hsame |]. split; [| exact Hother].
  intros id Hid. destruct (Nat.lt_ge_cases id (length table)) as [Hlt | Hge].
  - apply lookup_app_l. exact Hlt.
  - rewrite lookup_app_r by exact Hge.
    rewrite (lookup_ge_None_2 table) by exact Hge.
    destruct (id - length table)%nat eqn:E; [lia | reflexivity].
Qed.

Lemma analyses_of_snoc (d d0 : jsstring) (r : Store.fields) (now : Z)
    (done : list (jsstring * Store.fields * Z)) :
  analyses_of d (done ++ [(d0, r, now)])
  = (analyses_of d done + (if decide (d0 = d) then 1 else 0))%nat.
Proof.
  unfold analyses_of. rewrite List.filter_app, length_app.
  cbn [List.filter fst]. destruct (decide (d0 = d)) as [E | E].
  - rewrite bool_decide_eq_true_2 by exact E. reflexivity.
  - rewrite bool_decide_eq_false_2 by exact E. reflexivity.
Qed.

Lemma analyses_of_le (d : jsstring)
    (steps : list (jsstring * Store.fields * Z)) :
  (analyses_of d steps <= length steps)%nat.
Proof. unfold analyses_of. apply List.filter_length_le. Qed.

Lemma save_counters_exact (table : list Store.document)
    (done : list (jsstring * Store.fields * Z))
    (d0 : jsstring) (r : Store.fields) (now : Z) :
  counters_exact table done ->
  Z.of_nat (length done) + 1 < 2 ^ 53 ->
  exists table',
    Store.save table d0 r now = Some table' /\
    counters_exact table' (done ++ [(d0, r, now)]).
Proof.
  intros [Hnd Hinv] Hlen.
  destruct (save_domains table d0 r now) as (table' & Hs & _).
  exists table'. split; [exact Hs |].
  split; [exact (save_NoDup _ _ _ _ _ Hnd Hs) |].
  intros d. rewrite analyses_of_snoc.
  pose proof (Hinv d0) as H0.
  destruct (Store.getByDomain table d0) as [[id doc] |] eqn:Hg.
  - destruct H0 as [Hge Hc].
    pose proof (analyses_of_le d0 done) as Hle.
    destruct (update_existing table d0 r now id doc Hg) as (Hs2 & Hsame & Hother).
    rewrite Hc, Number_add_one in Hs2, Hsame, Hother by lia.
    assert (E : table' = <[id := Store.Document d0
                  (Store.patch_fields (Store.content doc) r)
                  (Number_of_Z (Z.of_nat (analyses_of d0 done) + 1)) now]> table)
      by congruence.
    subst table'.
    destruct (decide (d0 = d)) as [<- | Hne].
    + rewrite Hsame. cbn [Store.searchCount]. split; [lia |].
      f_equal. lia.
    + rewrite Hother by congruence. specialize (Hinv d).
      rewrite Nat.add_0_r. exact Hinv.
  - assert (E : table' = table ++ [Store.Document d0 r (Number_of_Z 1) now]).
    { unfold Store.save, Store.createAnalysis in Hs. rewrite Hg in Hs.
      cbn [snd] in Hs. congruence. }
    subst table'.
    destruct (append_new table (Store.Document d0 r (Number_of_Z 1) now) Hg)
      as [Hsame Hother].
    cbn [Store.domain] in Hsame, Hother.
    destruct (decide (d0 = d)) as [<- | Hne].
    + rewrite Hsame, H0. cbn [Store.searchCount]. split; [lia | reflexivity].
    + rewrite Hother by congruence. specialize (Hinv d).
      rewrite Nat.add_0_r. exact Hinv.
Qed.

Lemma run_saves_counters_exact (rest : list (jsstring * Store.fields * Z)) :
  forall done table,
  counters_exact table done ->
  Z.of_nat (length done + length rest) < 2 ^ 53 ->
  exists table',
    run_saves table rest = Some table' /\
    counters_exact table' (done ++ rest).
Proof.
  induction rest as [| [[d0 r] now] rest IH]; intros done table Hinv Hlen.
  - exists table. rewrite app_nil_r. split; [reflexivity | exact Hinv].
  - cbn [length run_saves] in *.
    destruct (save_counters_exact table done d0 r now Hinv ltac:(lia))
      as (table1 & -> & Hinv1).
    destruct (IH (done ++ [(d0, r, now)]) table1 Hinv1) as (table' & Hr & Hinv').
    { rewrite length_app. cbn [length]. lia. }
    exists table'. split; [exact Hr |].
    rewrite <- app_assoc in Hinv'. exact Hinv'.
Qed.

(** X9: after any run of fewer than 2^53 save steps from the empty table,
    every domain is stored at most once and the counter of a stored domain
    is the number of steps taken for it; a domain no step was for is not
    stored. *)
Theorem searchCount_counts_analyses
    (steps : list (jsstring * Store.fields * Z)) :
  Z.of_nat (length steps) < 2 ^ 53 ->
  exists table,
    run_saves [] steps = Some table /\
    List.NoDup (map Store.domain table) /\
    forall d,
      match Store.getByDomain table d with
      | Some (_, doc) =>
          (1 <= analyses_of d steps)%nat /\
          Store.searchCount doc
          = Number_of_Z (Z.of_nat (analyses_of d steps))
      | None => analyses_of d steps = 0%nat
      end.
Proof.
  intros Hlen.
  destruct (run_saves_counters_exact steps [] []) as (table & Hr & Hnd & Hinv).
  - split; [constructor | intros d; reflexivity].
  - exact Hlen.
  - exists table. auto.
Qed.

(** * The handler of [analyzeSite] *)

(** After a save, the domain is stored: under the identifier it had, with
    the stored fields patched, or as a new record with the fields just
    saved. *)
Lemma save_then_get (table table' : list Store.document) (d : jsstring)
    (r : Store.fields) (now : Z) :
  Store.save table d r now = Some table' ->
  exists id doc,
    Store.getByDomain table' d = Some (id, doc) /\
    Store.domain doc = d /\
    Store.lastAnalyzed doc = now /\
    match Store.getByDomain table d with
    | Some (id0, old) =>
        id = id0 /\ patched (Store.content old) r (Store.content doc)
    | None => id = length table /\ Store.content doc = r
    end.
Proof.
  intros Hs.
  destruct (Store.getByDomain table d) as [[id doc] |] eqn:Hg.
  - destruct (update_existing table d r now id doc Hg) as (Hs2 & Hsame & _).
    assert (E : table' = <[id := Store.Document d
                 (Store.patch_fields (Store.content doc) r)
                 (Number_add (Store.searchCount doc) (Number_of_Z 1)) now]> table)
      by congruence.
    subst table'. eexists _, _. split; [exact Hsame |].
    cbn [Store.domain Store.lastAnalyzed Store.content].
    split; [reflexivity |]. split; [reflexivity |].
    split; [reflexivity | apply patch_fields_patched].
  - unfold Store.save, Store.createAnalysis in Hs. rewrite Hg in Hs.
    cbn [snd] in Hs.
    assert (E : table' = table ++ [Store.Document d r (Number_of_Z 1) now])
      by congruence.
    subst table'.
    destruct (append_new table (Store.Document d r (Number_of_Z 1) now) Hg)
      as [Hsame _].
    eexists _, _. split; [exact Hsame |]. cbn. auto.
Qed.

(** A save keeps every stored record in place with its domain. *)
Lemma save_keeps_positions (table table' : list Store.document)
    (d : jsstring) (r : Store.fields) (now : Z) :
  Store.save table d r now = Some table' ->
  forall id doc, table !! id = Some doc ->
  exists doc', table' !! id = Some doc' /\ Store.domain doc' = Store.domain doc.
Proof.
  unfold Store.save.
  destruct (Store.getByDomain table d) as [[i old] |] eqn:Hg.
  - pose proof (getByDomain_some _ _ _ _ Hg) as (Hl & Hd & _).
    unfold Store.updateAnalysis. rewrite Hl. intros [= <-] id doc Hid.
    destruct (decide (i = id)) as [<- | Hne].
    + rewrite Hl in Hid. injection Hid as <-.
      rewrite list_lookup_insert_eq by (eapply lookup_lt_Some, Hl).
      eexists. split; reflexivity.
    + rewrite list_lookup_insert_ne by exact Hne. eauto.
  - intros [= <-] id doc Hid. exists doc. split; [| reflexivity].
    apply lookup_app_l_Some. exact Hid.
Qed.

Section HandlerFacts.

Variable world : Type.
Variable hostname : jsstring -> jsstring + jsstring.
Variable fetch : world -> jsstring -> world * (jsstring + Store.response).
Variable clock : world -> Z.
Variable commit_clock : world -> Z.

Let analyzeSite := Store.analyzeSite world hostname fetch clock commit_clock.

(** Where the table goes in either outcome. *)
Lemma analyzeSite_table (w : world) (table : list Store.document)
    (arg : jsstring) :
  let '(w', table', out) := analyzeSite w table arg in
  match out with
  | inl _ => table' = table
  | inr (d, r) =>
      hostname (Site.normalizeUrl arg) = inr d /\
      Store.save table d r (commit_clock w') = Some table'
  end.
Proof.
  unfold analyzeSite, Store.analyzeSite. cbn zeta.
  destruct (hostname (Site.normalizeUrl arg)) as [message | d]; [reflexivity |].
  destruct (fetch w (Site.normalizeUrl arg)) as [w1 [message | r]];
    [reflexivity |].
  destruct (save_domains table d
              (Store.derive (Site.normalizeUrl arg) r
                 (Number_of_Z (clock w1 - clock w)))
              (commit_clock w1)) as (table' & Hs & _).
  rewrite Hs. split; [reflexivity | exact Hs].
Qed.

(** X10: [analyzeSite] either throws, with the cause of the invalid URL or of
    the failed fetch behind the fixed prefix and the table untouched, or
    returns fields with the normalized URL and leaves a record under the
    host name of that URL: for a host name not stored before, a new record
    that holds exactly the returned fields; for a stored one, the same
    record patched, which holds the returned fields except that a title or
    a description the new analysis did not find stays as stored. *)
Theorem analyzeSite_outcome (w : world) (table : list Store.document)
    (arg : jsstring) :
  let '(w', table', out) := analyzeSite w table arg in
  match out with
  | inl message =>
      table' = table /\
      exists cause,
        message = js "Failed to analyze site: " ++ cause /\
        (hostname (Site.normalizeUrl arg) = inl cause \/
         snd (fetch w (Site.normalizeUrl arg)) = inl cause)
  | inr (d, r) =>
      hostname (Site.normalizeUrl arg) = inr d /\
      Store.url r = Site.normalizeUrl arg /\
      Store.save table d r (commit_clock w') = Some table' /\
      exists id doc,
        Store.getByDomain table' d = Some (id, doc) /\
        match Store.getByDomain table d with
        | Some (id0, old) =>
            id = id0 /\ patched (Store.content old) r (Store.content doc)
        | None => id = length table /\ Store.content doc = r
        end
  end.
Proof.
  unfold analyzeSite, Store.analyzeSite. cbn zeta.
  destruct (hostname (Site.normalizeUrl arg)) as [message | d] eqn:Hh.
  { split; [reflexivity |]. exists message. split; [reflexivity | left; reflexivity]. }
  destruct (fetch w (Site.normalizeUrl arg)) as [w1 [message | r]] eqn:Hf.
  { split; [reflexivity |]. exists message. split; [reflexivity | right; reflexivity]. }
  destruct (save_domains table d
              (Store.derive (Site.normalizeUrl arg) r
                 (Number_of_Z (clock w1 - clock w)))
              (commit_clock w1)) as (table' & Hs & _).
  rewrite Hs. split; [reflexivity |]. split; [reflexivity |].
  split; [exact Hs |].
  destruct (save_then_get _ _ _ _ _ Hs) as (id & doc & Hg & _ & _ & Hc).
  eauto.
Qed.

End HandlerFacts.

(** * Bulk analysis over the real handler *)

Section BulkOverHandler.

Variable world : Type.
Variable hostname : jsstring -> jsstring + jsstring.
Variable fetch : world -> jsstring -> world * (jsstring + Store.response).
Variable clock : world -> Z.
Variable commit_clock : world -> Z.

Let attempt := Store.attempt world hostname fetch clock commit_clock.
Let process := Bulk.process (world * list Store.document) attempt.

Lemma attempt_keeps_positions (state : world * list Store.document)
    (u : jsstring) :
  forall id doc, snd state !! id = Some doc ->
  exists doc', snd (fst (attempt state u)) !! id = Some doc' /\
               Store.domain doc' = Store.domain doc.
Proof.
  destruct state as [w table]. intros id doc Hid. cbn [snd] in Hid.
  unfold attempt, Store.attempt.
  pose proof (analyzeSite_table world hostname fetch clock commit_clock
                w table u) as H.
  destruct (Store.analyzeSite world hostname fetch clock commit_clock w table u)
    as [[w1 table1] [message | [d r]]].
  - subst table1. cbn. eauto.
  - destruct H as (_ & Hs). cbn [fst snd].
    exact (save_keeps_positions _ _ _ _ _ Hs id doc Hid).
Qed.

Lemma process_keeps_positions (us : list jsstring) :
  forall (state : world * list Store.document) id doc,
  snd state !! id = Some doc ->
  exists doc', snd (fst (process state us)) !! id = Some doc' /\
               Store.domain doc' = Store.domain doc.
Proof.
  induction us as [| u us IH]; intros state id doc Hid.
  - cbn. eauto.
  - unfold process in *. cbn [Bulk.process].
    destruct (attempt_keeps_positions state u id doc Hid) as (doc1 & H1 & E1).
    destruct (attempt state u) as [state1 out]. cbn [fst] in H1.
    destruct (IH state1 id doc1 H1) as (doc2 & H2 & E2).
    destruct (Bulk.process _ attempt state1 us) as [state2 rs].
    cbn [fst] in *. exists doc2. split; [exact H2 | congruence].
Qed.

(** What a successful attempt leaves behind. *)
Lemma attempt_success (state : world * list Store.document) (u : jsstring)
    (found : option nat) :
  snd (attempt state u) = inr found ->
  exists id doc,
    found = Some id /\
    snd (fst (attempt state u)) !! id = Some doc /\
    hostname (Site.normalizeUrl u) = inr (Store.domain doc).
Proof.
  destruct state as [w table]. unfold attempt, Store.attempt.
  pose proof (analyzeSite_table world hostname fetch clock commit_clock
                w table u) as H.
  destruct (Store.analyzeSite world hostname fetch clock commit_clock w table u)
    as [[w1 table1] [message | [d r]]]; cbn [fst snd]; [discriminate |].
  destruct H as (Hh & Hs).
  destruct (save_then_get _ _ _ _ _ Hs) as (id & doc & Hg & _).
  rewrite Hg. intros [= <-]. cbn.
  apply getByDomain_some in Hg as (Hl & Hd & _).
  exists id, doc. rewrite Hd. auto.
Qed.

(** X11: in a bulk run over the real handler, every result that reports
    success carries the identifier of a record which, when the run ends,
    is stored under the host name of that result's normalized URL. *)
Theorem bulk_success_names_a_record (state : world * list Store.document)
    (us : list jsstring) :
  List.Forall
    (fun r =>
       Bulk.success r = true ->
       exists id doc,
         Bulk.analysisId r = Some id /\
         snd (fst (process state us)) !! id = Some doc /\
         hostname (Site.normalizeUrl (Bulk.url r)) = inr (Store.domain doc))
    (snd (process state us)).
Proof.
  revert state. induction us as [| u us IH]; intros state.
  - cbn. constructor.
  - unfold process in *. cbn [Bulk.process].
    pose proof (attempt_success state u) as Hs.
    destruct (attempt state u) as [state1 out]. cbn [fst snd] in Hs.
    specialize (IH state1).
    pose proof (process_keeps_positions us state1) as Hk. unfold process in Hk.
    destruct (Bulk.process _ attempt state1 us) as [state2 rs].
    cbn [fst snd] in *. constructor; [| exact IH].
    destruct out as [message | found]; cbn [Bulk.outcome Bulk.success];
      [discriminate |].
    intros _. destruct (Hs found eq_refl) as (id & doc & -> & Hl & Hh).
    destruct (Hk id doc Hl) as (doc' & Hl' & Hd').
    exists id, doc'. cbn [Bulk.analysisId Bulk.url]. rewrite Hd'. auto.
Qed.

End BulkOverHandler.

(** * The results of a bulk run *)

Lemma process_results {world : Type}
    (attempt : world -> jsstring -> world * (jsstring + option nat))
    (us : list jsstring) : forall w,
  map Bulk.url (snd (Bulk.process world attempt w us)) = us /\
  List.Forall result_well_formed (snd (Bulk.process world attempt w us)).
Proof.
  induction us as [| u us IH]; intros w; cbn [Bulk.process].
  - split; [reflexivity | constructor].
  - destruct (attempt w u) as [w1 out]. specialize (IH w1).
    destruct (Bulk.process world attempt w1 us) as [w2 rs].
    cbn [snd map] in *. destruct IH as [IH1 IH2]. split.
    + f_equal; [| exact IH1]. destruct out; reflexivity.
    + constructor; [| exact IH2].
      destruct out; [right | left]; cbn; eauto.
Qed.

(** X12: an authenticated bulk run returns one result per URL, in the order
    of the input, each a success without error text or a failure with one
    and no analysis; the returned identifier was not in use before the run;
    the run has a final state of the job table, and the job stored there
    under the returned identifier is completed and holds these results, the
    URLs and the user it was created with. *)
Theorem bulk_results_follow_input {world : Type}
    (attempt : world -> jsstring -> world * (jsstring + option nat))
    (clock : world -> Z) (user : nat) (w : world)
    (db : gmap nat Bulk.job) (us : list jsstring) :
  exists r db2 j,
    Bulk.bulkAnalyzeSites world attempt clock (Some user) w db us = Some r /\
    map Bulk.url (Bulk.returned r) = us /\
    List.Forall result_well_formed (Bulk.returned r) /\
    last (Bulk.trace r) = Some db2 /\
    db2 !! Bulk.jobId r = Some j /\
    db !! Bulk.jobId r = None /\
    Bulk.status j = js "completed" /\
    Bulk.results j = Some (Bulk.returned r) /\
    Bulk.urls j = us /\ Bulk.userId j = user.
Proof.
  unfold Bulk.bulkAnalyzeSites, Bulk.createBulkJob.
  destruct (process_results attempt us w) as [Hu Hf].
  destruct (Bulk.process world attempt w us) as [w' rs]. cbn [snd] in *.
  unfold Bulk.updateBulkJob. rewrite lookup_insert_eq.
  eexists _, _, _. split; [reflexivity |].
  cbn [Bulk.returned Bulk.trace Bulk.jobId].
  split; [exact Hu |]. split; [exact Hf |]. split; [reflexivity |].
  split; [apply lookup_insert_eq |].
  split; [apply not_elem_of_dom, is_fresh |]. cbn. auto.
Qed.

(** * The URLs of a bulk run *)

Lemma split_lines_not_nil (s : jsstring) : UI.split_lines s <> [].
Proof.
  induction s as [| c s IH]; cbn [UI.split_lines]; [discriminate |].
  destruct (c =? 10)%N; [discriminate |].
  destruct (UI.split_lines s); [contradiction | discriminate].
Qed.

Lemma split_lines_join (s : jsstring) : join_lines (UI.split_lines s) = s.
Proof.
  induction s as [| c s IH]; [reflexivity |].
  cbn [UI.split_lines]. pose proof (split_lines_not_nil s) as Hn.
  destruct (N.eqb_spec c 10) as [-> | Hc].
  - destruct (UI.split_lines s) as [| l ls]; [contradiction |].
    change (join_lines ([] :: l :: ls)) with (10%N :: join_lines (l :: ls)).
    now rewrite IH.
  - destruct (UI.split_lines s) as [| l ls]; [contradiction |].
    destruct ls as [| l2 ls]; cbn [join_lines app] in *; now rewrite IH.
Qed.

Lemma split_lines_no_feed (s : jsstring) :
  List.Forall (fun line => ~ In 10%N line) (UI.split_lines s).
Proof.
  induction s as [| c s IH]; cbn [UI.split_lines].
  - repeat constructor. intros [].
  - destruct (N.eqb_spec c 10) as [-> | Hc].
    + constructor; [intros [] | exact IH].
    + destruct (UI.split_lines s) as [| l ls]; [repeat constructor; cbn; tauto |].
      inversion IH as [| ? ? Hl Hls]; subst.
      constructor; [| exact Hls]. cbn [In]. tauto.
Qed.

Lemma split_lines_white (s : jsstring) :
  List.Forall (List.Forall (fun c => is_white_space c = true)) (UI.split_lines s)
  <-> List.Forall (fun c => is_white_space c = true) s.
Proof.
  induction s as [| c s IH]; cbn [UI.split_lines].
  - split; intros _; repeat constructor.
  - pose proof (split_lines_not_nil s) as Hn.
    destruct (N.eqb_spec c 10) as [-> | Hc].
    + rewrite !List.Forall_cons_iff, IH. intuition (constructor || reflexivity).
    + destruct (UI.split_lines s) as [| l ls]; [contradiction |].
      rewrite !List.Forall_cons_iff in *. tauto.
Qed.

Lemma trimStart_nil_iff (s : jsstring) :
  trimStart s = [] <-> List.Forall (fun c => is_white_space c = true) s.
Proof.
  induction s as [| c s IH]; cbn [trimStart].
  - split; [constructor | reflexivity].
  - rewrite List.Forall_cons_iff. destruct (is_white_space c).
    + rewrite IH. tauto.
    + split; [discriminate | intros [H _]; discriminate H].
Qed.

Lemma trim_nil_iff (s : jsstring) :
  trim s = [] <-> List.Forall (fun c => is_white_space c = true) s.
Proof.
  rewrite <- trimStart_nil_iff. unfold trim.
  destruct (trimStart s) as [| c x] eqn:Hx; [cbn; tauto |].
  assert (Hc : is_white_space c = false).
  { pose proof (trimStart_idem s) as Hi. rewrite Hx in Hi.
    cbn [trimStart] in Hi. destruct (is_white_space c); [| reflexivity].
    exfalso.
    assert (Hlen : (length (trimStart x) <= length x)%nat).
    { clear. induction x as [| d s IH]; cbn [trimStart]; [lia |].
      destruct (is_white_space d); cbn [length]; lia. }
    rewrite Hi in Hlen. cbn [length] in Hlen. lia. }
  rewrite trimEnd_cons by exact Hc. split; discriminate.
Qed.

Lemma sub_Forall_trim (s : jsstring) : ~ In 10%N s -> ~ In 10%N (trim s).
Proof.
  intros H Hin.
  assert (Hf : List.Forall (fun c => c <> 10%N) s).
  { apply List.Forall_forall. intros c Hc E. subst. contradiction. }
  apply (Forall_trim _ _) in Hf.
  rewrite List.Forall_forall in Hf. exact (Hf _ Hin eq_refl).
Qed.

(** X13: the URLs the bulk form submits are non-empty, trimmed and free of
    line feeds; there is none exactly when the text holds white space
    only. *)
Theorem bulk_urls_clean (bulkUrls : jsstring) :
  List.Forall (fun u => u <> [] /\ trim u = u /\ ~ In 10%N u)
              (UI.bulk_urls bulkUrls) /\
  (UI.bulk_urls bulkUrls = [] <->
   List.Forall (fun c => is_white_space c = true) bulkUrls).
Proof.
  unfold UI.bulk_urls. split.
  - apply List.Forall_forall. intros u Hu.
    apply List.filter_In in Hu as [Hu Hne].
    apply in_map_iff in Hu as (line & <- & Hline).
    pose proof (split_lines_no_feed bulkUrls) as Hf.
    rewrite List.Forall_forall in Hf.
    split; [| split].
    + destruct (trim line); [discriminate Hne | discriminate].
    + apply trim_idem.
    + apply sub_Forall_trim, Hf, Hline.
  - rewrite <- split_lines_white.
    induction (UI.split_lines bulkUrls) as [| l ls IH]; cbn [map List.filter].
    + split; [constructor | reflexivity].
    + rewrite List.Forall_cons_iff, <- IH, <- trim_nil_iff.
      destruct (trim l); cbn [UI.non_empty]; [tauto |].
      split; [discriminate | intros [H _]; discriminate H].
Qed.

Example bulk_urls_example :
  UI.bulk_urls [32; 97; 46; 99; 111; 32; 10; 10; 9; 10; 98; 46; 105; 111]%N
  = [js "a.co"; js "b.io"].
Proof. vm_compute. reflexivity. Qed.

(** * Selecting sites *)

(** X14: toggling a site flips its membership and nobody else's, keeps a
    selection free of duplicates, and toggling an unselected site twice
    gives the selection back. *)
Theorem toggleSiteSelection_flips (prev : list jsstring) (siteId : jsstring) :
  (forall id,
     In id (UI.toggleSiteSelection prev siteId) <->
     (id = siteId /\ ~ In siteId prev) \/ (id <> siteId /\ In id prev)) /\
  (List.NoDup prev -> List.NoDup (UI.toggleSiteSelection prev siteId)) /\
  (~ In siteId prev ->
   UI.toggleSiteSelection (UI.toggleSiteSelection prev siteId) siteId = prev).
Proof.
  assert (Hex : existsb (fun id => bool_decide (id = siteId)) prev = true
                <-> In siteId prev).
  { rewrite existsb_exists. split.
    - intros (x & Hx & E). apply bool_decide_eq_true_1 in E. now subst.
    - intros H. exists siteId. split; [exact H | apply bool_decide_eq_true_2; reflexivity]. }
  assert (Hfilter : forall l, ~ In siteId l ->
            List.filter (fun id => negb (bool_decide (id = siteId))) l = l).
  { intros l Hl. apply filter_all. intros x Hx.
    rewrite bool_decide_eq_false_2; [reflexivity |]. intros ->. contradiction. }
  unfold UI.toggleSiteSelection.
  destruct (existsb (fun id => bool_decide (id = siteId)) prev) eqn:He.
  - assert (Hin : In siteId prev) by (apply Hex; reflexivity).
    split; [| split].
    + intros id. rewrite List.filter_In, negb_true_iff.
      destruct (decide (id = siteId)) as [-> | Hne].
      * rewrite bool_decide_eq_true_2 by reflexivity. intuition discriminate.
      * rewrite bool_decide_eq_false_2 by exact Hne. tauto.
    + apply List.NoDup_filter.
    + contradiction.
  - assert (Hin : ~ In siteId prev).
    { intros H. apply Hex in H. congruence. }
    split; [| split].
    + intros id. rewrite in_app_iff. cbn [In].
      destruct (decide (id = siteId)) as [-> | Hne]; [tauto |].
      split; [intros [H | [H | []]]; [tauto | congruence] | tauto].
    + intros Hnd. apply NoDup_snoc; assumption.
    + intros _.
      assert (Hex2 : existsb (fun id => bool_decide (id = siteId))
                       (prev ++ [siteId]) = true).
      { rewrite existsb_app. cbn. rewrite bool_decide_eq_true_2 by reflexivity.
        apply orb_true_r. }
      rewrite Hex2, List.filter_app, (Hfilter prev Hin). cbn [List.filter].
      rewrite bool_decide_eq_true_2 by reflexivity. cbn. apply app_nil_r.
Qed.

(** * Substrings *)

Lemma starts_with_iff (p s : jsstring) :
  starts_with p s = true <-> exists rest, s = p ++ rest.
Proof.
  revert s. induction p as [| c p IH]; intros s; cbn [starts_with].
  - split; [intros _; exists s; reflexivity | reflexivity].
  - destruct s as [| d s].
    + split; [discriminate | intros [rest H]; discriminate H].
    + rewrite andb_true_iff, N.eqb_eq, IH. split.
      * intros [-> [rest ->]]. exists rest. reflexivity.
      * intros [rest [= -> ->]]. eauto.
Qed.

Lemma includes_iff (s p : jsstring) :
  includes s p = true <-> exists before after, s = before ++ p ++ after.
Proof.
  induction s as [| c s IH]; cbn [includes].
  - rewrite orb_false_r, starts_with_iff. split.
    + intros [rest H]. exists [], rest. exact H.
    + intros ([| b before] & after & H); [eauto | discriminate H].
  - rewrite orb_true_iff, starts_with_iff, IH. split.
    + intros [[rest H] | (before & after & H)].
      * exists [], rest. exact H.
      * exists (c :: before), after. now rewrite H.
    + intros ([| b before] & after & H).
      * left. eauto.
      * right. injection H as -> ->. eauto.
Qed.

Lemma includes_trans (big small p : jsstring) :
  includes big small = true -> includes small p = true ->
  includes big p = true.
Proof.
  rewrite !includes_iff. intros (a & b & ->) (c & d & ->).
  exists (a ++ c), (d ++ b). now rewrite <- !app_assoc.
Qed.

(** * Technology detection, further *)

Lemma detect_sublist (html : jsstring) (headers : gmap jsstring jsstring) :
  Tech.detectTechnologies html headers `sublist_of` Tech.rule_order.
Proof.
  rewrite detectTechnologies_segments.
  change Tech.rule_order
    with ([Tech.Nginx; Tech.Apache; Tech.Cloudflare] ++ [Tech.NextJs]
          ++ [Tech.React] ++ [Tech.VueJs] ++ [Tech.Angular]
          ++ [Tech.Bootstrap] ++ [Tech.TailwindCSS]
          ++ [Tech.GoogleAnalytics] ++ [Tech.GoogleTagManager]
          ++ [Tech.WordPress] ++ [Tech.Shopify]).
  apply sublist_app; [apply server_technologies_sublist |].
  repeat (apply sublist_app; [apply optional_sublist |]).
  apply optional_sublist.
Qed.

Lemma rule_order_NoDup : NoDup Tech.rule_order.
Proof.
  apply NoDup_ListNoDup. unfold Tech.rule_order.
  repeat (constructor;
          [cbn [In]; intros H;
           repeat (destruct H as [H | H]; [vm_compute in H; discriminate H |]);
           exact H |]).
  constructor.
Qed.

(** X15: the detector never reports a technology twice and never more than
    13; without a non-empty server header it reports at most 10, the same
    as without any header. *)
Theorem detect_no_duplicates (html : jsstring)
    (headers : gmap jsstring jsstring) :
  List.NoDup (Tech.detectTechnologies html headers) /\
  (length (Tech.detectTechnologies html headers) <= 13)%nat /\
  (truthy (headers !! js "server") = false ->
   (length (Tech.detectTechnologies html headers) <= 10)%nat /\
   Tech.detectTechnologies html headers = Tech.detectTechnologies html ∅).
Proof.
  pose proof (detect_sublist html headers) as Hs.
  split; [apply NoDup_ListNoDup; eapply sublist_NoDup; eauto using rule_order_NoDup |].
  split; [exact (sublist_length _ _ Hs) |].
  intros Hserver.
  assert (Hnone : server_technologies headers = []).
  { unfold server_technologies.
    destruct (headers !! js "server") as [[| c rest] |];
      [reflexivity | discriminate Hserver | reflexivity]. }
  assert (Heq : Tech.detectTechnologies html headers
                = Tech.detectTechnologies html ∅).
  { rewrite !detectTechnologies_segments, Hnone. reflexivity. }
  split; [| exact Heq].
  rewrite detectTechnologies_segments, Hnone. cbn [app].
  repeat match goal with
         | |- context [if ?c then _ else _] => destruct c
         end; cbn; lia.
Qed.

Lemma in_app_mono {A} (x : A) (a a' b b' : list A) :
  (In x a -> In x a') -> (In x b -> In x b') ->
  In x (a ++ b) -> In x (a' ++ b').
Proof. rewrite !in_app_iff. tauto. Qed.

Lemma segment_mono (c1 c2 : bool) (t x : technology) :
  (c1 = true -> c2 = true) ->
  In x (if c1 then [t] else []) -> In x (if c2 then [t] else []).
Proof.
  destruct c1; [| intros _ []]. intros H. rewrite (H eq_refl). exact id.
Qed.

(** X16: detection is monotone in the page: what is detected in a piece of
    text is detected in every text that contains it. *)
Theorem detect_monotone (small big : jsstring)
    (headers : gmap jsstring jsstring) (t : technology) :
  includes big small = true ->
  In t (Tech.detectTechnologies small headers) ->
  In t (Tech.detectTechnologies big headers).
Proof.
  intros Hsub.
  assert (Hhas : forall s, Tech.has small s = true -> Tech.has big s = true).
  { intros s. unfold Tech.has. apply includes_trans. exact Hsub. }
  assert (Hor : forall a b,
            Tech.has small a || Tech.has small b = true ->
            Tech.has big a || Tech.has big b = true).
  { intros a b. rewrite !orb_true_iff. intros [H | H]; [left | right]; auto. }
  rewrite !detectTechnologies_segments.
  apply in_app_mono; [exact id |].
  repeat (apply in_app_mono; [apply segment_mono; auto |]).
  apply segment_mono; auto.
Qed.

(** * Scores and issues *)

(** X17: the security score is a multiple of 5 between 0 and 100, with at
    most 7 issues; it is 100 exactly when there is no issue and 0 exactly
    when all 7 checks fire. *)
Theorem security_score_shape (headers : gmap jsstring jsstring) :
  let r := Security.analyzeSecurityHeaders headers in
  0 <= score r <= 100 /\
  score r mod 5 = 0 /\
  (length (issues r) <= 7)%nat /\
  (score r = 100 <-> issues r = []) /\
  (score r = 0 <-> length (issues r) = 7%nat).
Proof.
  cbn zeta. rewrite security_score_eq, security_issues_eq.
  pose proof (missing_headers_bound headers) as Hm.
  rewrite length_app, length_map.
  destruct (missing_headers headers) as [| h hs] eqn:Hmiss;
    destruct (truthy (headers !! js "x-powered-by"));
    cbn [length map app] in *.
  - repeat split; try lia; try discriminate; reflexivity.
  - repeat split; try lia; try discriminate; reflexivity.
  - set (m := length hs) in *.
    assert (Hmod : (100 - 15 * Z.of_nat (S m) - 10) mod 5 = 0).
    { replace (100 - 15 * Z.of_nat (S m) - 10)
        with ((15 - 3 * Z.of_nat m) * 5) by lia.
      apply Z.mod_mul. lia. }
    repeat split; try lia; try discriminate; exact Hmod.
  - set (m := length hs) in *.
    assert (Hmod : (100 - 15 * Z.of_nat (S m) - 0) mod 5 = 0).
    { replace (100 - 15 * Z.of_nat (S m) - 0)
        with ((17 - 3 * Z.of_nat m) * 5) by lia.
      apply Z.mod_mul. lia. }
    repeat split; try lia; try discriminate; exact Hmod.
Qed.

(** X18: the SEO score is 100 exactly when there is no issue; there are at
    most 5 issues. *)
Theorem seo_perfect_iff_no_issue (html : jsstring) :
  (score (SEO.analyzeSEO html) = 100 <-> issues (SEO.analyzeSEO html) = []) /\
  (length (issues (SEO.analyzeSEO html)) <= 5)%nat.
Proof.
  rewrite seo_score_eq, seo_issues_eq. unfold head_penalty, alt_penalty.
  destruct (test re_title html), (test re_description html),
    (test re_h1 html), (test re_viewport html),
    (Nat.ltb_spec 0 (length (SEO.imagesWithoutAlt html))) as [Hn | Hn];
    cbn [app length];
    (split; [split; intros H; try discriminate H; lia || reflexivity | lia]).
Qed.

(** * Page size *)

Lemma utf8_length (cp : N) :
  length (Perf.utf8 cp)
  = if (cp <? 128)%N then 1%nat
    else if (cp <? 2048)%N then 2%nat
    else if (cp <? 65536)%N then 3%nat else 4%nat.
Proof.
  unfold Perf.utf8.
  destruct (cp <? 128)%N; [reflexivity |].
  destruct (cp <? 2048)%N; [reflexivity |].
  destruct (cp <? 65536)%N; reflexivity.
Qed.

Lemma blob_size_bounds_upto (n : nat) : forall s : jsstring,
  (length s <= n)%nat ->
  List.Forall (fun c => (c < 65536)%N) s ->
  (length s <= Perf.Blob_size s <= 3 * length s)%nat.
Proof.
  unfold Perf.Blob_size, Perf.utf8_encode.
  induction n as [| n IH]; intros s Hlen Hwf.
  - destruct s; [cbn; lia | cbn in Hlen; lia].
  - destruct s as [| c s]; [cbn; lia |].
    inversion Hwf as [| ? ? Hc Hs]; subst.
    cbn [length] in Hlen.
    pose proof (IH s ltac:(lia) Hs) as IHs.
    cbn [Perf.code_points].
    destruct (Perf.is_lead c) eqn:Hlead.
    + destruct s as [| t s'].
      * cbn. lia.
      * destruct (Perf.is_trail t) eqn:Htrail.
        -- inversion Hs as [| ? ? Ht Hs']; subst.
           pose proof (IH s' ltac:(cbn [length] in Hlen; lia) Hs') as IHs'.
           cbn [flat_map]. rewrite length_app, utf8_length.
           assert (Hbig : (65536 + (c - 55296) * 1024 + (t - 56320) <? 65536)%N
                          = false) by (apply N.ltb_ge; lia).
           assert (H1 : (65536 + (c - 55296) * 1024 + (t - 56320) <? 128)%N
                        = false) by (apply N.ltb_ge; lia).
           assert (H2 : (65536 + (c - 55296) * 1024 + (t - 56320) <? 2048)%N
                        = false) by (apply N.ltb_ge; lia).
           rewrite H1, H2, Hbig. cbn [length]. lia.
        -- cbn [flat_map]. rewrite length_app. cbn [length Perf.utf8] in *.
           change (length (Perf.utf8 65533)) with 3%nat. lia.
    + destruct (Perf.is_trail c).
      * cbn [flat_map]. rewrite length_app.
        change (length (Perf.utf8 65533)) with 3%nat. cbn [length]. lia.
      * cbn [flat_map]. rewrite length_app, utf8_length.
        destruct (c <? 128)%N; [cbn [length]; lia |].
        destruct (c <? 2048)%N; [cbn [length]; lia |].
        destruct (N.ltb_spec c 65536); [cbn [length]; lia | lia].
Qed.

(** X19: for a string of 16-bit code units the page size lies between the
    length of the string and three times that length, and equals the
    length on ASCII text. *)
Theorem pageSize_bounds (html : jsstring)
    (headers : gmap jsstring jsstring) (loadTime : number) :
  List.Forall (fun c => (c < 65536)%N) html ->
  let m := Perf.analyzePerformance html headers loadTime in
  (length html <= Perf.pageSize m <= 3 * length html)%nat /\
  (List.Forall (fun c => (c < 128)%N) html -> Perf.pageSize m = length html).
Proof.
  intros Hwf. cbn zeta. unfold Perf.analyzePerformance.
  cbn [Perf.pageSize].
  split; [exact (blob_size_bounds_upto _ html (le_n _) Hwf) |].
  intros Hascii. unfold Perf.Blob_size. now rewrite utf8_encode_ascii.
Qed.

(** * The API playground *)

(** X22: [makeApiRequest] stores exactly one request, holding the response
    it returns next to the arguments as given; when the fetch fails the
    response has status 0, no headers and the error text, and is shown
    gray. *)
Theorem makeApiRequest_records_what_it_returns {world : Type}
    (fetch : world -> jsstring -> Api.request_init ->
             world * (jsstring + Z * gmap jsstring jsstring * jsstring))
    (clock commit_clock : world -> Z)
    (user : option nat) (w : world) (table : list Api.request)
    (m u : jsstring) (hs : option (gmap jsstring jsstring))
    (b : option jsstring) :
  let '(w', table', result) :=
    Api.makeApiRequest world fetch clock commit_clock user w table m u hs b in
  (exists doc,
     table' = table ++ [doc] /\ Api.saved doc = result /\
     Api.request_headers doc = hs /\ Api.request_body doc = b /\
     Api.method doc = m /\ Api.url doc = u /\ Api.userId doc = user) /\
  (forall message,
     snd (fetch w u (Api.requestOptions m hs b)) = inl message ->
     Api.status result = 0 /\ Api.headers result = ∅ /\
     Api.body result = js "Error: " ++ message /\
     getStatusColor (Api.status result) = js "text-gray-600 dark:text-gray-400").
Proof.
  unfold Api.makeApiRequest. cbn zeta.
  destruct (fetch w u (Api.requestOptions m hs b)) as [w1 fetched].
  split.
  - eexists. split; [reflexivity |]. cbn. auto 10.
  - cbn [snd]. intros message ->. cbn. auto.
Qed.

(** X23: the request always carries a User-Agent header, the default one
    unless the caller gives that very key; every caller header is passed
    on; a body is passed on only when it is non-empty and the method is
    exactly POST, PUT or PATCH. *)
Theorem request_options_sent (m : jsstring)
    (hs : option (gmap jsstring jsstring)) (b : option jsstring) :
  let init := Api.requestOptions m hs b in
  is_Some (Api.init_headers init !! js "User-Agent") /\
  (forall k v, default ∅ hs !! k = Some v ->
               Api.init_headers init !! k = Some v) /\
  (default ∅ hs !! js "User-Agent" = None ->
   Api.init_headers init !! js "User-Agent" = Some (js "API-Playground/1.0")) /\
  (forall sent, Api.init_body init = Some sent ->
     b = Some sent /\ sent <> [] /\
     (m = js "POST" \/ m = js "PUT" \/ m = js "PATCH")).
Proof.
  cbn zeta. unfold Api.requestOptions, Api.merged_headers.
  cbn [Api.init_headers Api.init_body]. repeat split.
  - rewrite lookup_union. destruct (default ∅ hs !! js "User-Agent");
      rewrite lookup_singleton_eq; cbn; eauto.
  - intros k v H. apply lookup_union_Some_l. exact H.
  - intros H. rewrite lookup_union_r by exact H. apply lookup_singleton_eq.
  - destruct (Api.sends_body m b) eqn:Hs; [| discriminate]. congruence.
  - destruct (Api.sends_body m b) eqn:Hs; [| discriminate].
    intros ->. subst b. discriminate Hs.
  - destruct (Api.sends_body m b) eqn:Hs; [| discriminate].
    unfold Api.sends_body in Hs. destruct b as [[| c rest] |]; try discriminate.
    cbn [existsb] in Hs. rewrite !orb_true_iff in Hs.
    destruct Hs as [Hs | [Hs | [Hs | Hs]]]; try discriminate;
      apply bool_decide_eq_true_1 in Hs; auto.
Qed.

(** * How the scores are shown *)

(** X21: the security score is shown green exactly when no security header
    is missing, or one is and x-powered-by is not exposed; it is shown red
    exactly when three or more are missing. *)
Theorem security_score_color (headers : gmap jsstring jsstring) :
  let r := Security.analyzeSecurityHeaders headers in
  let missing := length (missing_headers headers) in
  let exposed := truthy (headers !! js "x-powered-by") in
  (UI.getScoreColor (score r) = js "text-green-600 dark:text-green-400"
   <-> missing = 0%nat \/ (missing = 1%nat /\ exposed = false)) /\
  (UI.getScoreColor (score r) = js "text-red-600 dark:text-red-400"
   <-> (3 <= missing)%nat).
Proof.
  cbn zeta. rewrite security_score_eq. unfold UI.getScoreColor.
  pose proof (missing_headers_bound headers) as Hm.
  set (m := length (missing_headers headers)) in *.
  destruct (truthy (headers !! js "x-powered-by"));
    [destruct (Z.leb_spec 80 (100 - 15 * Z.of_nat m - 10)) as [L1 | L1];
     [| destruct (Z.leb_spec 60 (100 - 15 * Z.of_nat m - 10)) as [L2 | L2]]
    |destruct (Z.leb_spec 80 (100 - 15 * Z.of_nat m - 0)) as [L1 | L1];
     [| destruct (Z.leb_spec 60 (100 - 15 * Z.of_nat m - 0)) as [L2 | L2]]];
    (split; split; intros Hx; try (vm_compute in Hx; discriminate Hx);
     try reflexivity; try lia;
     try (destruct Hx as [Hx | [Hx Hy]]; try discriminate Hy; lia)).
Qed.

(** * The order of the estimates *)

(** X20: for a load time below 2^50 ms the estimates are ordered: 0, then
    the time to first byte, then the DOM-ready time, then the load time. *)
Theorem estimates_ordered (html : jsstring)
    (headers : gmap jsstring jsstring) (n : Z) :
  0 <= n < 2 ^ 50 ->
  exists first ready,
    Perf.ttfb (Perf.analyzePerformance html headers (Number_of_Z n))
      = Number_of_Z first /\
    Perf.domContentLoaded
      (Perf.analyzePerformance html headers (Number_of_Z n))
      = Number_of_Z ready /\
    0 <= first <= ready /\ ready <= n.
Proof.
  intros Hn. exists (3 * n / 10), (4 * n / 5).
  unfold Perf.analyzePerformance. cbn [Perf.ttfb Perf.domContentLoaded].
  split; [apply floor_0_3, Hn |]. split; [apply floor_0_8, Hn |].
  pose proof (Z.div_mod (3 * n) 10 ltac:(lia)).
  pose proof (Z.mod_pos_bound (3 * n) 10 ltac:(lia)).
  pose proof (Z.div_mod (4 * n) 5 ltac:(lia)).
  pose proof (Z.mod_pos_bound (4 * n) 5 ltac:(lia)).
  lia.
Qed.

(** * The image check against the scan of the spec *)

Lemma starts_with_bool_decide (p s : jsstring) :
  starts_with p s = bool_decide (firstn (length p) s = p).
Proof.
  destruct (starts_with p s) eqn:H.
  - symmetry. apply bool_decide_eq_true_2. apply starts_with_firstn. exact H.
  - symmetry. apply bool_decide_eq_false_2. intros E.
    assert (starts_with p s = true); [| congruence].
    apply starts_with_iff. exists (skipn (length p) s).
    rewrite <- E at 1. symmetry. apply firstn_skipn.
Qed.

Lemma existsb_seq_shift (f : nat -> bool) (n : nat) :
  forall a, existsb f (seq (S a) n) = existsb (fun i => f (S i)) (seq a n).
Proof.
  induction n as [| n IH]; intros a; cbn [seq existsb]; [reflexivity |].
  rewrite IH. reflexivity.
Qed.

Lemma occurs_somewhere (p s : jsstring) :
  existsb (occurs_at p s) (seq 0 (S (length s))) = includes s p.
Proof.
  induction s as [| c s IH].
  - cbn [length seq existsb includes]. unfold occurs_at.
    cbn [skipn]. rewrite <- starts_with_bool_decide. reflexivity.
  - cbn [length]. change (seq 0 (S (S (length s))))
      with (0%nat :: seq 1 (S (length s))).
    cbn [existsb includes]. rewrite existsb_seq_shift.
    unfold occurs_at at 1. change (skipn 0 (c :: s)) with (c :: s).
    rewrite <- starts_with_bool_decide. f_equal.
    rewrite <- IH. reflexivity.
Qed.

Lemma lacks_alt_includes (tag : jsstring) :
  lacks_alt tag = negb (includes tag (js "alt=")).
Proof. unfold lacks_alt. rewrite occurs_somewhere. reflexivity. Qed.

(** The greedy run of [[^>]*] followed by the closing >: the matcher ends
    up right behind the first > of the input. *)
Lemma star_exec_through_gt {A} (k : jsstring -> option A) (s : jsstring) :
  star_exec (none_of false ">") (exec (text false ">") (exec Eps k)) s
  = match through_gt s with
    | Some t => k (skipn (length t) s)
    | None => None
    end.
Proof.
  induction s as [| c s IH]; [reflexivity |].
  cbn [star_exec through_gt]. rewrite IH.
  change (none_of false ">" c) with (negb ((c =? 62)%N || false)).
  rewrite orb_false_r.
  change (exec (text false ">") (exec Eps k) (c :: s))
    with (if (62 =? c)%N then k s else None).
  rewrite (N.eqb_sym 62 c).
  destruct (c =? 62)%N; cbn [negb]; [reflexivity |].
  destruct (through_gt s) as [t |]; [| reflexivity].
  cbn [length skipn].
  destruct (k (skipn (length t) s)); reflexivity.
Qed.

Lemma through_gt_prefix (s t : jsstring) :
  through_gt s = Some t ->
  s = t ++ skipn (length t) s /\ (1 <= length t)%nat.
Proof.
  revert t. induction s as [| c s IH]; intros t; cbn [through_gt];
    [discriminate |].
  destruct (c =? 62)%N.
  - intros [= <-]. cbn. split; [reflexivity | lia].
  - destruct (through_gt s) as [t' |]; [| discriminate].
    intros [= <-]. destruct (IH t' eq_refl) as [E _].
    cbn [length skipn app]. split; [f_equal; exact E | lia].
Qed.

(** The pattern of the source, anchored: it matches exactly the img tag of
    the case-sensitive scan. *)
Lemma exec_at_img (s : jsstring) :
  match img_tag_here false s with
  | Some tag => exec_at re_img s = Some (length tag) /\
                firstn (length tag) s = tag
  | None => exec_at re_img s = None
  end.
Proof.
  unfold exec_at, re_img, img_tag_here. cbn zeta.
  change (exec (cat [text false "<img"; Star (none_of false ">");
                     text false ">"])
            (fun rest => Some (length s - length rest)%nat) s)
    with (exec (literal false (js "<img"))
            (star_exec (none_of false ">")
               (exec (text false ">")
                  (exec Eps (fun rest => Some (length s - length rest)%nat))))
            s).
  rewrite exec_literal, star_exec_through_gt, starts_with_bool_decide.
  change (length (js "<img")) with 4%nat.
  destruct (bool_decide (firstn 4 s = js "<img")) eqn:Ho; [| reflexivity].
  apply bool_decide_eq_true_1 in Ho.
  destruct (through_gt (skipn 4 s)) as [t |] eqn:Ht; [| reflexivity].
  destruct (through_gt_prefix _ _ Ht) as [Ep _].
  assert (Es : s = (firstn 4 s ++ t) ++ skipn (length t) (skipn 4 s)).
  { rewrite <- app_assoc, <- Ep. symmetry. apply firstn_skipn. }
  split.
  - f_equal. rewrite Es at 1. rewrite length_app. lia.
  - rewrite Es at 2. rewrite firstn_app, Nat.sub_diag, firstn_all.
    cbn [firstn]. apply app_nil_r.
Qed.

Lemma match_all_img_from (s : jsstring) :
  forall skip, match_all_from re_img skip s = img_tags_from false skip s.
Proof.
  induction s as [| c s IH]; intros [| skip]; cbn [match_all_from img_tags_from];
    try reflexivity.
  - pose proof (exec_at_img (c :: s)) as H.
    destruct (img_tag_here false (c :: s)) as [tag |].
    + destruct H as [-> ->]. f_equal. apply IH.
    + rewrite H. apply IH.
  - apply IH.
Qed.

(** The images the source collects are the img tags of the case-sensitive
    scan. *)
Lemma match_all_img (html : jsstring) :
  match_all re_img html = img_tags false html.
Proof. apply match_all_img_from. Qed.

Lemma imagesWithoutAlt_scan (html : jsstring) :
  SEO.imagesWithoutAlt html = List.filter lacks_alt (img_tags false html).
Proof.
  unfold SEO.imagesWithoutAlt. rewrite match_all_img.
  apply List.filter_ext. intros tag. symmetry. apply lacks_alt_includes.
Qed.

Lemma check_images_scan (html : jsstring) (st : report) :
  score (SEO.check_images html st)
  = score st - spec_alt_penalty (images_lacking_alt false html) /\
  (images_lacking_alt false html = 0%nat -> SEO.check_images html st = st).
Proof.
  unfold images_lacking_alt, spec_alt_penalty.
  rewrite <- imagesWithoutAlt_scan. split.
  - rewrite check_images_score. unfold alt_penalty.
    destruct (0 <? length (SEO.imagesWithoutAlt html))%nat; lia.
  - intros Hn. unfold SEO.check_images. cbn zeta. rewrite Hn. reflexivity.
Qed.

(** Folding the case of a code unit that is none of I, M, G cannot make it
    one of i, m, g. *)
Lemma lowercase_opening (o : jsstring) :
  List.Forall (fun c => c <> 73 /\ c <> 77 /\ c <> 71)%N o ->
  map ascii_lowercase o = js "<img" <-> o = js "<img".
Proof.
  intros Hf. split; [| intros ->; reflexivity].
  assert (Hc : forall c x : N,
             (c <> 73 /\ c <> 77 /\ c <> 71)%N ->
             In x [60; 105; 109; 103]%N ->
             ascii_lowercase c = x -> c = x).
  { intros c x Hc Hx. unfold ascii_lowercase.
    destruct (N.leb_spec 65 c), (N.leb_spec c 90); cbn [andb];
      cbn [In] in Hx; lia. }
  change (js "<img") with [60; 105; 109; 103]%N.
  destruct o as [| a [| b [| c [| d [| e o]]]]]; cbn [map]; try discriminate.
  intros [= Ha Hb Hc' Hd].
  inversion Hf as [| ? ? Fa Hf1]; subst.
  inversion Hf1 as [| ? ? Fb Hf2]; subst.
  inversion Hf2 as [| ? ? Fc Hf3]; subst.
  inversion Hf3 as [| ? ? Fd _]; subst.
  rewrite (Hc a 60%N), (Hc b 105%N), (Hc c 109%N), (Hc d 103%N);
    cbn [In]; auto 6.
Qed.

Lemma img_tag_here_no_capitals (s : jsstring) :
  List.Forall (fun c => c <> 73 /\ c <> 77 /\ c <> 71)%N s ->
  img_tag_here true s = img_tag_here false s.
Proof.
  intros Hf. unfold img_tag_here. cbn zeta.
  assert (Ho : List.Forall (fun c => c <> 73 /\ c <> 77 /\ c <> 71)%N
                 (firstn 4 s)).
  { rewrite List.Forall_forall in *. intros c Hc. apply Hf.
    rewrite <- (firstn_skipn 4 s). apply in_or_app. left. exact Hc. }
  pose proof (lowercase_opening _ Ho) as Hiff.
  destruct (decide (firstn 4 s = js "<img")) as [E | E].
  - rewrite !bool_decide_eq_true_2; tauto.
  - rewrite !bool_decide_eq_false_2; tauto.
Qed.

Lemma img_tags_no_capitals (s : jsstring) :
  List.Forall (fun c => c <> 73 /\ c <> 77 /\ c <> 71)%N s ->
  forall inside, img_tags_from true inside s = img_tags_from false inside s.
Proof.
  induction s as [| c s IH]; intros Hf inside; [reflexivity |].
  cbn [img_tags_from]. rewrite (img_tag_here_no_capitals _ Hf).
  inversion Hf as [| ? ? _ Hs]; subst. specialize (IH Hs).
  destruct inside; [| apply IH].
  destruct (img_tag_here false (c :: s)); [f_equal |]; apply IH.
Qed.

(** C6: the image check takes off min(20, 2 n) points, and only when n > 0,
    where n counts the img tags without alt= that are written with a
    lower-case tag name: the pattern of the source lacks the flag for
    ignoring case that the four other patterns of [analyzeSEO] carry.  On a
    page without the capital letters I, M and G this n is the count of the
    spec, and the penalty is the one the claim states.  On 15 tags written
    <IMG ...>, all without alt=, the spec counts 15 and asks for 20 points;
    the source finds no image, takes off nothing and reports no issue.  The
    same 15 tags in lower case cost 20 points. *)
Theorem seo_alt_penalty_case_sensitive :
  (forall html st,
     score (SEO.check_images html st)
     = score st - spec_alt_penalty (images_lacking_alt false html) /\
     (images_lacking_alt false html = 0%nat ->
      SEO.check_images html st = st)) /\
  (forall html,
     score (SEO.analyzeSEO html)
     = 100 - head_penalty html
       - spec_alt_penalty (images_lacking_alt false html)) /\
  (forall html,
     List.Forall (fun c => c <> 73 /\ c <> 77 /\ c <> 71)%N html ->
     images_lacking_alt true html = images_lacking_alt false html) /\
  (let html := repeat_string 15 (js "<IMG src='a.png'>") in
   images_lacking_alt true html = 15%nat /\
   spec_alt_penalty (images_lacking_alt true html) = 20 /\
   (forall st, SEO.check_images html st = st) /\
   issues (SEO.analyzeSEO html)
   = [js "Missing page title"; js "Missing meta description";
      js "Missing H1 tag"; js "Missing viewport meta tag"]) /\
  (let html := repeat_string 15 (js "<img src='a.png'>") in
   images_lacking_alt true html = 15%nat /\
   forall st, score (SEO.check_images html st) = score st - 20).
Proof.
  split; [exact check_images_scan |]. split.
  { intros html. rewrite seo_score_eq.
    unfold images_lacking_alt, spec_alt_penalty, alt_penalty.
    rewrite <- imagesWithoutAlt_scan.
    destruct (0 <? length (SEO.imagesWithoutAlt html))%nat; lia. }
  split.
  { intros html Hf. unfold images_lacking_alt, img_tags.
    rewrite (img_tags_no_capitals html Hf). reflexivity. }
  split; cbn zeta.
  - split; [vm_compute; reflexivity |]. split; [vm_compute; reflexivity |].
    split; [| vm_compute; reflexivity].
    intros st. apply check_images_scan. vm_compute. reflexivity.
  - split; [vm_compute; reflexivity |].
    intros st.
    rewrite (proj1 (check_images_scan _ st)).
    replace (images_lacking_alt false (repeat_string 15 (js "<img src='a.png'>")))
      with 15%nat by (vm_compute; reflexivity).
    reflexivity.
Qed.

(** * Instances *)

Lemma estimates_ordered_witness :
  exists first ready,
    Perf.ttfb (Perf.analyzePerformance [] ∅ (Number_of_Z 1000))
      = Number_of_Z first /\
    Perf.domContentLoaded (Perf.analyzePerformance [] ∅ (Number_of_Z 1000))
      = Number_of_Z ready /\
    0 <= first <= ready /\ ready <= 1000.
Proof. apply (estimates_ordered [] ∅ 1000). lia. Defined.

Lemma pageSize_bounds_witness :
  (length (js "<p>") <= Perf.pageSize
     (Perf.analyzePerformance (js "<p>") ∅ (Number_of_Z 0))
   <= 3 * length (js "<p>"))%nat.
Proof.
  apply (pageSize_bounds (js "<p>") ∅ (Number_of_Z 0)).
  vm_compute. repeat constructor.
Defined.

Lemma detect_monotone_witness :
  In Tech.React (Tech.detectTechnologies (js "<b>react</b>") ∅).
Proof.
  apply (detect_monotone (js "react") (js "<b>react</b>") ∅ Tech.React).
  - vm_compute. reflexivity.
  - vm_compute. tauto.
Defined.

Lemma description_implies_seo_ok_witness :
  ~ In (js "Missing meta description")
       (issues (SEO.analyzeSEO (js "<meta name='description' content='x'>"))).
Proof.
  apply (description_implies_seo_ok (js "<meta name='description' content='x'>")).
  vm_compute. eexists. reflexivity.
Defined.

(** A table that stores the domain already, so that the step goes through
    [updateAnalysis]. *)
Lemma save_keeps_domains_unique_witness :
  exists table',
    Store.save [Store.Document (js "a.io") sample_fields (Number_of_Z 1) 5]
      (js "a.io") untitled_fields 9 = Some table' /\
    List.NoDup (map Store.domain table').
Proof.
  destruct (save_keeps_domains_unique
              [Store.Document (js "a.io") sample_fields (Number_of_Z 1) 5]
              (js "a.io") untitled_fields 9)
    as (table' & H1 & _ & _ & H2).
  exists table'. split; [exact H1 |]. apply H2.
  repeat constructor. intros [].
Defined.

Lemma save_new_domain_witness :
  Store.save [] (js "a.io") sample_fields 5
  = Some ([] ++ [Store.Document (js "a.io") sample_fields (Number_of_Z 1) 5]).
Proof.
  apply (save_new_domain [] (js "a.io") sample_fields 5). reflexivity.
Defined.

(** The second analysis finds no title: the stored title stays, the SEO
    report is the new one. *)
Lemma save_existing_domain_witness :
  exists table' doc',
    Store.save [Store.Document (js "a.io") sample_fields (Number_of_Z 1) 5]
      (js "a.io") untitled_fields 9 = Some table' /\
    Store.getByDomain table' (js "a.io") = Some (0%nat, doc') /\
    Store.searchCount doc' = Number_of_Z 2 /\
    Store.title (Store.content doc') = Some (js "A") /\
    Store.seoScore (Store.content doc') = Store.seoScore untitled_fields.
Proof.
  destruct (save_existing_domain
              [Store.Document (js "a.io") sample_fields (Number_of_Z 1) 5]
              (js "a.io") untitled_fields 9 0
              (Store.Document (js "a.io") sample_fields (Number_of_Z 1) 5) 1)
    as (table' & doc' & H1 & _ & H2 & _ & H3 & _ & H4 & _).
  - vm_compute. reflexivity.
  - reflexivity.
  - lia.
  - lia.
  - destruct H4 as (_ & Ht & _ & _ & _ & _ & _ & _ & _ & _ & _ & Hseo).
    exists table', doc'. split; [exact H1 |]. split; [exact H2 |].
    split; [exact H3 |]. split; [| exact Hseo].
    rewrite Ht; vm_compute; reflexivity.
Defined.

Example title_survives_an_untitled_page :
  (fun table => map (fun doc => (Store.title (Store.content doc),
                                 score (Store.seoScore (Store.content doc))))
                    table)
  <$> run_saves []
        [(js "a.io", sample_fields, 1); (js "a.io", untitled_fields, 2)]
  = Some [(Some (js "A"), 40)].
Proof. vm_compute. reflexivity. Qed.

Lemma searchCount_counts_analyses_witness :
  exists table,
    run_saves []
      [(js "a.io", sample_fields, 1); (js "b.io", sample_fields, 2);
       (js "a.io", sample_fields, 3)] = Some table /\
    List.NoDup (map Store.domain table).
Proof.
  destruct (searchCount_counts_analyses
              [(js "a.io", sample_fields, 1); (js "b.io", sample_fields, 2);
               (js "a.io", sample_fields, 3)])
    as (table & H1 & H2 & _).
  - vm_compute. reflexivity.
  - exists table. auto.
Defined.

Example two_analyses_of_a_domain :
  (fun table => map (fun doc => (Store.domain doc, Store.searchCount doc))
                    table)
  <$> run_saves []
        [(js "a.io", sample_fields, 1); (js "b.io", sample_fields, 2);
         (js "a.io", sample_fields, 3)]
  = Some [(js "a.io", Number_of_Z 2); (js "b.io", Number_of_Z 1)].
Proof. vm_compute. reflexivity. Qed.
